(** * pgscv: the service supervisor, its engine locator and the config check

    A shallow embedding of the Go sources of the [service] package (registry,
    discovery, health check, engine locator) and of [Config.Validate], with
    the properties of the specification stated and proved over it.

    Conventions of the embedding:
    - a Go [string] is a Rocq [string] (a sequence of bytes);
    - a Go [int] / [int64] is a [Z]; the platform is 64-bit, and the places
      where the source can leave the 64-bit range are written out with
      [wrap64];
    - a Go [map[string]T] is a [gmap string T]; reading an absent key gives
      the zero value of [T], which is written out at every read;
    - the operating system (process table, files), the database connection
      and the external packages are oracles collected in records. *)

From Stdlib Require Import ZArith Ascii String List Lia.
From stdpp Require Import gmap strings list fin_maps pretty.

Local Open Scope Z_scope.

(** ** Errors

    Go's [error] values, one constructor per place that creates one. *)

Inductive NumErrorKind := ErrSyntax | ErrRange.

Inductive error :=
| ErrNum (fn : string) (input : string) (kind : NumErrorKind)
    (* *strconv.NumError *)
| ErrDataDirNotFound
    (* "data directory argument not found" *)
| ErrReadFile (path : string)
    (* os.ReadFile / os.Open failed *)
| ErrEmptyCmdline
    (* "empty cmdline" *)
| ErrConnect (connString : string)
    (* store.New failed *)
| ErrProcess (pid : Z)
    (* gopsutil could not read the process *)
| ErrAPIKey
    (* "API key should be specified" *)
| ErrServiceType (conninfo : string)
    (* "service_type is not specified for %s" *)
| ErrConninfo (conninfo : string)
    (* "invalid conninfo: %s" *)
| ErrFilter
    (* Filters.Compile failed *)
| ErrCollector (serviceID : string).
    (* collector.NewPgscvCollector failed *)

(** What a call produces: a value, an [error], or a run-time panic (an
    index out of range), which ends the program. *)
Inductive result (A : Type) :=
| Ok (a : A)
| Err (e : error)
| Panic.
Arguments Ok {A} a.
Arguments Err {A} e.
Arguments Panic {A}.

Definition is_err {A} (r : result A) : bool :=
  match r with Err _ => true | _ => false end.

(** ** 64-bit integers *)

Definition minInt64 : Z := - 2 ^ 63.
Definition maxInt64 : Z := 2 ^ 63 - 1.

Definition wrap64 (z : Z) : Z := (z + 2 ^ 63) mod 2 ^ 64 - 2 ^ 63.

(** ** Package strconv *)

Module strconv.

Definition digit (c : ascii) : option Z :=
  let n := Z.of_N (N_of_ascii c) in
  if (48 <=? n) && (n <=? 57) then Some (n - 48) else None.

(** The loop of [ParseUint(s, 10, 64)]: a byte that is not a decimal digit
    is a syntax error, a value that leaves [uint64] is a range error,
    whichever comes first. *)
Fixpoint parseUintLoop (s : string) (n : Z) : Z + NumErrorKind :=
  match s with
  | EmptyString => inl n
  | String c s' =>
      match digit c with
      | None => inr ErrSyntax
      | Some d =>
          let n1 := 10 * n + d in
          if 2 ^ 64 <=? n1 then inr ErrRange else parseUintLoop s' n1
      end
  end.

Definition ParseUint (s : string) : Z + NumErrorKind :=
  match s with
  | EmptyString => inr ErrSyntax
  | _ => parseUintLoop s 0
  end.

(** [ParseInt(s, 10, 64)]. *)
Definition parseInt (s : string) : Z + NumErrorKind :=
  match s with
  | EmptyString => inr ErrSyntax
  | String c s' =>
      let neg := bool_decide (c = "-"%char) in
      let body :=
        if bool_decide (c = "+"%char) then s'
        else if neg then s' else s in
      match ParseUint body with
      | inr k => inr k
      | inl un =>
          if negb neg && (2 ^ 63 <=? un) then inr ErrRange
          else if neg && (2 ^ 63 <? un) then inr ErrRange
          else inl (if neg then - un else un)
      end
  end.

Definition ParseInt (s : string) : result Z :=
  match parseInt s with
  | inl n => Ok n
  | inr k => Err (ErrNum "ParseInt" s k)
  end.

(** [Atoi]: on a 64-bit platform its fast path (fewer than 19 bytes) and
    its slow path ([ParseInt(s, 10, 0)]) compute the same function. *)
Definition Atoi (s : string) : result Z :=
  match parseInt s with
  | inl n => Ok n
  | inr k => Err (ErrNum "Atoi" s k)
  end.

(** [Itoa]: the decimal form, with a leading [-] for negative numbers. *)
Definition Itoa (n : Z) : string := pretty n.

End strconv.

(** ** Package bufio: [Reader.ReadLine] over an in-memory buffer *)

Module bufio.

Definition LF : ascii := "010"%char.
Definition CR : ascii := "013"%char.

(** [bufio.NewReader] allocates a buffer of [defaultBufSize] bytes. *)
Definition defaultBufSize : nat := 4096.

Fixpoint take (n : nat) (s : string) : string :=
  match n, s with
  | S n', String c s' => String c (take n' s')
  | _, _ => EmptyString
  end.

Fixpoint drop (n : nat) (s : string) : string :=
  match n, s with
  | S n', String _ s' => drop n' s'
  | _, _ => s
  end.

(** [bytes.IndexByte]. *)
Fixpoint IndexByte (s : string) (c : ascii) : option nat :=
  match s with
  | EmptyString => None
  | String a s' =>
      if bool_decide (a = c) then Some O
      else option_map S (IndexByte s' c)
  end.

Fixpoint last (s : string) : option ascii :=
  match s with
  | EmptyString => None
  | String c EmptyString => Some c
  | String _ s' => last s'
  end.

(** Drop a final carriage return. *)
Definition dropCR (s : string) : string :=
  if bool_decide (last s = Some CR) then take (String.length s - 1) s else s.

(** One call of [ReadLine] on the unread bytes [r].  [None] is [io.EOF];
    otherwise the line (without its end-of-line bytes) and the bytes left
    unread.  A line that does not fit the buffer is handed out in pieces
    (the source ignores [isPrefix]); a carriage return that ends such a
    piece is put back. *)
Definition ReadLine (r : string) : option (string * string) :=
  match r with
  | EmptyString => None
  | _ =>
      match IndexByte (take defaultBufSize r) LF with
      | Some i => Some (dropCR (take i r), drop (S i) r)
      | None =>
          if (defaultBufSize <=? String.length r)%nat then
            if bool_decide (last (take defaultBufSize r) = Some CR)
            then Some (take (defaultBufSize - 1) r, drop (defaultBufSize - 1) r)
            else Some (take defaultBufSize r, drop defaultBufSize r)
          else Some (r, EmptyString)
      end
  end.

(** All the lines [ReadLine] hands out until [io.EOF]. *)
Fixpoint readLinesFuel (fuel : nat) (r : string) : list string :=
  match fuel with
  | O => []
  | S fuel' =>
      match ReadLine r with
      | None => []
      | Some (line, r') => line :: readLinesFuel fuel' r'
      end
  end.

Definition readLines (r : string) : list string :=
  readLinesFuel (S (String.length r)) r.

End bufio.

(** ** Package strings *)

Module strings.

Fixpoint HasPrefix (s prefix : string) : bool :=
  match prefix, s with
  | EmptyString, _ => true
  | String p prefix', String c s' =>
      bool_decide (c = p) && HasPrefix s' prefix'
  | String _ _, EmptyString => false
  end.

(** [Replace(s, old, "", -1)] for a one-byte [old]: every occurrence of
    the byte is removed. *)
Fixpoint removeByte (s : string) (old : ascii) : string :=
  match s with
  | EmptyString => EmptyString
  | String c s' =>
      if bool_decide (c = old) then removeByte s' old
      else String c (removeByte s' old)
  end.

(** [Split(s, sep)] for a one-byte separator: the pieces between the
    occurrences of [sep], one more than there are occurrences. *)
Fixpoint Split (s : string) (sep : ascii) : list string :=
  match s with
  | EmptyString => [EmptyString]
  | String c s' =>
      if bool_decide (c = sep) then EmptyString :: Split s' sep
      else
        match Split s' sep with
        | piece :: pieces => String c piece :: pieces
        | [] => [String c EmptyString]
        end
  end.

(** The ASCII white space of [unicode.IsSpace]: tab, line feed, vertical
    tab, form feed, carriage return and space. *)
Definition isSpace (c : ascii) : bool :=
  let n := N_of_ascii c in
  ((9 <=? n) && (n <=? 13))%N || (n =? 32)%N.

(** [Fields(s)] on byte strings whose white space is ASCII (a command
    line as the process table hands it out): the maximal runs of bytes
    that are not white space.  [cur] is the field being read, reversed. *)
Fixpoint fieldsLoop (s : string) (cur : list ascii) : list string :=
  let flush (rest : list string) :=
    match cur with
    | [] => rest
    | _ => string_of_list_ascii (rev cur) :: rest
    end in
  match s with
  | EmptyString => flush []
  | String c s' =>
      if isSpace c then flush (fieldsLoop s' [])
      else fieldsLoop s' (c :: cur)
  end.

Definition Fields (s : string) : list string := fieldsLoop s [].

(** [Join(elems, sep)]. *)
Fixpoint Join (elems : list string) (sep : string) : string :=
  match elems with
  | [] => EmptyString
  | [e] => e
  | e :: elems' => e +:+ sep +:+ Join elems' sep
  end.

End strings.

(** ** Package bufio: [Scanner] with [ScanLines] over a file *)

Module scanner.

(** [bufio.MaxScanTokenSize]. *)
Definition MaxScanTokenSize : nat := 64 * 1024.

(** One call of [Scan] followed by [Text] on the unread bytes [r].
    [None]: [Scan] returned false, at the end of the input or because the
    line does not fit the buffer ([ErrTooLong], which the source never
    looks at). *)
Definition Scan (r : string) : option (string * string) :=
  match r with
  | EmptyString => None
  | _ =>
      match bufio.IndexByte (bufio.take MaxScanTokenSize r) bufio.LF with
      | Some i => Some (bufio.dropCR (bufio.take i r), bufio.drop (S i) r)
      | None =>
          if (MaxScanTokenSize <=? String.length r)%nat then None
          else Some (bufio.dropCR r, EmptyString)
      end
  end.

End scanner.

(** ** Package model *)

Module model.

(** The package [internal/model] with the service-type constants is not
    among the sources at hand.  The [service] package concatenates them with
    ":" and a port, so they are strings; the specification names the
    identifiers [postgres:...], [pgbouncer:...] and [system:0]. *)

(** Modelled from the spec: [model.ServiceTypePostgresql], the type of the
    relational engine, the first part of [postgres:127.0.0.1:5432]. *)
Definition ServiceTypePostgresql : string := "postgres".

(** Modelled from the spec: [model.ServiceTypePgbouncer], the type of the
    pooler, the first part of [pgbouncer:127.0.0.1:16432]. *)
Definition ServiceTypePgbouncer : string := "pgbouncer".

(** Modelled from the spec: [model.ServiceTypeSystem], the type of the host
    pseudo-service, the first part of [system:0]. *)
Definition ServiceTypeSystem : string := "system".

End model.

(** ** Package service: data *)

(** [ConnSetting]: connection settings of one service. *)
Record ConnSetting := {
  ServiceType : string;
  Conninfo : string;
}.

(** A collector is a pointer to a [PgscvCollector]; the model keeps the
    address. *)
Definition CollectorRef := nat.

(** [Service]: one record of the repository.  [Collector] is [None] for the
    nil interface value. *)
Record Service := {
  ServiceID : string;
  ConnSettings : ConnSetting;
  Collector : option CollectorRef;
  TotalErrors : Z;
}.

(** The zero value of [Service], which reading an absent key yields. *)
Definition zeroService : Service :=
  {| ServiceID := ""; ConnSettings := {| ServiceType := ""; Conninfo := "" |};
     Collector := None; TotalErrors := 0 |}.

Definition withTotalErrors (n : Z) (s : Service) : Service :=
  {| ServiceID := ServiceID s; ConnSettings := ConnSettings s;
     Collector := Collector s; TotalErrors := n |}.

Definition withCollector (c : option CollectorRef) (s : Service) : Service :=
  {| ServiceID := ServiceID s; ConnSettings := ConnSettings s;
     Collector := c; TotalErrors := TotalErrors s |}.

(** [connectionParams]: what the engine locator reads from the metadata. *)
Record connectionParams := {
  pid : Z;
  datadirPath : string;
  startTs : Z;
  unixSocketDirPath : string;
  listenAddr : string;
  listenPort : Z;
}.

Definition zeroParams : connectionParams :=
  {| pid := 0; datadirPath := ""; startTs := 0; unixSocketDirPath := "";
     listenAddr := ""; listenPort := 0 |}.

(** [service.Config]; [ConnSettings] of the source is [ConfigConnSettings]
    here ([None] is the nil slice), the filters are only handed on to the
    collectors. *)
Record Config := {
  NoTrackMode : bool;
  ConnDefaults : gmap string string;
  ConfigConnSettings : option (list ConnSetting);
  DisabledCollectors : list string;
}.

(** ** The world outside the package *)

(** A process as gopsutil shows it.  [Ppid] is what [proc.Ppid()] gives when
    its error is dropped. *)
Record Process := {
  Pid : Z;
  Name : result string;
  Ppid : Z;
  CmdlineSlice : result (list string);
  Cmdline : result string;
}.

(** The host during one tick: process table, files, and what the external
    packages answer. *)
Record Host := {
  (* process.Pids() *)
  Pids : result (list Z);
  (* process.NewProcess(pid) *)
  NewProcess : Z -> result Process;
  (* os.ReadFile(filepath.Clean(path)), also os.Open and reading it all *)
  ReadFile : string -> option string;
  (* store.New(connString) connects *)
  Connects : string -> bool;
  (* pgx.ParseConfig(conninfo): the host and the port of a valid conninfo *)
  ParseConfig : string -> option (string * Z);
  (* collector.NewPostgresServiceConfig(connString) succeeds *)
  PostgresServiceConfigOk : string -> bool;
  (* collector.NewPgscvCollector(serviceID, factories, config) succeeds *)
  PgscvCollectorOk : string -> bool;
  (* prometheus.MustRegister accepts a new collector of this service, given
     the collectors it holds *)
  RegisterOk : gset nat -> string -> bool;
}.

(** Who asks for a test connection: the health check of a service, or the
    discovery of a process. *)
Inductive caller :=
| HealthOf (id : string)
| DiscoveryOf (pid : Z).

(** One call of [attemptConnect] and its outcome. *)
Inductive event :=
| EvConnect (who : caller) (connString : string) (ok : bool).

(** The state the package works on: the map of the [Repository], the
    collectors registered with prometheus' default registerer, the next free
    collector address, and the test connections made so far (latest first). *)
Record State := {
  Services : gmap string Service;
  Registerer : gset CollectorRef;
  nextRef : CollectorRef;
  trace : list event;
}.

Definition withServices (m : gmap string Service) (st : State) : State :=
  {| Services := m; Registerer := Registerer st; nextRef := nextRef st;
     trace := trace st |}.

Definition withRegisterer (r : gset CollectorRef) (st : State) : State :=
  {| Services := Services st; Registerer := r; nextRef := nextRef st;
     trace := trace st |}.

Definition withTrace (t : list event) (st : State) : State :=
  {| Services := Services st; Registerer := Registerer st;
     nextRef := nextRef st; trace := t |}.

(** [NewRepository], with nothing registered yet. *)
Definition NewRepository : State :=
  {| Services := ∅; Registerer := ∅; nextRef := O; trace := [] |}.

(** ** A state and error monad for the calls that do both *)

Definition M (A : Type) : Type := State -> State * result A.

Definition ret {A} (a : A) : M A := fun st => (st, Ok a).

Definition lift {A} (r : result A) : M A := fun st => (st, r).

Definition bind {A B} (m : M A) (k : A -> M B) : M B :=
  fun st =>
    match m st with
    | (st', Ok a) => k a st'
    | (st', Err e) => (st', Err e)
    | (st', Panic) => (st', Panic)
    end.

Notation "'let*' x ':=' m 'in' k" := (bind m (fun x => k))
  (at level 10, x name, m at level 100, k at level 200).

(** Bind of plain results. *)
Definition andThen {A B} (r : result A) (k : A -> result B) : result B :=
  match r with
  | Ok a => k a
  | Err e => Err e
  | Panic => Panic
  end.

(** ** Package service: the repository *)

Definition defaultHost : string := "127.0.0.1".
Definition defaultPgbouncerPort : Z := 6432.
Definition defaultPostgresUsername : string := "pgscv".
Definition defaultPostgresDbname : string := "postgres".
Definition defaultPgbouncerUsername : string := "pgscv".
Definition defaultPgbouncerDbname : string := "pgbouncer".

(** [repo.Services[id] = s]. *)
Definition addService (id : string) (s : Service)
    (m : gmap string Service) : gmap string Service :=
  <[id := s]> m.

(** [repo.Services[id]]: the record, or the zero value. *)
Definition getService (id : string) (m : gmap string Service) : Service :=
  default zeroService (m !! id).

Definition markServiceFailed (id : string)
    (m : gmap string Service) : gmap string Service :=
  let s := getService id m in
  <[id := withTotalErrors (wrap64 (TotalErrors s + 1)) s]> m.

Definition getServiceStatus (id : string) (m : gmap string Service) : Z :=
  TotalErrors (getService id m).

Definition markServiceHealthy (id : string)
    (m : gmap string Service) : gmap string Service :=
  let s := getService id m in
  <[id := withTotalErrors 0 s]> m.

Definition removeService (id : string)
    (m : gmap string Service) : gmap string Service :=
  delete id m.

Definition totalServices (m : gmap string Service) : Z :=
  Z.of_nat (size m).

(** [getServiceIDs] ranges over a Go map, whose order is not fixed: any
    list that holds every key once is a possible answer. *)
Definition isServiceIDs (m : gmap string Service) (ids : list string) : Prop :=
  NoDup ids /\ forall id, id ∈ ids <-> is_Some (m !! id).

(** One such answer, for running the model. *)
Definition getServiceIDs (m : gmap string Service) : list string :=
  elements (dom m).

(** ** Package service: the engine locator *)

(** [parsePostgresProcessCmdline]: the argument that follows the first "-D"
    that has one. *)
Fixpoint parsePostgresProcessCmdline (cmdline : list string) : result string :=
  match cmdline with
  | [] => Err ErrDataDirNotFound
  | arg :: rest =>
      if bool_decide (arg = "-D") then
        match rest with
        | next :: _ => Ok next
        | [] => parsePostgresProcessCmdline rest
        end
      else parsePostgresProcessCmdline rest
  end.

(** The [switch i] of [newPostgresConnectionParams]: line number [i] of the
    file sets one field. *)
Definition pidFileLine (i : nat) (line : string)
    (p : connectionParams) : result connectionParams :=
  match i with
  | 0%nat =>
      andThen (strconv.Atoi line) (fun v =>
      Ok {| pid := v; datadirPath := datadirPath p; startTs := startTs p;
            unixSocketDirPath := unixSocketDirPath p;
            listenAddr := listenAddr p; listenPort := listenPort p |})
  | 1%nat =>
      Ok {| pid := pid p; datadirPath := line; startTs := startTs p;
            unixSocketDirPath := unixSocketDirPath p;
            listenAddr := listenAddr p; listenPort := listenPort p |}
  | 2%nat =>
      andThen (strconv.ParseInt line) (fun v =>
      Ok {| pid := pid p; datadirPath := datadirPath p; startTs := v;
            unixSocketDirPath := unixSocketDirPath p;
            listenAddr := listenAddr p; listenPort := listenPort p |})
  | 3%nat =>
      andThen (strconv.Atoi line) (fun v =>
      Ok {| pid := pid p; datadirPath := datadirPath p; startTs := startTs p;
            unixSocketDirPath := unixSocketDirPath p;
            listenAddr := listenAddr p; listenPort := v |})
  | 4%nat =>
      Ok {| pid := pid p; datadirPath := datadirPath p; startTs := startTs p;
            unixSocketDirPath := line;
            listenAddr := listenAddr p; listenPort := listenPort p |}
  | 5%nat =>
      Ok {| pid := pid p; datadirPath := datadirPath p; startTs := startTs p;
            unixSocketDirPath := unixSocketDirPath p;
            listenAddr := if bool_decide (line = "*") then defaultHost else line;
            listenPort := listenPort p |}
  | _ => Ok p
  end.

(** The loop [for i := 0; ; i++] of [newPostgresConnectionParams] over the
    unread bytes; it ends at [io.EOF] or at the first error.  Every
    [ReadLine] takes at least one byte, so fuel beyond the length of the
    content is never used. *)
Fixpoint pidFileLoop (fuel : nat) (i : nat) (reader : string)
    (p : connectionParams) : result connectionParams :=
  match fuel with
  | O => Ok p
  | S fuel' =>
      match bufio.ReadLine reader with
      | None => Ok p
      | Some (line, reader') =>
          andThen (pidFileLine i line p) (pidFileLoop fuel' (S i) reader')
      end
  end.

(** [newPostgresConnectionParams]. *)
Definition newPostgresConnectionParams (h : Host)
    (pidFilePath : string) : result connectionParams :=
  match ReadFile h pidFilePath with
  | None => Err (ErrReadFile pidFilePath)
  | Some content => pidFileLoop (S (String.length content)) 0 content zeroParams
  end.

(** The same loop over the lines [ReadLine] hands out. *)
Fixpoint pidFileLines (i : nat) (lines : list string)
    (p : connectionParams) : result connectionParams :=
  match lines with
  | [] => Ok p
  | line :: lines' =>
      andThen (pidFileLine i line p) (pidFileLines (S i) lines')
  end.

(** The lines of [postmaster.pid] that hold a number: pid, start timestamp
    and listen port. *)
Definition numericLine (i : nat) : Prop := i = 0%nat \/ i = 2%nat \/ i = 3%nat.

(** [strconv] does not take the line for an integer. *)
Definition notInteger (line : string) : Prop :=
  exists kind, strconv.parseInt line = inr kind.

(** Some numeric line among [lines], counted from [i], is not an integer. *)
Definition badLine (i : nat) (lines : list string) : Prop :=
  exists k line,
    lines !! k = Some line /\ numericLine (i + k) /\ notInteger line.

(** Some "-D" of the command line has an argument after it. *)
Definition hasDataDir (args : list string) : Prop :=
  exists i, args !! i = Some "-D" /\ is_Some (args !! S i).

(** A line as the file has it between two line feeds: no line feed in it,
    no carriage return at its end, and short enough for the buffer of the
    reader together with its line feed. *)
Definition plainLine (line : string) : Prop :=
  bufio.IndexByte line bufio.LF = None /\
  bufio.last line <> Some bufio.CR /\
  (String.length line < bufio.defaultBufSize)%nat.

(** The relational engine locator, as [discoverPostgres] runs it: from the
    command line of the process to its connection parameters. *)
Definition locatePostgres (h : Host)
    (cmdline : result (list string)) : result connectionParams :=
  andThen cmdline (fun args =>
  andThen (parsePostgresProcessCmdline args) (fun datadirCmdPath =>
  newPostgresConnectionParams h (datadirCmdPath +:+ "/postmaster.pid"))).

(** ** Package service: connection strings and test connections *)

(** [defaults[key]] when the key is set, [fallback] otherwise. *)
Definition defaultOr (defaults : gmap string string) (key fallback : string)
    : string :=
  match defaults !! key with
  | Some v => v
  | None => fallback
  end.

(** [newPostgresConnectionString]. *)
Definition newPostgresConnectionString (connParams : connectionParams)
    (defaults : gmap string string) (unix : bool) : string :=
  let username := defaultOr defaults "postgres_username" defaultPostgresUsername in
  let dbname := defaultOr defaults "postgres_dbname" defaultPostgresDbname in
  let password := defaultOr defaults "postgres_password" "" in
  let connString := "application_name=pgscv" in
  let connString :=
    if unix && negb (bool_decide (unixSocketDirPath connParams = "")) then
      connString +:+ " host=" +:+ unixSocketDirPath connParams
    else if negb unix && negb (bool_decide (listenAddr connParams = "")) then
      connString +:+ " host=" +:+ listenAddr connParams
    else connString in
  let connString :=
    if 0 <? listenPort connParams then
      connString +:+ " port=" +:+ strconv.Itoa (listenPort connParams)
    else connString in
  let connString :=
    connString +:+ " user=" +:+ username +:+ " dbname=" +:+ dbname in
  if negb (bool_decide (password = "")) then
    connString +:+ " password=" +:+ password
  else connString.

(** [newPgbouncerConnectionString]. *)
Definition newPgbouncerConnectionString (connParams : connectionParams)
    (defaults : gmap string string) : string :=
  let username := defaultOr defaults "pgbouncer_username" defaultPgbouncerUsername in
  let password := defaultOr defaults "pgbouncer_password" "" in
  let connString := "application_name=pgscv" in
  let connString :=
    if negb (bool_decide (listenAddr connParams = "")) then
      connString +:+ " host=" +:+ listenAddr connParams
    else if negb (bool_decide (unixSocketDirPath connParams = "")) then
      connString +:+ " host=" +:+ unixSocketDirPath connParams
    else connString in
  let connString :=
    if 0 <? listenPort connParams then
      connString +:+ " port=" +:+ strconv.Itoa (listenPort connParams)
    else connString in
  let connString :=
    connString +:+ " user=" +:+ username +:+ " dbname=" +:+ defaultPgbouncerDbname in
  if negb (bool_decide (password = "")) then
    connString +:+ " password=" +:+ password
  else connString.

(** [attemptConnect]: one test connection, recorded in the trace. *)
Definition attemptConnect (h : Host) (who : caller) (connString : string)
    : M unit :=
  fun st =>
    let ok := Connects h connString in
    (withTrace (EvConnect who connString ok :: trace st) st,
     if ok then Ok tt else Err (ErrConnect connString)).

(** ** Package service: discovery of the relational engine *)

(** The loop [for _, v := range []bool{true, false}] of [discoverPostgres]:
    it leaves at the first connection that works, and otherwise ends with
    the last string it built. *)
Fixpoint connectLoop (h : Host) (who : caller) (connParams : connectionParams)
    (defaults : gmap string string) (vs : list bool) (connString : string)
    (st : State) : State * string :=
  match vs with
  | [] => (st, connString)
  | v :: vs' =>
      let connString := newPostgresConnectionString connParams defaults v in
      match attemptConnect h who connString st with
      | (st', Ok _) => (st', connString)
      | (st', _) => connectLoop h who connParams defaults vs' connString st'
      end
  end.

(** [discoverPostgres]. *)
Definition discoverPostgres (h : Host) (proc : Process) (config : Config)
    : M Service :=
  let* connParams := lift (locatePostgres h (CmdlineSlice proc)) in
  fun st =>
    let '(st', connString) :=
      connectLoop h (DiscoveryOf (Pid proc)) connParams (ConnDefaults config)
        [true; false] "" st in
    (st', Ok {| ServiceID :=
                  model.ServiceTypePostgresql +:+ ":" +:+
                  strconv.Itoa (listenPort connParams);
                ConnSettings :=
                  {| ServiceType := model.ServiceTypePostgresql;
                     Conninfo := connString |};
                Collector := None;
                TotalErrors := 0 |}).

(** ** Package service: discovery of the pooler *)

(** [parsePgbouncerCmdline]: the first argument after the executable that
    does not start with "-".  [parts[1:]] of an empty [parts] is a run-time
    panic. *)
Definition parsePgbouncerCmdline (cmdline : string) : result string :=
  match strings.Fields cmdline with
  | [] => Panic
  | _ :: args =>
      Ok (default "" (head (filter (fun s => strings.HasPrefix s "-" = false) args)))
  end.

(** The [switch paramName] of [parsePgbouncerIniFile]. *)
Definition iniParam (paramName paramValue : string)
    (p : connectionParams) : result connectionParams :=
  if bool_decide (paramName = "listen_addr") then
    let addr := default "" (head (strings.Split paramValue ","%char)) in
    Ok {| pid := pid p; datadirPath := datadirPath p; startTs := startTs p;
          unixSocketDirPath := unixSocketDirPath p;
          listenAddr := if bool_decide (addr = "*") then defaultHost else addr;
          listenPort := listenPort p |}
  else if bool_decide (paramName = "listen_port") then
    andThen (strconv.Atoi paramValue) (fun v =>
    Ok {| pid := pid p; datadirPath := datadirPath p; startTs := startTs p;
          unixSocketDirPath := unixSocketDirPath p;
          listenAddr := listenAddr p; listenPort := v |})
  else if bool_decide (paramName = "unix_socket_dir") then
    Ok {| pid := pid p; datadirPath := datadirPath p; startTs := startTs p;
          unixSocketDirPath := paramValue;
          listenAddr := listenAddr p; listenPort := listenPort p |}
  else Ok p.

(** The loop [for scanner.Scan()] of [parsePgbouncerIniFile]. *)
Fixpoint iniLoop (fuel : nat) (r : string)
    (p : connectionParams) : result connectionParams :=
  match fuel with
  | O => Ok p
  | S fuel' =>
      match scanner.Scan r with
      | None => Ok p
      | Some (line, r') =>
          if strings.HasPrefix line ";" || strings.HasPrefix line "#"
             || bool_decide (line = "")
          then iniLoop fuel' r' p
          else
            let line := strings.removeByte line " "%char in
            match strings.Split line "="%char with
            | [paramName; paramValue] =>
                andThen (iniParam paramName paramValue p) (iniLoop fuel' r')
            | _ => iniLoop fuel' r' p
            end
      end
  end.

(** [parsePgbouncerIniFile]; an error of the loop gives up the parameters
    read so far. *)
Definition parsePgbouncerIniFile (h : Host) (iniFilePath : string)
    : result connectionParams :=
  match ReadFile h iniFilePath with
  | None => Err (ErrReadFile iniFilePath)
  | Some content =>
      andThen (iniLoop (S (String.length content)) content zeroParams) (fun p =>
      Ok {| pid := pid p; datadirPath := datadirPath p; startTs := startTs p;
            unixSocketDirPath :=
              if bool_decide (unixSocketDirPath p = "") then "/tmp"
              else unixSocketDirPath p;
            listenAddr := listenAddr p;
            listenPort :=
              if bool_decide (listenPort p = 0) then defaultPgbouncerPort
              else listenPort p |})
  end.

(** [discoverPgbouncer]. *)
Definition discoverPgbouncer (h : Host) (proc : Process) (config : Config)
    : M Service :=
  let* cmdline := lift (Cmdline proc) in
  if bool_decide (cmdline = "") then lift (Err ErrEmptyCmdline)
  else
    let* configFilePath := lift (parsePgbouncerCmdline cmdline) in
    let* connParams := lift (parsePgbouncerIniFile h configFilePath) in
    let connString :=
      newPgbouncerConnectionString connParams (ConnDefaults config) in
    let* _ := attemptConnect h (DiscoveryOf (Pid proc)) connString in
    ret {| ServiceID :=
             model.ServiceTypePgbouncer +:+ ":" +:+
             strconv.Itoa (listenPort connParams);
           ConnSettings :=
             {| ServiceType := model.ServiceTypePgbouncer;
                Conninfo := connString |};
           Collector := None;
           TotalErrors := 0 |}.

(** ** Package service: the discovery pass *)

(** The check that precedes [addService] in [lookupServices]: a record
    stored under the candidate's identifier and carrying it means "already
    in the repository". *)
Definition testAndAdd (candidate : Service) (st : State) : State :=
  if bool_decide (ServiceID (getService (ServiceID candidate) (Services st))
                  = ServiceID candidate)
  then st
  else withServices (addService (ServiceID candidate) candidate (Services st)) st.

(** What [lookupServices] does with the outcome of a discovery: an error is
    logged and the process skipped. *)
Definition lookupFound (found : M Service) : M unit :=
  fun st =>
    match found st with
    | (st', Ok candidate) => (testAndAdd candidate st', Ok tt)
    | (st', Err _) => (st', Ok tt)
    | (st', Panic) => (st', Panic)
    end.

(** The body of the loop of [lookupServices] for one pid. *)
Definition lookupProcess (h : Host) (config : Config) (p : Z) : M unit :=
  match NewProcess h p with
  | Panic => lift Panic
  | Err _ => ret tt
  | Ok proc =>
      match Name proc with
      | Panic => lift Panic
      | Err _ => ret tt
      | Ok name =>
          if bool_decide (name = "postgres") then
            if bool_decide (Ppid proc = 1)
            then lookupFound (discoverPostgres h proc config)
            else ret tt
          else if bool_decide (name = "pgbouncer") then
            lookupFound (discoverPgbouncer h proc config)
          else ret tt
      end
  end.

Fixpoint lookupLoop (h : Host) (config : Config) (pids : list Z) : M unit :=
  match pids with
  | [] => ret tt
  | p :: pids' =>
      let* _ := lookupProcess h config p in
      lookupLoop h config pids'
  end.

(** [lookupServices]. *)
Definition lookupServices (h : Host) (config : Config) : M unit :=
  let* pids := lift (Pids h) in
  lookupLoop h config pids.

(** ** Package service: attaching collectors *)

(** [collector.NewPgscvCollector], [prometheus.MustRegister] and the
    [addService] that stores the updated copy.  [MustRegister] panics when
    the registerer refuses the collector. *)
Definition attachCollector (h : Host) (id : string) (service : Service)
    : M unit :=
  fun st =>
    if negb (PgscvCollectorOk h (ServiceID service))
    then (st, Err (ErrCollector (ServiceID service)))
    else
      let mc := nextRef st in
      if negb (RegisterOk h (Registerer st) (ServiceID service))
      then (st, Panic)
      else
        ({| Services :=
              addService id (withCollector (Some mc) service) (Services st);
            Registerer := {[mc]} ∪ Registerer st;
            nextRef := S mc;
            trace := trace st |}, Ok tt).

(** The body of the loop of [setupServices] for one identifier. *)
Definition setupService (h : Host) (config : Config) (id : string) : M unit :=
  fun st =>
    let service := getService id (Services st) in
    match Collector service with
    | Some _ => (st, Ok tt)
    | None =>
        let type := ServiceType (ConnSettings service) in
        if bool_decide (type = model.ServiceTypeSystem) then
          attachCollector h id service st
        else if bool_decide (type = model.ServiceTypePostgresql) then
          if PostgresServiceConfigOk h (Conninfo (ConnSettings service))
          then attachCollector h id service st
          else (st, Ok tt)
        else if bool_decide (type = model.ServiceTypePgbouncer) then
          attachCollector h id service st
        else (st, Ok tt)
    end.

Fixpoint setupLoop (h : Host) (config : Config) (ids : list string)
    : M unit :=
  match ids with
  | [] => ret tt
  | id :: ids' =>
      let* _ := setupService h config id in
      setupLoop h config ids'
  end.

(** [setupServices], over the identifiers [getServiceIDs] answered. *)
Definition setupServices (h : Host) (config : Config) (ids : list string)
    : M unit :=
  setupLoop h config ids.

(** ** Package service: the health check *)

(** "Remove service after 10 failed health checks." *)
Definition errorThreshold : Z := 10.

(** The body of the loop of [healthcheckServices] for one identifier. *)
Definition healthcheckService (h : Host) (id : string) (st : State) : State :=
  let service := getService id (Services st) in
  let type := ServiceType (ConnSettings service) in
  if bool_decide (type = model.ServiceTypePostgresql)
     || bool_decide (type = model.ServiceTypePgbouncer)
  then
    let totalErrors := getServiceStatus id (Services st) in
    match attemptConnect h (HealthOf id) (Conninfo (ConnSettings service)) st with
    | (st', Ok _) => st'
    | (st', _) =>
        let totalErrors := wrap64 (totalErrors + 1) in
        if totalErrors <? errorThreshold then
          withServices (markServiceFailed id (Services st')) st'
        else
          let st'' :=
            match Collector (getService id (Services st')) with
            | Some c => withRegisterer (Registerer st' ∖ {[c]}) st'
            | None => st'
            end in
          withServices (removeService id (Services st'')) st''
    end
  else st.

(** [healthcheckServices], over the identifiers [getServiceIDs] answered. *)
Definition healthcheckServices (h : Host) (ids : list string)
    (st : State) : State :=
  foldl (fun st id => healthcheckService h id st) st ids.

(** ** Package service: bootstrap and the background loop *)

(** The pseudo-service for system metrics. *)
Definition systemService : Service :=
  {| ServiceID := "system:0";
     ConnSettings := {| ServiceType := model.ServiceTypeSystem; Conninfo := "" |};
     Collector := None;
     TotalErrors := 0 |}.

(** The body of the loop of [addServicesFromConfig] for one setting:
    [pgx.ParseConfig], a connection through [store.NewWithConfig], and the
    record stored under type, host and port. *)
Definition addServiceFromConfig (h : Host) (cs : ConnSetting)
    (m : gmap string Service) : gmap string Service :=
  match ParseConfig h (Conninfo cs) with
  | None => m
  | Some (host, port) =>
      if negb (Connects h (Conninfo cs)) then m
      else
        let s :=
          {| ServiceID := ServiceType cs +:+ ":" +:+ strconv.Itoa port;
             ConnSettings := cs;
             Collector := None;
             TotalErrors := 0 |} in
        let key :=
          strings.Join [ServiceType cs; host; strconv.Itoa port] ":" in
        addService key s m
  end.

(** [addServicesFromConfig]. *)
Definition addServicesFromConfig (h : Host) (config : Config)
    (st : State) : State :=
  let m := addService "system:0" systemService (Services st) in
  match ConfigConnSettings config with
  | None => withServices m st
  | Some settings =>
      withServices (foldl (fun m cs => addServiceFromConfig h cs m) m settings) st
  end.

(** The first statement of [startBackgroundDiscovery]. *)
Definition startDiscovery (st : State) : State :=
  withServices (addService "system:0" systemService (Services st)) st.

(** One turn of the loop of [startBackgroundDiscovery]: discovery, then
    collector attachment, then the health check; a failure of one of the
    first two ends the turn.  [ids1] and [ids2] are what [getServiceIDs]
    answers to [setupServices] and to [healthcheckServices]; [None] is a
    panic. *)
Definition discoveryTurn (h : Host) (config : Config)
    (ids1 ids2 : State -> list string) (st : State) : option State :=
  match lookupServices h config st with
  | (_, Panic) => None
  | (st1, Err _) => Some st1
  | (st1, Ok _) =>
      match setupServices h config (ids1 st1) st1 with
      | (_, Panic) => None
      | (st2, Err _) => Some st2
      | (st2, Ok _) => Some (healthcheckServices h (ids2 st2) st2)
      end
  end.

(** The states of a supervisor: it starts on a new repository, with
    [startBackgroundDiscovery] or with [addServicesFromConfig], may call
    either again, and runs discovery passes, collector attachments and
    health checks, on whatever the host is each time. *)
Inductive reachable (config : Config) : State -> Prop :=
| reach_start :
    reachable config (startDiscovery NewRepository)
| reach_start_config h :
    reachable config (addServicesFromConfig h config NewRepository)
| reach_discovery st :
    reachable config st ->
    reachable config (startDiscovery st)
| reach_config h st :
    reachable config st ->
    reachable config (addServicesFromConfig h config st)
| reach_lookup h st :
    reachable config st ->
    reachable config (fst (lookupServices h config st))
| reach_setup h ids st :
    reachable config st ->
    isServiceIDs (Services st) ids ->
    reachable config (fst (setupServices h config ids st))
| reach_health h ids st :
    reachable config st ->
    isServiceIDs (Services st) ids ->
    reachable config (healthcheckServices h ids st).

(** ** Package pgscv: the configuration and its validation *)

Module pgscv.

Definition defaultListenAddress : string := "127.0.0.1:9890".

(** [defaultSendMetricsInterval], in seconds. *)
Definition defaultSendMetricsInterval : Z := 60.

Section WithFilters.

(** The package [filter] is outside the sources at hand: its type and
    the three operations [Validate] calls are parameters. *)
Variable Filters : Type.
Variable filterNew : Filters.
Variable filterSetDefault : Filters -> Filters.
Variable filterCompile : Filters -> option Filters.

(** [pgscv.Config]; [None] is a nil map or slice. *)
Record Config := {
  BinaryPath : string;
  BinaryVersion : string;
  AutoUpdate : bool;
  NoTrackMode : bool;
  ListenAddress : string;
  SendMetricsURL : string;
  SendMetricsInterval : Z;
  APIKey : string;
  ServicesConnSettings : option (list ConnSetting);
  Defaults : option (gmap string string);
  ConfigFilters : option Filters;
  DisableCollectors : list string;
}.

Definition withAPIKey (key : string) (c : Config) : Config :=
  {| BinaryPath := BinaryPath c; BinaryVersion := BinaryVersion c;
     AutoUpdate := AutoUpdate c; NoTrackMode := NoTrackMode c;
     ListenAddress := ListenAddress c; SendMetricsURL := SendMetricsURL c;
     SendMetricsInterval := SendMetricsInterval c; APIKey := key;
     ServicesConnSettings := ServicesConnSettings c;
     Defaults := Defaults c; ConfigFilters := ConfigFilters c;
     DisableCollectors := DisableCollectors c |}.

(** [if _, ok := m[key]; !ok { m[key] = value }]. *)
Definition setDefault (key value : string)
    (m : gmap string string) : gmap string string :=
  match m !! key with
  | Some _ => m
  | None => <[key := value]> m
  end.

(** The loop of [Validate] over the configured services. *)
Fixpoint validateServices (h : Host) (settings : list ConnSetting)
    : result unit :=
  match settings with
  | [] => Ok tt
  | s :: settings' =>
      if bool_decide (ServiceType s = "") then
        Err (ErrServiceType (Conninfo s))
      else
        match ParseConfig h (Conninfo s) with
        | None => Err (ErrConninfo (Conninfo s))
        | Some _ => validateServices h settings'
        end
  end.

(** [Config.Validate]: the configuration as the call leaves it, and
    what the call returns. *)
Definition Validate (h : Host) (c : Config) : Config * result unit :=
  let c1 :=
    {| BinaryPath := BinaryPath c; BinaryVersion := BinaryVersion c;
       AutoUpdate := AutoUpdate c; NoTrackMode := NoTrackMode c;
       ListenAddress := ListenAddress c; SendMetricsURL := SendMetricsURL c;
       SendMetricsInterval := defaultSendMetricsInterval;
       APIKey := APIKey c;
       ServicesConnSettings := ServicesConnSettings c;
       Defaults := Defaults c; ConfigFilters := ConfigFilters c;
       DisableCollectors := DisableCollectors c |} in
  if negb (bool_decide (SendMetricsURL c = ""))
     && bool_decide (APIKey c = "")
  then (c1, Err ErrAPIKey)
  else
    let defaults :=
      setDefault "pgbouncer_dbname" defaultPgbouncerDbname
        (setDefault "pgbouncer_username" defaultPgbouncerUsername
           (setDefault "postgres_dbname" defaultPostgresDbname
              (setDefault "postgres_username" defaultPostgresUsername
                 (default ∅ (Defaults c))))) in
    let c2 :=
      {| BinaryPath := BinaryPath c; BinaryVersion := BinaryVersion c;
         AutoUpdate := AutoUpdate c; NoTrackMode := NoTrackMode c;
         ListenAddress :=
           if bool_decide (ListenAddress c = "") then defaultListenAddress
           else ListenAddress c;
         SendMetricsURL := SendMetricsURL c;
         SendMetricsInterval := defaultSendMetricsInterval;
         APIKey := APIKey c;
         ServicesConnSettings := ServicesConnSettings c;
         Defaults := Some defaults; ConfigFilters := ConfigFilters c;
         DisableCollectors := DisableCollectors c |} in
    match validateServices h (default [] (ServicesConnSettings c)) with
    | Err e => (c2, Err e)
    | Panic => (c2, Panic)
    | Ok _ =>
        let filters := filterSetDefault (default filterNew (ConfigFilters c)) in
        let withFilters (f : Filters) :=
          {| BinaryPath := BinaryPath c2; BinaryVersion := BinaryVersion c2;
             AutoUpdate := AutoUpdate c2; NoTrackMode := NoTrackMode c2;
             ListenAddress := ListenAddress c2;
             SendMetricsURL := SendMetricsURL c2;
             SendMetricsInterval := SendMetricsInterval c2;
             APIKey := APIKey c2;
             ServicesConnSettings := ServicesConnSettings c2;
             Defaults := Defaults c2; ConfigFilters := Some f;
             DisableCollectors := DisableCollectors c2 |} in
        match filterCompile filters with
        | None => (withFilters filters, Err ErrFilter)
        | Some compiled => (withFilters compiled, Ok tt)
        end
    end.

(** ** Command pgscv: [main] up to the start of the agent *)

Record Flags := {
  showVersion : bool;
  configFile : string;
  doBootstrap : bool;
  doUninstall : bool;
}.

(** What [main] does first: leave with an exit code, or start the agent
    on a validated configuration. *)
Inductive Startup :=
| Exit (code : Z)
| Start (config : Config).

(** [main]; [newConfig] is [pgscv.NewConfig], [runBootstrap] and
    [runUninstall] are the exit codes of the packaging routines. *)
Definition main (h : Host) (newConfig : string -> result Config)
    (runBootstrap runUninstall : Z) (flags : Flags) : Startup :=
  if showVersion flags then Exit 0
  else if doUninstall flags && doBootstrap flags then Exit 1
  else if doUninstall flags then Exit runUninstall
  else if doBootstrap flags then Exit runBootstrap
  else
    match newConfig (configFile flags) with
    | Ok config =>
        match Validate h config with
        | (config', Ok _) => Start config'
        | (_, _) => Exit 1
        end
    | _ => Exit 1
    end.

End WithFilters.

End pgscv.

(** ** Runs of the supervisor *)

(** One pass of the background loop, on the host as it is at that time. *)
Inductive op :=
| Lookup (h : Host)
| Setup (h : Host) (ids : list string)
| Health (h : Host) (ids : list string).

Definition runOp (config : Config) (o : op) (st : State) : State :=
  match o with
  | Lookup h => fst (lookupServices h config st)
  | Setup h ids => fst (setupServices h config ids st)
  | Health h ids => healthcheckServices h ids st
  end.

Definition run (config : Config) (ops : list op) (st : State) : State :=
  foldl (fun st o => runOp config o st) st ops.

(** The health checks among the passes. *)
Fixpoint healthChecks (ops : list op) : nat :=
  match ops with
  | [] => O
  | Health _ _ :: ops' => S (healthChecks ops')
  | _ :: ops' => healthChecks ops'
  end.

(** Every health check of the run looks at service [id], once, and cannot
    connect with [conninfo]. *)
Definition failsEachCheck (id conninfo : string) (o : op) : Prop :=
  match o with
  | Health h ids => NoDup ids /\ id ∈ ids /\ Connects h conninfo = false
  | _ => True
  end.

(** A service with a remote endpoint, as the health check tells it. *)
Definition isRemote (s : Service) : bool :=
  bool_decide (ServiceType (ConnSettings s) = model.ServiceTypePostgresql)
  || bool_decide (ServiceType (ConnSettings s) = model.ServiceTypePgbouncer).

(** What one health check makes of a record: kept, kept with one more
    failure, or removed ([None]). *)
Definition healthRecord (h : Host) (s : Service) : option Service :=
  if isRemote s then
    if Connects h (Conninfo (ConnSettings s)) then Some s
    else if wrap64 (TotalErrors s + 1) <? errorThreshold
         then Some (withTotalErrors (wrap64 (TotalErrors s + 1)) s)
         else None
  else Some s.

(** ** The discovery pass seen from the repository

    Discovery touches the state only through the trace and [testAndAdd];
    what it finds depends on the host alone.  The functions below give what
    is found, without the state; the theorems relate them to the pass. *)

(** The connection string [connectLoop] ends with. *)
Fixpoint chosenConnString (h : Host) (connParams : connectionParams)
    (defaults : gmap string string) (vs : list bool) (connString : string)
    : string :=
  match vs with
  | [] => connString
  | v :: vs' =>
      let connString := newPostgresConnectionString connParams defaults v in
      if Connects h connString then connString
      else chosenConnString h connParams defaults vs' connString
  end.

Definition postgresService (listenPort : Z) (connString : string) : Service :=
  {| ServiceID := model.ServiceTypePostgresql +:+ ":" +:+ strconv.Itoa listenPort;
     ConnSettings := {| ServiceType := model.ServiceTypePostgresql;
                        Conninfo := connString |};
     Collector := None;
     TotalErrors := 0 |}.

Definition pgbouncerService (listenPort : Z) (connString : string) : Service :=
  {| ServiceID := model.ServiceTypePgbouncer +:+ ":" +:+ strconv.Itoa listenPort;
     ConnSettings := {| ServiceType := model.ServiceTypePgbouncer;
                        Conninfo := connString |};
     Collector := None;
     TotalErrors := 0 |}.

(** What [discoverPostgres] returns. *)
Definition foundPostgres (h : Host) (proc : Process) (config : Config)
    : result Service :=
  andThen (locatePostgres h (CmdlineSlice proc)) (fun connParams =>
  Ok (postgresService (listenPort connParams)
        (chosenConnString h connParams (ConnDefaults config) [true; false] ""))).

(** The pooler locator, as [discoverPgbouncer] runs it. *)
Definition locatePgbouncer (h : Host) (cmdline : result string)
    : result connectionParams :=
  andThen cmdline (fun cmdline =>
  if bool_decide (cmdline = "") then Err ErrEmptyCmdline
  else
    andThen (parsePgbouncerCmdline cmdline) (fun configFilePath =>
    parsePgbouncerIniFile h configFilePath)).

(** What [discoverPgbouncer] returns. *)
Definition foundPgbouncer (h : Host) (proc : Process) (config : Config)
    : result Service :=
  andThen (locatePgbouncer h (Cmdline proc)) (fun connParams =>
  let connString :=
    newPgbouncerConnectionString connParams (ConnDefaults config) in
  if Connects h connString
  then Ok (pgbouncerService (listenPort connParams) connString)
  else Err (ErrConnect connString)).

(** What the body of the loop of [lookupServices] finds for one pid: a
    candidate, nothing, or a panic. *)
Definition candidateOf (h : Host) (config : Config) (p : Z)
    : result (option Service) :=
  match NewProcess h p with
  | Panic => Panic
  | Err _ => Ok None
  | Ok proc =>
      match Name proc with
      | Panic => Panic
      | Err _ => Ok None
      | Ok name =>
          let found :=
            if bool_decide (name = "postgres") then
              if bool_decide (Ppid proc = 1)
              then Some (foundPostgres h proc config) else None
            else if bool_decide (name = "pgbouncer") then
              Some (foundPgbouncer h proc config)
            else None in
          match found with
          | Some (Ok candidate) => Ok (Some candidate)
          | Some Panic => Panic
          | _ => Ok None
          end
      end
  end.

(** The candidates of a pass, in the order of the pids, up to a panic. *)
Fixpoint candidates (h : Host) (config : Config) (pids : list Z)
    : list Service :=
  match pids with
  | [] => []
  | p :: pids' =>
      match candidateOf h config p with
      | Ok (Some candidate) => candidate :: candidates h config pids'
      | Ok None => candidates h config pids'
      | _ => []
      end
  end.

Definition discovered (h : Host) (config : Config) : list Service :=
  match Pids h with
  | Ok pids => candidates h config pids
  | _ => []
  end.

(** [testAndAdd] on the map alone. *)
Definition testAndAddMap (candidate : Service)
    (m : gmap string Service) : gmap string Service :=
  if bool_decide (ServiceID (getService (ServiceID candidate) m)
                  = ServiceID candidate)
  then m
  else addService (ServiceID candidate) candidate m.

(** The candidate is "already in the repository". *)
Definition settled (candidate : Service) (m : gmap string Service) : Prop :=
  ServiceID (getService (ServiceID candidate) m) = ServiceID candidate.

(** The candidates of a pass going through [testAndAdd] one after the other. *)
Definition addAll (cs : list Service) (m : gmap string Service)
    : gmap string Service :=
  foldl (fun m c => testAndAddMap c m) m cs.

(** The repository part of the state: everything but the trace. *)
Definition sameRepo (st st' : State) : Prop :=
  Services st' = Services st /\ Registerer st' = Registerer st /\
  nextRef st' = nextRef st.

(** A computation that leaves the repository alone and whose result [r]
    does not depend on the state. *)
Definition findsOnly {A} (m : M A) (r : result A) : Prop :=
  forall st, snd (m st) = r /\ sameRepo st (fst (m st)).

(** Where a discovered record comes from: a process of the host whose
    metadata the locator read, with the listen port of the metadata in the
    identifier. *)
Definition discoveredFrom (h : Host) (config : Config) (s : Service) : Prop :=
  exists (p : Z) (proc : Process) (connParams : connectionParams),
    NewProcess h p = Ok proc /\
    ((Name proc = Ok "postgres" /\ Ppid proc = 1 /\
      locatePostgres h (CmdlineSlice proc) = Ok connParams /\
      s = postgresService (listenPort connParams)
            (chosenConnString h connParams (ConnDefaults config) [true; false] ""))
     \/
     (Name proc = Ok "pgbouncer" /\
      locatePgbouncer h (Cmdline proc) = Ok connParams /\
      Connects h (newPgbouncerConnectionString connParams (ConnDefaults config)) = true /\
      s = pgbouncerService (listenPort connParams)
            (newPgbouncerConnectionString connParams (ConnDefaults config)))).

(** ** Invariants of the repository *)

(** How many times the byte [c] occurs in [s]. *)
Fixpoint countByte (c : ascii) (s : string) : nat :=
  match s with
  | EmptyString => O
  | String a s' => (if bool_decide (a = c) then 1 else 0) + countByte c s'
  end.

(** A record counts as the same service when only its collector differs. *)
Definition sameService (s s' : Service) : Prop :=
  ServiceID s' = ServiceID s /\ ConnSettings s' = ConnSettings s /\
  TotalErrors s' = TotalErrors s.

(** Two readings of a key that agree up to the collector. *)
Definition sameEntry (o o' : option Service) : Prop :=
  match o, o' with
  | Some s, Some s' => sameService s s'
  | None, None => True
  | _, _ => False
  end.

(** The pseudo-service is in the repository, as it was added. *)
Definition systemKept (st : State) : Prop :=
  exists s, Services st !! "system:0" = Some s /\ sameService systemService s.

(** Every record is stored under its own identifier, or under a key with
    a host in it, which has two colons, as [addServicesFromConfig] makes
    them. *)
Definition keyedByID (st : State) : Prop :=
  forall id s, Services st !! id = Some s ->
    ServiceID s = id \/ (2 <= countByte ":"%char id)%nat.

(** Every failure counter is below the threshold. *)
Definition boundedErrors (st : State) : Prop :=
  forall id s, Services st !! id = Some s ->
    0 <= TotalErrors s <= errorThreshold - 1.

(** ** Scenarios *)

Definition nl : string := String bufio.LF EmptyString.

(** The [postmaster.pid] of scenario S1. *)
Definition pidFileS1 : string :=
  "42" +:+ nl +:+ "/var/lib/pg" +:+ nl +:+ "1700000000" +:+ nl +:+
  "5432" +:+ nl +:+ "/tmp" +:+ nl +:+ "*" +:+ nl.

(** The relational engine of scenario S1: pid 42, parent 1. *)
Definition procS1 : Process :=
  {| Pid := 42; Name := Ok "postgres"; Ppid := 1;
     CmdlineSlice := Ok ["/usr/bin/postgres"; "-D"; "/var/lib/pg"];
     Cmdline := Ok "/usr/bin/postgres -D /var/lib/pg" |}.

(** The host of scenario S1; [up] says whether the engine takes
    connections, [pidFile] is the content of its [postmaster.pid]. *)
Definition hostWith (up : bool) (pidFile : string) : Host :=
  {| Pids := Ok [1; 42];
     NewProcess := fun p =>
       if bool_decide (p = 42) then Ok procS1 else Err (ErrProcess p);
     ReadFile := fun path =>
       if bool_decide (path = "/var/lib/pg/postmaster.pid") then Some pidFile
       else None;
     Connects := fun _ => up;
     ParseConfig := fun _ => Some ("127.0.0.1", 5432);
     PostgresServiceConfigOk := fun _ => true;
     PgscvCollectorOk := fun _ => true;
     RegisterOk := fun _ _ => true |}.

Definition hostS1 (up : bool) : Host := hostWith up pidFileS1.

Definition configS1 : Config :=
  {| NoTrackMode := false; ConnDefaults := ∅; ConfigConnSettings := None;
     DisabledCollectors := [] |}.

(** The record discovery makes of the engine of S1 when it is reachable
    over its unix socket. *)
Definition serviceS1 : Service :=
  {| ServiceID := "postgres:5432";
     ConnSettings :=
       {| ServiceType := "postgres";
          Conninfo :=
            "application_name=pgscv host=/tmp port=5432 user=pgscv dbname=postgres" |};
     Collector := None;
     TotalErrors := 0 |}.

(** A repository that holds the engine of S1 after three failed checks. *)
Definition stateThreeFailures : State :=
  {| Services :=
       {[ "system:0" := systemService;
          "postgres:5432" := withTotalErrors 3 serviceS1 ]};
     Registerer := ∅; nextRef := O; trace := [] |}.

(** A configuration with a push URL and no API key (scenario S6). *)
Definition configS6 : pgscv.Config unit :=
  {| pgscv.BinaryPath := ""; pgscv.BinaryVersion := "";
     pgscv.AutoUpdate := false; pgscv.NoTrackMode := false;
     pgscv.ListenAddress := "";
     pgscv.SendMetricsURL := "https://push.example.org";
     pgscv.SendMetricsInterval := 0; pgscv.APIKey := "";
     pgscv.ServicesConnSettings := None; pgscv.Defaults := Some ∅;
     pgscv.ConfigFilters := None; pgscv.DisableCollectors := [] |}.

(** The same without a push URL. *)
Definition configPull : pgscv.Config unit :=
  {| pgscv.BinaryPath := ""; pgscv.BinaryVersion := "";
     pgscv.AutoUpdate := false; pgscv.NoTrackMode := false;
     pgscv.ListenAddress := "";
     pgscv.SendMetricsURL := "";
     pgscv.SendMetricsInterval := 0; pgscv.APIKey := "";
     pgscv.ServicesConnSettings := None; pgscv.Defaults := Some ∅;
     pgscv.ConfigFilters := None; pgscv.DisableCollectors := [] |}.

Definition flagsRun : pgscv.Flags :=
  {| pgscv.showVersion := false; pgscv.configFile := "/etc/pgscv.yaml";
     pgscv.doBootstrap := false; pgscv.doUninstall := false |}.

(** Scenario S1: the repository after the first discovery pass, with the
    engine up. *)
Definition stateS1 : State :=
  fst (lookupServices (hostS1 true) configS1 (startDiscovery NewRepository)).

Definition idsS1 : list string := ["system:0"; "postgres:5432"].

(** Scenario S3: the engine is down; one turn of the loop, and nine. *)
Definition turnDown : list op :=
  [Lookup (hostS1 false); Setup (hostS1 false) idsS1; Health (hostS1 false) idsS1].

Definition opsS3 : list op := concat (replicate 9 turnDown).

(** A configuration that names the engine of S1 as a service, the
    repository the supervisor starts with under it, and nine turns of the
    loop with the engine down. *)
Definition configRemote : Config :=
  {| NoTrackMode := false; ConnDefaults := ∅;
     ConfigConnSettings :=
       Some [{| ServiceType := "postgres";
                Conninfo := "host=127.0.0.1 port=5432 user=pgscv" |}];
     DisabledCollectors := [] |}.

Definition stateRemote : State :=
  addServicesFromConfig (hostS1 true) configRemote NewRepository.

Definition idsRemote : list string := ["system:0"; "postgres:127.0.0.1:5432"].

Definition turnDownRemote : list op :=
  [Lookup (hostS1 false); Setup (hostS1 false) idsRemote;
   Health (hostS1 false) idsRemote].

Definition opsRemote : list op := concat (replicate 9 turnDownRemote).

(** A [postmaster.pid] cut short after its second line. *)
Definition pidFileShort : string := "42" +:+ nl +:+ "/var/lib/pg" +:+ nl.

(** Scenario S5: a pooler whose ini file sets two listen addresses and a
    port. *)
Definition iniFileS5 : string :=
  "; pooler" +:+ nl +:+ "listen_addr = *, 10.0.0.1" +:+ nl +:+
  "listen_port = 16432" +:+ nl.

Definition procS5 : Process :=
  {| Pid := 77; Name := Ok "pgbouncer"; Ppid := 1;
     CmdlineSlice := Ok ["/usr/sbin/pgbouncer"; "-d"; "/etc/pgbouncer.ini"];
     Cmdline := Ok "/usr/sbin/pgbouncer -d /etc/pgbouncer.ini" |}.

Definition hostS5 (up : bool) : Host :=
  {| Pids := Ok [77];
     NewProcess := fun p =>
       if bool_decide (p = 77) then Ok procS5 else Err (ErrProcess p);
     ReadFile := fun path =>
       if bool_decide (path = "/etc/pgbouncer.ini") then Some iniFileS5
       else None;
     Connects := fun _ => up;
     ParseConfig := fun _ => None;
     PostgresServiceConfigOk := fun _ => true;
     PgscvCollectorOk := fun _ => true;
     RegisterOk := fun _ _ => true |}.

(** A [postmaster.pid] whose listen port is not a number. *)
Definition pidFileBadPort : string :=
  "42" +:+ nl +:+ "/var/lib/pg" +:+ nl +:+ "1700000000" +:+ nl +:+
  "five" +:+ nl +:+ "/tmp" +:+ nl +:+ "*" +:+ nl.

(** * More of the code

    What the properties at the end of the file need of the rest of the
    sources. *)

(** ** Package service: what is left of it *)

(** All the lines [Scan] hands out until it returns false. *)
Fixpoint scanLinesFuel (fuel : nat) (r : string) : list string :=
  match fuel with
  | O => []
  | S fuel' =>
      match scanner.Scan r with
      | None => []
      | Some (line, r') => line :: scanLinesFuel fuel' r'
      end
  end.

Definition scanLines (r : string) : list string :=
  scanLinesFuel (S (String.length r)) r.

(** What the loop of [parsePgbouncerIniFile] takes from one line: nothing
    from a comment, an empty line or a line that has not exactly one "="
    once its spaces are removed; the name and the value otherwise. *)
Definition iniSetting (line : string) : option (string * string) :=
  if strings.HasPrefix line ";" || strings.HasPrefix line "#"
     || bool_decide (line = "")
  then None
  else
    match strings.Split (strings.removeByte line " "%char) "="%char with
    | [paramName; paramValue] => Some (paramName, paramValue)
    | _ => None
    end.

(** The loop of [parsePgbouncerIniFile] over the lines [Scan] hands out. *)
Fixpoint iniLines (lines : list string)
    (p : connectionParams) : result connectionParams :=
  match lines with
  | [] => Ok p
  | line :: lines' =>
      match iniSetting line with
      | None => iniLines lines' p
      | Some (paramName, paramValue) =>
          andThen (iniParam paramName paramValue p) (iniLines lines')
      end
  end.

(** Some line of the ini file sets [listen_port] to what is not an
    integer. *)
Definition badPortLine (lines : list string) : Prop :=
  exists line value,
    line ∈ lines /\ iniSetting line = Some ("listen_port", value) /\
    notInteger value.

(** Every byte of [s] is white space. *)
Fixpoint allSpace (s : string) : bool :=
  match s with
  | EmptyString => true
  | String c s' => strings.isSpace c && allSpace s'
  end.

(** The index of the first "-D" of a command line. *)
Fixpoint firstDataDirFlag (args : list string) : option nat :=
  match args with
  | [] => None
  | arg :: rest =>
      if bool_decide (arg = "-D") then Some O
      else option_map S (firstDataDirFlag rest)
  end.

(** The host with another answer of [process.Pids()]. *)
Definition withPids (pids : result (list Z)) (h : Host) : Host :=
  {| Pids := pids; NewProcess := NewProcess h; ReadFile := ReadFile h;
     Connects := Connects h; ParseConfig := ParseConfig h;
     PostgresServiceConfigOk := PostgresServiceConfigOk h;
     PgscvCollectorOk := PgscvCollectorOk h; RegisterOk := RegisterOk h |}.

(** A pooler whose command line is a single space. *)
Definition procBlank : Process :=
  {| Pid := 78; Name := Ok "pgbouncer"; Ppid := 1;
     CmdlineSlice := Ok [" "]; Cmdline := Ok " " |}.

Definition hostBlank : Host :=
  {| Pids := Ok [78];
     NewProcess := fun p =>
       if bool_decide (p = 78) then Ok procBlank else Err (ErrProcess p);
     ReadFile := fun _ => None;
     Connects := fun _ => true;
     ParseConfig := fun _ => None;
     PostgresServiceConfigOk := fun _ => true;
     PgscvCollectorOk := fun _ => true;
     RegisterOk := fun _ _ => true |}.

(** The test connections a discovery makes, and those of a health check. *)
Definition byDiscovery (e : event) : bool :=
  match e with
  | EvConnect (DiscoveryOf _) _ _ => true
  | EvConnect (HealthOf _) _ _ => false
  end.

Definition byHealth (e : event) : bool :=
  match e with
  | EvConnect (HealthOf _) _ _ => true
  | EvConnect (DiscoveryOf _) _ _ => false
  end.

(** The trace of [st'] is the trace of [st] with later events, all of
    kind [P]. *)
Definition traceGrows (P : event -> bool) (st st' : State) : Prop :=
  exists evs, trace st' = evs ++ trace st /\ forallb P evs = true.

(** The record [addServicesFromConfig] makes of a setting. *)
Definition configuredService (cs : ConnSetting) (port : Z) : Service :=
  {| ServiceID := ServiceType cs +:+ ":" +:+ strconv.Itoa port;
     ConnSettings := cs;
     Collector := None;
     TotalErrors := 0 |}.

(** The collectors the records of the repository hold. *)
Definition holdsCollector (m : gmap string Service) (c : CollectorRef) : Prop :=
  exists id s, m !! id = Some s /\ Collector s = Some c.

(** Every collector a record holds is registered and was handed out by the
    model, and no two records hold the same one. *)
Definition collectorsRegistered (st : State) : Prop :=
  (forall id s c,
     Services st !! id = Some s -> Collector s = Some c ->
     c ∈ Registerer st /\ (c < nextRef st)%nat) /\
  (forall id1 id2 s1 s2 c,
     Services st !! id1 = Some s1 -> Services st !! id2 = Some s2 ->
     Collector s1 = Some c -> Collector s2 = Some c -> id1 = id2).

(** Every record is stored under its own identifier. *)
Definition keyedStrictly (st : State) : Prop :=
  forall id s, Services st !! id = Some s -> ServiceID s = id.

(** A record whose type [setupServices] has collectors for. *)
Definition hasFactory (h : Host) (s : Service) : bool :=
  let type := ServiceType (ConnSettings s) in
  bool_decide (type = model.ServiceTypeSystem)
  || (bool_decide (type = model.ServiceTypePostgresql)
      && PostgresServiceConfigOk h (Conninfo (ConnSettings s)))
  || bool_decide (type = model.ServiceTypePgbouncer).

(** A record [setupServices] has work to do on: no collector yet, and a
    type it has collectors for. *)
Definition wantsCollector (h : Host) (s : Service) : bool :=
  match Collector s with
  | Some _ => false
  | None => hasFactory h s
  end.

(** What one step of the loop does: nothing, or one collector more on the
    record of [id], which had none. *)
Definition attached (id : string) (st st' : State) : Prop :=
  exists s,
    Services st !! id = Some s /\ Collector s = None /\
    Services st' = <[id := withCollector (Some (nextRef st)) s]> (Services st) /\
    Registerer st' = {[nextRef st]} ∪ Registerer st /\
    nextRef st' = S (nextRef st) /\
    trace st' = trace st.

(** What a whole pass keeps. *)
Definition onlyAttaches (st st' : State) : Prop :=
  dom (Services st') = dom (Services st) /\
  Registerer st ⊆ Registerer st' /\
  (nextRef st <= nextRef st')%nat /\
  trace st' = trace st /\
  (forall id s c,
     Services st !! id = Some s -> Collector s = Some c ->
     Services st' !! id = Some s) /\
  (forall id s',
     Services st' !! id = Some s' ->
     exists s, Services st !! id = Some s /\ sameService s s' /\
               (Collector s' = Collector s \/
                Collector s = None /\ exists c, Collector s' = Some c /\
                  (nextRef st <= c < nextRef st')%nat /\ c ∈ Registerer st')).

(** Every collector of the registerer is held by a record. *)
Definition noLeak (st : State) : Prop :=
  forall c, c ∈ Registerer st -> holdsCollector (Services st) c.

(** The collector that the health check of [id] unregisters: that of the
    record, when the check removes it. *)
Definition evictedBy (h : Host) (id : string)
    (m : gmap string Service) : gset CollectorRef :=
  match healthRecord h (getService id m), Collector (getService id m) with
  | None, Some c => {[c]}
  | _, _ => ∅
  end.

(** The test connection that the health check of [id] makes. *)
Definition healthEvents (h : Host) (id : string)
    (m : gmap string Service) : list event :=
  let s := getService id m in
  if isRemote s
  then [EvConnect (HealthOf id) (Conninfo (ConnSettings s))
          (Connects h (Conninfo (ConnSettings s)))]
  else [].

(** The same repository, with the same test connections made, in whatever
    order. *)
Definition sameUpToOrder (st st' : State) : Prop :=
  sameRepo st st' /\ trace st ≡ₚ trace st'.

(** ** Package pgscv: loading the configuration *)

Section NewConfig.

Variable Filters : Type.

(** [yaml.Unmarshal(content, &config)]: the configuration with the options
    of the file read into it, or the error of the decoder. *)
Variable yamlUnmarshal :
  string -> pgscv.Config Filters -> result (pgscv.Config Filters).

(** [Config{Defaults: map[string]string{}}]. *)
Definition emptyConfig : pgscv.Config Filters :=
  {| pgscv.BinaryPath := ""; pgscv.BinaryVersion := "";
     pgscv.AutoUpdate := false; pgscv.NoTrackMode := false;
     pgscv.ListenAddress := ""; pgscv.SendMetricsURL := "";
     pgscv.SendMetricsInterval := 0; pgscv.APIKey := "";
     pgscv.ServicesConnSettings := None; pgscv.Defaults := Some ∅;
     pgscv.ConfigFilters := None; pgscv.DisableCollectors := [] |}.

(** [NewConfig]. *)
Definition NewConfig (h : Host) (configFilePath : string)
    : result (pgscv.Config Filters) :=
  if bool_decide (configFilePath = "") then Ok emptyConfig
  else
    match ReadFile h configFilePath with
    | None => Err (ErrReadFile configFilePath)
    | Some content => yamlUnmarshal content emptyConfig
    end.

End NewConfig.

(** ** Package collector: the CPU collector *)

Section CPU.

(** [float64] and the operations the collector uses on it: the constant 0,
    [<], [>=] and [+]. *)
Variable F : Type.
Variable F0 : F.
Variable Flt : F -> F -> bool.
Variable Fge : F -> F -> bool.
Variable Fadd : F -> F -> F.

(** [procfs.CPUStat]. *)
Record CPUStat := {
  User : F;
  Nice : F;
  System : F;
  Idle : F;
  Iowait : F;
  IRQ : F;
  SoftIRQ : F;
  Steal : F;
  Guest : F;
  GuestNice : F;
}.

(** [procfs.CPUStat{}]. *)
Definition zeroCPUStat : CPUStat :=
  {| User := F0; Nice := F0; System := F0; Idle := F0; Iowait := F0;
     IRQ := F0; SoftIRQ := F0; Steal := F0; Guest := F0; GuestNice := F0 |}.

(** The fields of [cpuCollector] that [updateCPUStats] works on. *)
Record cpuCollector := {
  cpuStats : list CPUStat;
  cpuStatsSum : CPUStat;
}.

(** [if n.X >= c.X { c.X = n.X }]: the cached counter follows the new one
    when that is not below it. *)
Definition keepUp (new cached : F) : F :=
  if Fge new cached then new else cached.

(** The body of the first loop of [updateCPUStats] on the cached stats
    [c] of one CPU and its new stats [n]. *)
Definition updateOne (n c : CPUStat) : CPUStat :=
  let c := if Flt (Idle n) (Idle c) then zeroCPUStat else c in
  {| User := keepUp (User n) (User c);
     Nice := keepUp (Nice n) (Nice c);
     System := keepUp (System n) (System c);
     Idle := Idle n;
     Iowait := keepUp (Iowait n) (Iowait c);
     IRQ := keepUp (IRQ n) (IRQ c);
     SoftIRQ := keepUp (SoftIRQ n) (SoftIRQ c);
     Steal := keepUp (Steal n) (Steal c);
     Guest := keepUp (Guest n) (Guest c);
     GuestNice := keepUp (GuestNice n) (GuestNice c) |}.

(** The first loop of [updateCPUStats], from index [i] on: [c.cpuStats[i]]
    is read and written; an index outside the cache is a run-time panic. *)
Fixpoint updateCache (i : nat) (newStats : list CPUStat)
    (cache : list CPUStat) : result (list CPUStat) :=
  match newStats with
  | [] => Ok cache
  | n :: newStats' =>
      match cache !! i with
      | None => Panic
      | Some c => updateCache (S i) newStats' (<[i := updateOne n c]> cache)
      end
  end.

(** The cache the loop of [updateCPUStats] starts from: made anew when the
    number of CPUs changed. *)
Definition startCache (newStats : list CPUStat) (c : cpuCollector)
    : list CPUStat :=
  if bool_decide (List.length (cpuStats c) = List.length newStats)
  then cpuStats c
  else replicate (List.length newStats) zeroCPUStat.

(** The second loop of [updateCPUStats]: the sums over the new stats. *)
Definition addCPUStat (sum n : CPUStat) : CPUStat :=
  {| User := Fadd (User sum) (User n);
     Nice := Fadd (Nice sum) (Nice n);
     System := Fadd (System sum) (System n);
     Idle := Fadd (Idle sum) (Idle n);
     Iowait := Fadd (Iowait sum) (Iowait n);
     IRQ := Fadd (IRQ sum) (IRQ n);
     SoftIRQ := Fadd (SoftIRQ sum) (SoftIRQ n);
     Steal := Fadd (Steal sum) (Steal n);
     Guest := Fadd (Guest sum) (Guest n);
     GuestNice := Fadd (GuestNice sum) (GuestNice n) |}.

(** [updateCPUStats]. *)
Definition updateCPUStats (newStats : list CPUStat)
    (c : cpuCollector) : result cpuCollector :=
  let cache :=
    if bool_decide (List.length (cpuStats c) = List.length newStats)
    then cpuStats c
    else replicate (List.length newStats) zeroCPUStat in
  andThen (updateCache 0 newStats cache) (fun cache' =>
  Ok {| cpuStats := cache';
        cpuStatsSum := foldl addCPUStat zeroCPUStat newStats |}).

(** A sample sent to the channel: the descriptor ([cpu] is
    [node_cpu_seconds_total], [cpuGuest] is [node_cpu_guest_seconds_total]),
    the value and the mode label. *)
Inductive cpuDesc := DescCPU | DescCPUGuest.

Definition sample : Type := cpuDesc * F * string.

(** [updateStat]; [stat] is what [c.fs.Stat()] answers, the per-CPU stats
    or an error. *)
Definition updateStat (stat : result (list CPUStat))
    (c : cpuCollector) : result (cpuCollector * list sample) :=
  andThen stat (fun newStats =>
  andThen (updateCPUStats newStats c) (fun c' =>
  let sum := cpuStatsSum c' in
  Ok (c',
      [(DescCPU, User sum, "user"); (DescCPU, Nice sum, "nice");
       (DescCPU, System sum, "system"); (DescCPU, Idle sum, "idle");
       (DescCPU, Iowait sum, "iowait"); (DescCPU, IRQ sum, "irq");
       (DescCPU, SoftIRQ sum, "softirq"); (DescCPU, Steal sum, "steal");
       (DescCPUGuest, Guest sum, "user");
       (DescCPUGuest, GuestNice sum, "nice")]))).

End CPU.

(** * Properties *)

(** ** Integers and the repository *)

Lemma wrap64_small z : minInt64 <= z <= maxInt64 -> wrap64 z = z.
Proof.
  unfold wrap64, minInt64, maxInt64. intros H.
  rewrite Z.mod_small; lia.
Qed.

Lemma getService_Some (m : gmap string Service) id s :
  m !! id = Some s -> getService id m = s.
Proof. unfold getService. intros ->. reflexivity. Qed.

Lemma getService_None (m : gmap string Service) id :
  m !! id = None -> getService id m = zeroService.
Proof. unfold getService. intros ->. reflexivity. Qed.

(** *** The health check, record by record *)

Lemma healthcheckService_services h id st :
  Services (healthcheckService h id st) =
    match healthRecord h (getService id (Services st)) with
    | Some s' =>
        if isRemote (getService id (Services st))
           && negb (Connects h (Conninfo (ConnSettings (getService id (Services st)))))
        then <[id := s']> (Services st)
        else Services st
    | None => delete id (Services st)
    end.
Proof.
  unfold healthcheckService, healthRecord, isRemote, attemptConnect,
    getServiceStatus, markServiceFailed, removeService.
  destruct (_ || _); [|reflexivity].
  destruct (Connects h _); simpl; [reflexivity|].
  destruct (_ <? _); simpl; [reflexivity|].
  destruct (Collector _); reflexivity.
Qed.

Lemma healthcheckService_lookup h id st :
  Services (healthcheckService h id st) !! id
  = Services st !! id ≫= healthRecord h.
Proof.
  rewrite healthcheckService_services.
  destruct (Services st !! id) as [s|] eqn:Hs.
  - rewrite (getService_Some _ _ _ Hs). simpl.
    destruct (healthRecord h s) as [s'|] eqn:Hr.
    + destruct (_ && _) eqn:Hc.
      * apply lookup_insert_eq.
      * rewrite Hs. f_equal. unfold healthRecord in Hr.
        destruct (isRemote s); [|congruence].
        destruct (Connects h _); [congruence|discriminate].
    + apply lookup_delete_eq.
  - rewrite (getService_None _ _ Hs). simpl.
    unfold healthRecord, isRemote. simpl. exact Hs.
Qed.

Lemma healthcheckService_lookup_ne h id id' st :
  id <> id' ->
  Services (healthcheckService h id st) !! id' = Services st !! id'.
Proof.
  intros Hne. rewrite healthcheckService_services.
  destruct (healthRecord h _).
  - destruct (_ && _); [apply lookup_insert_ne; exact Hne | reflexivity].
  - apply lookup_delete_ne. exact Hne.
Qed.

Lemma healthcheckServices_cons h id ids st :
  healthcheckServices h (id :: ids) st
  = healthcheckServices h ids (healthcheckService h id st).
Proof. reflexivity. Qed.

Lemma healthcheckServices_lookup_notin h ids : forall st id,
  id ∉ ids ->
  Services (healthcheckServices h ids st) !! id = Services st !! id.
Proof.
  induction ids as [|a ids IH]; intros st id Hn; [reflexivity|].
  apply not_elem_of_cons in Hn as [Hne Hn].
  rewrite healthcheckServices_cons, IH by exact Hn.
  apply healthcheckService_lookup_ne. congruence.
Qed.

Lemma healthcheckServices_lookup_in h ids : forall st id,
  NoDup ids -> id ∈ ids ->
  Services (healthcheckServices h ids st) !! id
  = Services st !! id ≫= healthRecord h.
Proof.
  induction ids as [|a ids IH]; intros st id Hnd Hin;
    [by apply elem_of_nil in Hin|].
  apply NoDup_cons in Hnd as [Ha Hnd].
  rewrite healthcheckServices_cons.
  apply elem_of_cons in Hin as [->|Hin].
  - rewrite healthcheckServices_lookup_notin by exact Ha.
    apply healthcheckService_lookup.
  - assert (a <> id) by (intros ->; contradiction).
    rewrite IH by assumption.
    rewrite healthcheckService_lookup_ne by assumption. reflexivity.
Qed.

(** The registerer only loses collectors in a health check. *)
Lemma healthcheckService_registerer h id st :
  Registerer (healthcheckService h id st) ⊆ Registerer st.
Proof.
  unfold healthcheckService, attemptConnect.
  destruct (_ || _); [|reflexivity].
  destruct (Connects h _); simpl; [reflexivity|].
  destruct (_ <? _); simpl; [reflexivity|].
  destruct (Collector _); simpl; [apply subseteq_difference_l|]; reflexivity.
Qed.

Lemma healthcheckServices_registerer h ids : forall st,
  Registerer (healthcheckServices h ids st) ⊆ Registerer st.
Proof.
  induction ids as [|a ids IH]; intros st; [reflexivity|].
  rewrite healthcheckServices_cons. etrans; [apply IH|].
  apply healthcheckService_registerer.
Qed.

Lemma healthcheckService_unregisters h id st s c :
  Services st !! id = Some s ->
  healthRecord h s = None ->
  Collector s = Some c ->
  c ∉ Registerer (healthcheckService h id st).
Proof.
  intros Hs Hr Hc. unfold healthcheckService, attemptConnect, getServiceStatus.
  simpl. rewrite (getService_Some _ _ _ Hs).
  unfold healthRecord, isRemote in Hr.
  destruct (_ || _); [|discriminate].
  destruct (Connects h _); [discriminate|]. simpl.
  destruct (_ <? _); [discriminate|].
  rewrite Hc. simpl. rewrite elem_of_difference, elem_of_singleton.
  intros [_ Hneq]. by apply Hneq.
Qed.

Lemma healthcheckServices_unregisters h ids : forall st id s c,
  id ∈ ids ->
  Services st !! id = Some s ->
  healthRecord h s = None ->
  Collector s = Some c ->
  c ∉ Registerer (healthcheckServices h ids st).
Proof.
  induction ids as [|a ids IH]; intros st id s c Hin Hs Hr Hc;
    [by apply elem_of_nil in Hin|].
  rewrite healthcheckServices_cons.
  destruct (decide (id = a)) as [->|Hne].
  - intros Hc'. apply healthcheckServices_registerer in Hc'.
    revert Hc'. eapply healthcheckService_unregisters; eassumption.
  - apply elem_of_cons in Hin as [->|Hin]; [done|].
    apply (IH _ id s c); [exact Hin | | exact Hr | exact Hc].
    rewrite healthcheckService_lookup_ne by congruence. exact Hs.
Qed.

(** Closed decidable facts about the scenarios, by evaluation. *)
Ltac by_evaluation :=
  lazymatch goal with
  | |- ?P => apply (bool_decide_unpack P); vm_compute; exact I
  end.

(** *** Reading lines *)

Lemma length_take n : forall s,
  String.length (bufio.take n s) = Nat.min n (String.length s).
Proof.
  induction n as [|n IH]; intros [|c s]; simpl; try reflexivity.
  by rewrite IH.
Qed.

Lemma length_drop n : forall s,
  String.length (bufio.drop n s) = (String.length s - n)%nat.
Proof.
  induction n as [|n IH]; intros [|c s]; simpl; try reflexivity. apply IH.
Qed.

Lemma take_app_length l : forall n rest,
  n = String.length l -> bufio.take n (l +:+ rest) = l.
Proof.
  induction l as [|c l IH]; intros n rest ->; simpl.
  - by destruct rest.
  - by rewrite IH.
Qed.

Lemma drop_app_length l : forall n rest,
  n = String.length l -> bufio.drop n (l +:+ rest) = rest.
Proof.
  induction l as [|c l IH]; intros n rest ->; simpl; [reflexivity|].
  by apply IH.
Qed.

Lemma take_all n : forall s,
  (String.length s <= n)%nat -> bufio.take n s = s.
Proof.
  induction n as [|n IH]; intros [|c s] H; simpl in *; try reflexivity; [lia|].
  rewrite IH by lia. reflexivity.
Qed.

(** The first line feed of [l ++ LF ++ rest] is right after [l], when [l]
    has none and the window is wide enough. *)
Lemma IndexByte_take_line l : forall n rest,
  bufio.IndexByte l bufio.LF = None ->
  (String.length l < n)%nat ->
  bufio.IndexByte (bufio.take n (l +:+ String bufio.LF rest)) bufio.LF
  = Some (String.length l).
Proof.
  induction l as [|c l IH]; intros n rest Hno Hlen; simpl in *.
  - destruct n; [lia|]. reflexivity.
  - destruct n; [lia|]. simpl. case_bool_decide; [discriminate|].
    destruct (bufio.IndexByte l bufio.LF) eqn:Hl; [discriminate|].
    rewrite (IH n rest eq_refl) by lia. reflexivity.
Qed.

Lemma IndexByte_take_none l n :
  bufio.IndexByte l bufio.LF = None ->
  bufio.IndexByte (bufio.take n l) bufio.LF = None.
Proof.
  revert n. induction l as [|c l IH]; intros [|n] Hno; simpl in *;
    try reflexivity.
  case_bool_decide; [discriminate|].
  destruct (bufio.IndexByte l bufio.LF) eqn:Hl; [discriminate|].
  by rewrite IH.
Qed.

Lemma dropCR_plain l : bufio.last l <> Some bufio.CR -> bufio.dropCR l = l.
Proof.
  intros H. unfold bufio.dropCR. by rewrite bool_decide_eq_false_2.
Qed.

(** [ReadLine] on a plain line that ends with a line feed. *)
Lemma ReadLine_line l rest :
  plainLine l ->
  bufio.ReadLine (l +:+ String bufio.LF rest) = Some (l, rest).
Proof.
  intros (Hno & Hcr & Hlen). unfold bufio.ReadLine.
  rewrite IndexByte_take_line by assumption.
  rewrite take_app_length by reflexivity. rewrite dropCR_plain by exact Hcr.
  replace (bufio.drop (S (String.length l)) (l +:+ String bufio.LF rest))
    with rest.
  - by destruct l.
  - change (S (String.length l)) with (1 + String.length l)%nat.
    clear. induction l as [|c l IH]; simpl; [reflexivity | exact IH].
Qed.

(** [ReadLine] on a plain last line that has no line feed. *)
Lemma ReadLine_last l :
  plainLine l -> l <> "" -> bufio.ReadLine l = Some (l, "").
Proof.
  intros (Hno & Hcr & Hlen) Hne. unfold bufio.ReadLine.
  rewrite IndexByte_take_none by exact Hno.
  destruct l as [|c l]; [done|].
  destruct (bufio.defaultBufSize <=? _)%nat eqn:Hle; [|reflexivity].
  apply Nat.leb_le in Hle. lia.
Qed.

(** Every [ReadLine] takes at least one byte. *)
Lemma ReadLine_shorter r line r' :
  bufio.ReadLine r = Some (line, r') ->
  (String.length r' < String.length r)%nat.
Proof.
  unfold bufio.ReadLine. destruct r as [|c r]; [discriminate|].
  set (s := String c r). assert (Hpos : (0 < String.length s)%nat) by (simpl; lia).
  clearbody s. destruct (bufio.IndexByte _ _) as [i|].
  - remember (bufio.drop (S i) s) as d eqn:Hd.
    intros [= _ <-]. subst d. rewrite length_drop. lia.
  - destruct (bufio.defaultBufSize <=? String.length s)%nat eqn:Hle.
    + apply Nat.leb_le in Hle.
      remember (bufio.drop (bufio.defaultBufSize - 1) s) as d1 eqn:Hd1.
      remember (bufio.drop bufio.defaultBufSize s) as d2 eqn:Hd2.
      destruct (bool_decide _); intros [= _ <-]; subst;
        rewrite length_drop; unfold bufio.defaultBufSize in *; lia.
    + intros [= <- <-]. simpl. lia.
Qed.

(** Fuel beyond the length of the input is never used. *)
Lemma readLinesFuel_any fuel1 : forall fuel2 r,
  (String.length r < fuel1)%nat -> (String.length r < fuel2)%nat ->
  bufio.readLinesFuel fuel1 r = bufio.readLinesFuel fuel2 r.
Proof.
  induction fuel1 as [|fuel1 IH]; intros [|fuel2] r H1 H2; try lia. simpl.
  destruct (bufio.ReadLine r) as [[line r']|] eqn:Hr; [|reflexivity].
  pose proof (ReadLine_shorter _ _ _ Hr) as Hs. f_equal. apply IH; lia.
Qed.

Lemma readLines_step r :
  bufio.readLines r =
    match bufio.ReadLine r with
    | None => []
    | Some (line, r') => line :: bufio.readLines r'
    end.
Proof.
  unfold bufio.readLines at 1. simpl.
  destruct (bufio.ReadLine r) as [[line r']|] eqn:Hr; [|reflexivity].
  pose proof (ReadLine_shorter _ _ _ Hr) as Hs. f_equal.
  apply readLinesFuel_any; lia.
Qed.

Lemma readLines_line l rest :
  plainLine l ->
  bufio.readLines (l +:+ String bufio.LF rest) = l :: bufio.readLines rest.
Proof. intros H. by rewrite readLines_step, ReadLine_line. Qed.

Lemma readLines_last l :
  plainLine l -> bufio.readLines l = if bool_decide (l = "") then [] else [l].
Proof.
  intros H. case_bool_decide as Hl; [by subst l|].
  by rewrite readLines_step, ReadLine_last.
Qed.

(** The loop of [newPostgresConnectionParams] is [pidFileLines] over the
    lines of the content, whatever fuel it has beyond the length. *)
Lemma pidFileLoop_lines fuel : forall i r p,
  (String.length r < fuel)%nat ->
  pidFileLoop fuel i r p = pidFileLines i (bufio.readLines r) p.
Proof.
  induction fuel as [|fuel IH]; intros i r p Hlen; [lia|]. simpl.
  rewrite readLines_step.
  destruct (bufio.ReadLine r) as [[line r']|] eqn:Hr; [|reflexivity].
  pose proof (ReadLine_shorter _ _ _ Hr) as Hs. simpl.
  destruct (pidFileLine i line p); simpl; [|reflexivity..].
  apply IH. lia.
Qed.

Lemma newPostgresConnectionParams_lines h path content :
  ReadFile h path = Some content ->
  newPostgresConnectionParams h path
  = pidFileLines 0 (bufio.readLines content) zeroParams.
Proof.
  intros Hf. unfold newPostgresConnectionParams. rewrite Hf.
  apply pidFileLoop_lines. lia.
Qed.

(** Past the sixth line nothing is read into the parameters. *)
Lemma pidFileLines_done lines : forall i p,
  (6 <= i)%nat -> pidFileLines i lines p = Ok p.
Proof.
  induction lines as [|l lines IH]; intros i p Hi; [reflexivity|]. simpl.
  do 6 (destruct i as [|i]; [lia|]). simpl. apply IH. lia.
Qed.

(** *** The engine locator *)

(** An integer or not: what [Atoi] and [ParseInt] make of a line. *)
Lemma Atoi_cases line :
  (exists v, strconv.Atoi line = Ok v /\ strconv.parseInt line = inl v) \/
  (exists e, strconv.Atoi line = Err e /\ notInteger line).
Proof.
  unfold strconv.Atoi, notInteger.
  destruct (strconv.parseInt line) as [v|k]; [left | right]; eauto.
Qed.

Lemma ParseInt_cases line :
  (exists v, strconv.ParseInt line = Ok v /\ strconv.parseInt line = inl v) \/
  (exists e, strconv.ParseInt line = Err e /\ notInteger line).
Proof.
  unfold strconv.ParseInt, notInteger.
  destruct (strconv.parseInt line) as [v|k]; [left | right]; eauto.
Qed.

Lemma notInteger_inl line v : strconv.parseInt line = inl v -> ~ notInteger line.
Proof. intros H [k Hk]. congruence. Qed.

(** One line of the file: an error exactly on a numeric line that is not
    an integer. *)
Lemma pidFileLine_cases i line p :
  (exists p', pidFileLine i line p = Ok p' /\
              ~ (numericLine i /\ notInteger line)) \/
  (exists e, pidFileLine i line p = Err e /\ numericLine i /\ notInteger line).
Proof.
  unfold numericLine.
  destruct i as [|[|[|[|[|[|i]]]]]]; simpl.
  - destruct (Atoi_cases line) as [(v & -> & Hv) | (e & -> & Hn)]; simpl.
    + left. eexists. split; [reflexivity|].
      intros [_ Hn]. by apply (notInteger_inl _ _ Hv).
    + right. exists e. split; [reflexivity|]. split; [lia | exact Hn].
  - left. eexists. split; [reflexivity|]. intros [[|[|]] _]; lia.
  - destruct (ParseInt_cases line) as [(v & -> & Hv) | (e & -> & Hn)]; simpl.
    + left. eexists. split; [reflexivity|].
      intros [_ Hn]. by apply (notInteger_inl _ _ Hv).
    + right. exists e. split; [reflexivity|]. split; [lia | exact Hn].
  - destruct (Atoi_cases line) as [(v & -> & Hv) | (e & -> & Hn)]; simpl.
    + left. eexists. split; [reflexivity|].
      intros [_ Hn]. by apply (notInteger_inl _ _ Hv).
    + right. exists e. split; [reflexivity|]. split; [lia | exact Hn].
  - left. eexists. split; [reflexivity|]. intros [[|[|]] _]; lia.
  - left. eexists. split; [reflexivity|]. intros [[|[|]] _]; lia.
  - left. eexists. split; [reflexivity|]. intros [[|[|]] _]; lia.
Qed.

Lemma badLine_cons i line lines :
  badLine i (line :: lines) <->
  (numericLine i /\ notInteger line) \/ badLine (S i) lines.
Proof.
  unfold badLine. split.
  - intros (k & l & Hl & Hn & Hb). destruct k as [|k]; simpl in Hl.
    + injection Hl as ->. left. by rewrite Nat.add_0_r in Hn.
    + right. exists k, l. by rewrite Nat.add_succ_r in Hn.
  - intros [[Hn Hb] | (k & l & Hl & Hn & Hb)].
    + exists 0%nat, line. by rewrite Nat.add_0_r.
    + exists (S k), l. by rewrite Nat.add_succ_r.
Qed.

Lemma pidFileLines_cases lines : forall i p,
  (exists p', pidFileLines i lines p = Ok p' /\ ~ badLine i lines) \/
  (exists e, pidFileLines i lines p = Err e /\ badLine i lines).
Proof.
  induction lines as [|line lines IH]; intros i p; simpl.
  - left. exists p. split; [reflexivity|].
    intros (k & l & Hl & _). by rewrite lookup_nil in Hl.
  - destruct (pidFileLine_cases i line p) as [(p1 & -> & Hok) | (e & -> & Hbad)];
      simpl.
    + destruct (IH (S i) p1) as [(p' & -> & Hno) | (e & -> & Hb)].
      * left. exists p'. split; [reflexivity|].
        rewrite badLine_cons. tauto.
      * right. exists e. split; [reflexivity|]. rewrite badLine_cons. tauto.
    + right. exists e. split; [reflexivity|]. rewrite badLine_cons. tauto.
Qed.

(** The command line: the data directory is found exactly when some "-D"
    has an argument after it. *)
Lemma parsePostgresProcessCmdline_cases args :
  (exists datadir, parsePostgresProcessCmdline args = Ok datadir /\
                   hasDataDir args) \/
  (parsePostgresProcessCmdline args = Err ErrDataDirNotFound /\
   ~ hasDataDir args).
Proof.
  unfold hasDataDir. induction args as [|arg rest IH]; simpl.
  - right. split; [reflexivity|]. intros (i & Hi & _). by rewrite lookup_nil in Hi.
  - assert (Hshift :
      (exists i, rest !! i = Some "-D" /\ is_Some (rest !! S i)) ->
      exists i, (arg :: rest) !! i = Some "-D" /\ is_Some ((arg :: rest) !! S i)).
    { intros (i & H1 & H2). by exists (S i). }
    assert (Hunshift : arg <> "-D" \/ rest = [] ->
      (exists i, (arg :: rest) !! i = Some "-D" /\ is_Some ((arg :: rest) !! S i)) ->
      exists i, rest !! i = Some "-D" /\ is_Some (rest !! S i)).
    { intros Hc (i & H1 & H2). destruct i as [|i]; [|by exists i].
      simpl in *. injection H1 as ->. destruct Hc as [Hc | ->]; [done|].
      destruct H2 as [x Hx]. by rewrite lookup_nil in Hx. }
    case_bool_decide as Harg.
    + destruct rest as [|next rest'].
      * destruct IH as [(d & Hd & Hh) | [He Hn]]; [left; eauto|].
        right. split; [exact He|]. intros H. apply Hn, Hunshift; auto.
      * left. exists next. split; [reflexivity|].
        exists 0%nat. subst arg. split; [reflexivity | by eexists].
    + destruct IH as [(d & Hd & Hh) | [He Hn]]; [left; eauto|].
      right. split; [exact He|]. intros H. apply Hn, Hunshift; auto.
Qed.

(** A line sets the field of its place and no other. *)
Lemma pidFileLine_fields i line p p' :
  pidFileLine i line p = Ok p' ->
  (i <> 0%nat -> pid p' = pid p) /\
  (i <> 1%nat -> datadirPath p' = datadirPath p) /\
  (i <> 2%nat -> startTs p' = startTs p) /\
  (i <> 3%nat -> listenPort p' = listenPort p) /\
  (i <> 4%nat -> unixSocketDirPath p' = unixSocketDirPath p) /\
  (i <> 5%nat -> listenAddr p' = listenAddr p).
Proof.
  do 6 (destruct i as [|i];
        [simpl;
         try destruct (strconv.Atoi line); try destruct (strconv.ParseInt line);
         simpl; intros [= <-]; repeat split; simpl; congruence|]).
  simpl. intros [= <-]. by repeat split.
Qed.

(** The lines from place [i] on leave alone the fields of the places before
    [i] and of the places the file does not reach. *)
Lemma pidFileLines_fields lines : forall i p p',
  pidFileLines i lines p = Ok p' ->
  ((0 < i \/ i + length lines <= 0)%nat -> pid p' = pid p) /\
  ((1 < i \/ i + length lines <= 1)%nat -> datadirPath p' = datadirPath p) /\
  ((2 < i \/ i + length lines <= 2)%nat -> startTs p' = startTs p) /\
  ((3 < i \/ i + length lines <= 3)%nat -> listenPort p' = listenPort p) /\
  ((4 < i \/ i + length lines <= 4)%nat ->
   unixSocketDirPath p' = unixSocketDirPath p) /\
  ((5 < i \/ i + length lines <= 5)%nat -> listenAddr p' = listenAddr p).
Proof.
  induction lines as [|line lines IH]; intros i p p'; simpl.
  - intros [= <-]. by repeat split.
  - destruct (pidFileLine i line p) as [p1|e|] eqn:H1; simpl; [|discriminate..].
    intros Hrest.
    destruct (pidFileLine_fields _ _ _ _ H1) as (F0 & F1 & F2 & F3 & F4 & F5).
    destruct (IH _ _ _ Hrest) as (G0 & G1 & G2 & G3 & G4 & G5).
    repeat split; intros Hk;
      [rewrite G0, F0 | rewrite G1, F1 | rewrite G2, F2
      | rewrite G3, F3 | rewrite G4, F4 | rewrite G5, F5];
      try reflexivity; lia.
Qed.

(** C7, as the source has it.  The relational engine locator returns an
    error exactly when the command line has no "-D" followed by an argument,
    when [postmaster.pid] cannot be read, or when a numeric line that the
    file has (line 1, 3 or 4) is not an integer; it returns parameters
    otherwise, also for a file of fewer than six lines, and then every field
    whose line the file does not have is the zero value; an error of reading
    the command line is handed on; and an error never comes with
    parameters. *)
Theorem locator_fails_iff (h : Host) (args : list string) :
  ((exists e, locatePostgres h (Ok args) = Err e) <->
   ~ hasDataDir args \/
   exists datadir,
     parsePostgresProcessCmdline args = Ok datadir /\
     (ReadFile h (datadir +:+ "/postmaster.pid") = None \/
      exists content,
        ReadFile h (datadir +:+ "/postmaster.pid") = Some content /\
        badLine 0 (bufio.readLines content))) /\
  ((exists e, locatePostgres h (Ok args) = Err e) \/
   (exists p, locatePostgres h (Ok args) = Ok p)) /\
  (forall datadir content p,
     parsePostgresProcessCmdline args = Ok datadir ->
     ReadFile h (datadir +:+ "/postmaster.pid") = Some content ->
     locatePostgres h (Ok args) = Ok p ->
     let n := List.length (bufio.readLines content) in
     ((n <= 0)%nat -> pid p = 0) /\
     ((n <= 1)%nat -> datadirPath p = "") /\
     ((n <= 2)%nat -> startTs p = 0) /\
     ((n <= 3)%nat -> listenPort p = 0) /\
     ((n <= 4)%nat -> unixSocketDirPath p = "") /\
     ((n <= 5)%nat -> listenAddr p = "")) /\
  (forall e, locatePostgres h (Err e) = Err e) /\
  (forall cmdline e p,
     locatePostgres h cmdline = Err e -> locatePostgres h cmdline <> Ok p).
Proof.
  assert (Hcases :
    (exists e, locatePostgres h (Ok args) = Err e /\
       (~ hasDataDir args \/
        exists datadir,
          parsePostgresProcessCmdline args = Ok datadir /\
          (ReadFile h (datadir +:+ "/postmaster.pid") = None \/
           exists content,
             ReadFile h (datadir +:+ "/postmaster.pid") = Some content /\
             badLine 0 (bufio.readLines content)))) \/
    (exists p, locatePostgres h (Ok args) = Ok p /\
       ~ (~ hasDataDir args \/
          exists datadir,
            parsePostgresProcessCmdline args = Ok datadir /\
            (ReadFile h (datadir +:+ "/postmaster.pid") = None \/
             exists content,
               ReadFile h (datadir +:+ "/postmaster.pid") = Some content /\
               badLine 0 (bufio.readLines content))))).
  { unfold locatePostgres. simpl.
    destruct (parsePostgresProcessCmdline_cases args)
      as [(datadir & Hd & Hhas) | [He Hno]]; rewrite ?Hd, ?He; simpl.
    - destruct (ReadFile h (datadir +:+ "/postmaster.pid")) as [content|] eqn:Hf.
      + rewrite (newPostgresConnectionParams_lines _ _ _ Hf).
        destruct (pidFileLines_cases (bufio.readLines content) 0%nat zeroParams)
          as [(p & -> & Hgood) | (e & -> & Hbad)].
        * right. exists p. split; [reflexivity|].
          intros [Hn | (d & Hd' & [Hnone | (c & Hc & Hb)])]; [done|..].
          -- injection Hd' as <-. congruence.
          -- injection Hd' as <-.
             rewrite Hf in Hc. injection Hc as <-. done.
        * left. exists e. split; [reflexivity|]. right. exists datadir.
          split; [reflexivity|]. right. by exists content.
      + unfold newPostgresConnectionParams. rewrite Hf.
        left. eexists. split; [reflexivity|]. right. exists datadir.
        split; [reflexivity|]. by left.
    - left. eexists. split; [reflexivity|]. by left. }
  split; [|split; [|split; [|split]]].
  - split.
    + intros [e He]. destruct Hcases as [(e' & _ & H) | (p & Hp & _)];
        [exact H | congruence].
    + intros H. destruct Hcases as [(e & He & _) | (p & _ & Hn)];
        [by exists e | contradiction].
  - destruct Hcases as [(e & He & _) | (p & Hp & _)]; eauto.
  - intros datadir content p Hd Hf. unfold locatePostgres. simpl.
    rewrite Hd. simpl. rewrite (newPostgresConnectionParams_lines _ _ _ Hf).
    intros Hp. cbv zeta.
    destruct (pidFileLines_fields _ _ _ _ Hp) as (F0 & F1 & F2 & F3 & F4 & F5).
    repeat split; intros Hn;
      [rewrite F0 | rewrite F1 | rewrite F2 | rewrite F3 | rewrite F4
      | rewrite F5]; try reflexivity; right; simpl; lia.
  - reflexivity.
  - congruence.
Qed.

Lemma locator_fails_iff_witness :
  (exists e,
     locatePostgres (hostWith true pidFileBadPort) (CmdlineSlice procS1) = Err e) /\
  (forall p,
     locatePostgres (hostWith true pidFileShort) (CmdlineSlice procS1) = Ok p ->
     startTs p = 0 /\ listenPort p = 0 /\ unixSocketDirPath p = "" /\
     listenAddr p = "").
Proof.
  split.
  - apply (proj2 (proj1 (locator_fails_iff (hostWith true pidFileBadPort)
                           ["/usr/bin/postgres"; "-D"; "/var/lib/pg"]))).
    right. exists "/var/lib/pg". split; [reflexivity|]. right.
    exists pidFileBadPort. split; [reflexivity|].
    exists 3%nat, "five". split; [vm_compute; reflexivity|].
    split; [right; right; reflexivity|].
    exists ErrSyntax. vm_compute. reflexivity.
  - intros p Hp.
    destruct (locator_fails_iff (hostWith true pidFileShort)
                ["/usr/bin/postgres"; "-D"; "/var/lib/pg"])
      as (_ & _ & Hzero & _).
    destruct (Hzero "/var/lib/pg" pidFileShort p eq_refl eq_refl Hp)
      as (_ & _ & H2 & H3 & H4 & H5).
    assert (Hn : List.length (bufio.readLines pidFileShort) = 2%nat)
      by (vm_compute; reflexivity).
    rewrite Hn in H2, H3, H4, H5.
    repeat split; [apply H2 | apply H3 | apply H4 | apply H5]; lia.
Defined.

(** C7, as the claim has it, fails: a [postmaster.pid] of two lines, four
    fewer than the six, is no error; the locator returns parameters, with
    zero values where lines are absent. *)
Lemma short_pid_file_is_no_error :
  List.length (bufio.readLines pidFileShort) = 2%nat /\
  locatePostgres (hostWith true pidFileShort) (CmdlineSlice procS1)
  = Ok {| pid := 42; datadirPath := "/var/lib/pg"; startTs := 0;
          unixSocketDirPath := ""; listenAddr := ""; listenPort := 0 |} /\
  ~ (forall (h : Host) (args : list string) (datadir content : string),
       parsePostgresProcessCmdline args = Ok datadir ->
       ReadFile h (datadir +:+ "/postmaster.pid") = Some content ->
       (List.length (bufio.readLines content) < 6)%nat ->
       exists e, locatePostgres h (Ok args) = Err e).
Proof.
  split; [vm_compute; reflexivity|]. split; [vm_compute; reflexivity|].
  intros Hclaim.
  destruct (Hclaim (hostWith true pidFileShort)
              ["/usr/bin/postgres"; "-D"; "/var/lib/pg"] "/var/lib/pg"
              pidFileShort) as [e He];
    [reflexivity | reflexivity | vm_compute; lia |].
  vm_compute in He. discriminate.
Qed.

(** *** The six lines of postmaster.pid *)

Lemma nl_app s : nl +:+ s = String bufio.LF s.
Proof. reflexivity. Qed.

Lemma app_empty_r s : s +:+ "" = s.
Proof.
  induction s as [|c s IH]; [reflexivity|].
  change (String c s +:+ "") with (String c (s +:+ "")). by rewrite IH.
Qed.

(** C8. For a [postmaster.pid] of six plain lines (an integer pid, the data
    directory, an integer start timestamp, an integer listen port, the unix
    socket directory, the listen address), ended there or followed by more
    lines, the locator returns the parameters of these lines, with
    127.0.0.1 for a listen address "*". *)
Theorem pid_file_round_trip (h : Host) (pidFilePath : string)
    (l1 l2 l3 l4 l5 l6 tail : string) (pidv tsv portv : Z) :
  plainLine l1 -> plainLine l2 -> plainLine l3 ->
  plainLine l4 -> plainLine l5 -> plainLine l6 ->
  (tail = "" \/ exists rest, tail = nl +:+ rest) ->
  strconv.Atoi l1 = Ok pidv ->
  strconv.ParseInt l3 = Ok tsv ->
  strconv.Atoi l4 = Ok portv ->
  ReadFile h pidFilePath
    = Some (l1 +:+ nl +:+ l2 +:+ nl +:+ l3 +:+ nl +:+
            l4 +:+ nl +:+ l5 +:+ nl +:+ l6 +:+ tail) ->
  newPostgresConnectionParams h pidFilePath
  = Ok {| pid := pidv; datadirPath := l2; startTs := tsv;
          unixSocketDirPath := l5;
          listenAddr := if bool_decide (l6 = "*") then "127.0.0.1" else l6;
          listenPort := portv |}.
Proof.
  intros H1 H2 H3 H4 H5 H6 Htail Hpid Hts Hport Hfile.
  rewrite (newPostgresConnectionParams_lines _ _ _ Hfile).
  rewrite !nl_app, !readLines_line by assumption.
  destruct Htail as [-> | [rest ->]].
  - rewrite app_empty_r, readLines_last by assumption.
    simpl. rewrite Hpid. simpl. rewrite Hts. simpl. rewrite Hport. simpl.
    case_bool_decide as Hl6; [by subst l6|]. reflexivity.
  - rewrite nl_app, readLines_line by assumption.
    simpl. rewrite Hpid. simpl. rewrite Hts. simpl. rewrite Hport. simpl.
    apply pidFileLines_done. lia.
Qed.

Lemma pid_file_round_trip_witness :
  newPostgresConnectionParams (hostS1 true) "/var/lib/pg/postmaster.pid"
  = Ok {| pid := 42; datadirPath := "/var/lib/pg"; startTs := 1700000000;
          unixSocketDirPath := "/tmp"; listenAddr := "127.0.0.1";
          listenPort := 5432 |}.
Proof.
  apply (pid_file_round_trip (hostS1 true) "/var/lib/pg/postmaster.pid"
           "42" "/var/lib/pg" "1700000000" "5432" "/tmp" "*" nl
           42 1700000000 5432);
    try (unfold plainLine; by_evaluation); try reflexivity.
  right. exists "". reflexivity.
Defined.

(** *** The discovery pass, candidate by candidate *)

Lemma sameRepo_refl st : sameRepo st st.
Proof. repeat split. Qed.

Lemma sameRepo_trans st1 st2 st3 :
  sameRepo st1 st2 -> sameRepo st2 st3 -> sameRepo st1 st3.
Proof. unfold sameRepo. intros (-> & -> & ->) (-> & -> & ->). repeat split. Qed.

#[local] Hint Resolve sameRepo_refl : core.

Lemma findsOnly_lift {A} (r : result A) : findsOnly (lift r) r.
Proof. intros st. split; [reflexivity | apply sameRepo_refl]. Qed.

Lemma findsOnly_ret {A} (a : A) : findsOnly (ret a) (Ok a).
Proof. intros st. split; [reflexivity | apply sameRepo_refl]. Qed.

Lemma findsOnly_bind {A B} (m : M A) (k : A -> M B) r (f : A -> result B) :
  findsOnly m r ->
  (forall a, findsOnly (k a) (f a)) ->
  findsOnly (bind m k) (andThen r f).
Proof.
  intros Hm Hk st. unfold bind. destruct (Hm st) as [Hr Hs].
  destruct (m st) as [st' [a| e|]]; simpl in *; subst r; simpl;
    [|split; [reflexivity | exact Hs]..].
  destruct (Hk a st') as [Hr' Hs']. split; [exact Hr'|].
  eapply sameRepo_trans; eassumption.
Qed.

Lemma findsOnly_attemptConnect h who connString :
  findsOnly (attemptConnect h who connString)
    (if Connects h connString then Ok tt else Err (ErrConnect connString)).
Proof. intros st. split; [reflexivity | repeat split]. Qed.

Lemma connectLoop_spec h who connParams defaults vs : forall connString st,
  snd (connectLoop h who connParams defaults vs connString st)
    = chosenConnString h connParams defaults vs connString /\
  sameRepo st (fst (connectLoop h who connParams defaults vs connString st)).
Proof.
  induction vs as [|v vs IH]; intros connString st; simpl.
  - split; [reflexivity | apply sameRepo_refl].
  - destruct (Connects h _); simpl.
    + split; [reflexivity | repeat split].
    + destruct (IH (newPostgresConnectionString connParams defaults v)
        (withTrace
           (EvConnect who (newPostgresConnectionString connParams defaults v) false
            :: trace st) st)) as [Hr Hs].
      split; [exact Hr|]. eapply sameRepo_trans; [|exact Hs]. repeat split.
Qed.

Lemma findsOnly_discoverPostgres h proc config :
  findsOnly (discoverPostgres h proc config) (foundPostgres h proc config).
Proof.
  unfold discoverPostgres, foundPostgres.
  apply findsOnly_bind; [apply findsOnly_lift|].
  intros connParams st.
  destruct (connectLoop_spec h (DiscoveryOf (Pid proc)) connParams
              (ConnDefaults config) [true; false] "" st) as [Hr Hs].
  destruct (connectLoop _ _ _ _ _ _ _) as [st' cs]. simpl in *. subst cs.
  split; [reflexivity | exact Hs].
Qed.

Lemma findsOnly_discoverPgbouncer h proc config :
  findsOnly (discoverPgbouncer h proc config) (foundPgbouncer h proc config).
Proof.
  intros st.
  unfold discoverPgbouncer, foundPgbouncer, locatePgbouncer, bind, lift, ret,
    attemptConnect, andThen, pgbouncerService.
  destruct (Cmdline proc) as [cmdline|e|];
    [|split; [reflexivity | apply sameRepo_refl]..].
  destruct (bool_decide (cmdline = ""));
    [split; [reflexivity | apply sameRepo_refl]|].
  destruct (parsePgbouncerCmdline cmdline) as [path|e|];
    [|split; [reflexivity | apply sameRepo_refl]..].
  destruct (parsePgbouncerIniFile h path) as [cp|e|];
    [|split; [reflexivity | apply sameRepo_refl]..].
  destruct (Connects h _); split; try reflexivity; repeat split.
Qed.

(** [testAndAdd] changes the map as [testAndAddMap] does, and nothing else. *)
Lemma testAndAdd_services candidate st :
  Services (testAndAdd candidate st) = testAndAddMap candidate (Services st).
Proof.
  unfold testAndAdd, testAndAddMap. destruct (bool_decide _); reflexivity.
Qed.

Lemma testAndAdd_rest candidate st :
  Registerer (testAndAdd candidate st) = Registerer st /\
  nextRef (testAndAdd candidate st) = nextRef st /\
  trace (testAndAdd candidate st) = trace st.
Proof. unfold testAndAdd. destruct (bool_decide _); repeat split. Qed.

(** One pid of the pass. *)
Lemma lookupFound_spec (found : M Service) r st :
  findsOnly found r ->
  Services (fst (lookupFound found st))
    = match r with
      | Ok candidate => testAndAddMap candidate (Services st)
      | _ => Services st
      end /\
  Registerer (fst (lookupFound found st)) = Registerer st /\
  nextRef (fst (lookupFound found st)) = nextRef st /\
  snd (lookupFound found st)
    = match r with Panic => Panic | _ => Ok tt end.
Proof.
  intros Hf. destruct (Hf st) as [Hr (Hs & Hg & Hn)]. unfold lookupFound.
  destruct (found st) as [st' [c|e|]]; simpl in *; subst r.
  - rewrite testAndAdd_services, Hs.
    destruct (testAndAdd_rest c st') as (-> & -> & _). auto.
  - auto.
  - auto.
Qed.

Lemma lookupProcess_spec h config p st :
  Services (fst (lookupProcess h config p st))
    = match candidateOf h config p with
      | Ok (Some candidate) => testAndAddMap candidate (Services st)
      | _ => Services st
      end /\
  Registerer (fst (lookupProcess h config p st)) = Registerer st /\
  nextRef (fst (lookupProcess h config p st)) = nextRef st /\
  snd (lookupProcess h config p st)
    = match candidateOf h config p with Ok _ => Ok tt | _ => Panic end.
Proof.
  unfold lookupProcess, candidateOf.
  destruct (NewProcess h p) as [proc|e|]; [|by repeat split..].
  destruct (Name proc) as [name|e|]; [|by repeat split..].
  destruct (bool_decide (name = "postgres")).
  - destruct (bool_decide (Ppid proc = 1)); [|by repeat split].
    pose proof (lookupFound_spec _ _ st (findsOnly_discoverPostgres h proc config))
      as (-> & -> & -> & ->).
    destruct (foundPostgres h proc config); by repeat split.
  - destruct (bool_decide (name = "pgbouncer")); [|by repeat split].
    pose proof (lookupFound_spec _ _ st (findsOnly_discoverPgbouncer h proc config))
      as (-> & -> & -> & ->).
    destruct (foundPgbouncer h proc config); by repeat split.
Qed.

Lemma lookupLoop_spec h config pids : forall st,
  Services (fst (lookupLoop h config pids st))
    = addAll (candidates h config pids) (Services st) /\
  Registerer (fst (lookupLoop h config pids st)) = Registerer st /\
  nextRef (fst (lookupLoop h config pids st)) = nextRef st.
Proof.
  induction pids as [|p pids IH]; intros st; simpl; [by repeat split|].
  unfold bind.
  destruct (lookupProcess_spec h config p st) as (Hs & Hg & Hn & Hr).
  destruct (lookupProcess h config p st) as [st' r]. simpl in *.
  destruct (candidateOf h config p) as [[c|]|e|]; subst r; simpl;
    try (by repeat split).
  - destruct (IH st') as (-> & -> & ->). rewrite Hs. by repeat split.
  - destruct (IH st') as (-> & -> & ->). rewrite Hs. by repeat split.
Qed.

(** The whole pass: the candidates go through [testAndAdd] one after the
    other; nothing else changes in the repository. *)
Lemma lookupServices_spec h config st :
  Services (fst (lookupServices h config st))
    = addAll (discovered h config) (Services st) /\
  Registerer (fst (lookupServices h config st)) = Registerer st /\
  nextRef (fst (lookupServices h config st)) = nextRef st.
Proof.
  unfold lookupServices, discovered, bind, lift.
  destruct (Pids h) as [pids|e|]; [|by repeat split..].
  apply lookupLoop_spec.
Qed.

(** *** Test-and-add on the map *)

Lemma testAndAddMap_settled_id candidate m :
  settled candidate m -> testAndAddMap candidate m = m.
Proof.
  unfold settled, testAndAddMap. intros H.
  rewrite bool_decide_eq_true_2 by exact H. reflexivity.
Qed.

Lemma testAndAddMap_settles candidate m :
  settled candidate (testAndAddMap candidate m).
Proof.
  unfold testAndAddMap. case_bool_decide as H; [exact H|].
  unfold settled, getService, addService. rewrite lookup_insert_eq. reflexivity.
Qed.

Lemma testAndAddMap_keeps_settled c candidate m :
  settled c m -> settled c (testAndAddMap candidate m).
Proof.
  unfold testAndAddMap. intros Hc. case_bool_decide as H; [exact Hc|].
  unfold settled, getService, addService in *.
  destruct (decide (ServiceID candidate = ServiceID c)) as [Heq|Hne].
  - rewrite Heq in H. contradiction.
  - rewrite lookup_insert_ne by exact Hne. exact Hc.
Qed.

(** A record stored under its own identifier is never replaced. *)
Lemma testAndAddMap_keeps_record candidate (m : gmap string Service) id r :
  m !! id = Some r -> ServiceID r = id ->
  testAndAddMap candidate m !! id = Some r.
Proof.
  intros Hr Hid. unfold testAndAddMap. case_bool_decide as H; [exact Hr|].
  unfold addService. destruct (decide (ServiceID candidate = id)) as [Heq|Hne].
  - exfalso. apply H. rewrite Heq, (getService_Some _ _ _ Hr). exact Hid.
  - rewrite lookup_insert_ne by exact Hne. exact Hr.
Qed.

(** What a key holds after test-and-add: what it held, or the candidate. *)
Lemma testAndAddMap_lookup candidate (m : gmap string Service) id :
  testAndAddMap candidate m !! id = m !! id \/
  (id = ServiceID candidate /\ testAndAddMap candidate m !! id = Some candidate).
Proof.
  unfold testAndAddMap, addService. case_bool_decide as H; [by left|].
  destruct (decide (ServiceID candidate = id)) as [<-|Hne].
  - right. by rewrite lookup_insert_eq.
  - left. by rewrite lookup_insert_ne.
Qed.

Lemma addAll_keeps_settled c cs : forall m,
  settled c m -> settled c (addAll cs m).
Proof.
  induction cs as [|a cs IH]; intros m H; [exact H|].
  change (addAll (a :: cs) m) with (addAll cs (testAndAddMap a m)).
  apply IH, testAndAddMap_keeps_settled, H.
Qed.

Lemma addAll_settles cs : forall m,
  Forall (fun c => settled c (addAll cs m)) cs.
Proof.
  induction cs as [|a cs IH]; intros m; [constructor|].
  change (addAll (a :: cs) m) with (addAll cs (testAndAddMap a m)).
  constructor; [|apply IH].
  apply addAll_keeps_settled, testAndAddMap_settles.
Qed.

Lemma addAll_settled_id cs : forall m,
  Forall (fun c => settled c m) cs -> addAll cs m = m.
Proof.
  induction cs as [|a cs IH]; intros m H; [reflexivity|].
  apply Forall_cons in H as [Ha H]. simpl.
  rewrite (testAndAddMap_settled_id _ _ Ha). apply IH, H.
Qed.

Lemma addAll_idempotent cs m : addAll cs (addAll cs m) = addAll cs m.
Proof. apply addAll_settled_id, addAll_settles. Qed.

Lemma addAll_keeps_record cs : forall (m : gmap string Service) id r,
  m !! id = Some r -> ServiceID r = id -> addAll cs m !! id = Some r.
Proof.
  induction cs as [|a cs IH]; intros m id r Hr Hid; [exact Hr|].
  simpl. apply IH; [|exact Hid].
  apply testAndAddMap_keeps_record; assumption.
Qed.

Lemma addAll_lookup cs : forall (m : gmap string Service) id,
  addAll cs m !! id = m !! id \/
  exists c, c ∈ cs /\ ServiceID c = id /\ addAll cs m !! id = Some c.
Proof.
  induction cs as [|a cs IH]; intros m id; [by left|]. simpl.
  destruct (IH (testAndAddMap a m) id) as [Heq | (c & Hc & Hid & Hl)].
  - destruct (testAndAddMap_lookup a m id) as [Hm | [Hid Hm]].
    + left. by rewrite Heq.
    + right. exists a. split; [apply list_elem_of_here|].
      split; [by symmetry|]. by rewrite Heq.
  - right. exists c. split; [by apply list_elem_of_further|]. by split.
Qed.

(** Every candidate of a pass comes from a process of the host. *)
Lemma candidateOf_from h config p c :
  candidateOf h config p = Ok (Some c) -> discoveredFrom h config c.
Proof.
  unfold candidateOf, discoveredFrom.
  destruct (NewProcess h p) as [proc|e|] eqn:Hp; [|discriminate..].
  destruct (Name proc) as [name|e|] eqn:Hn; [|discriminate..].
  case_bool_decide as Hpg.
  - case_bool_decide as Hpp; [|discriminate].
    unfold foundPostgres.
    destruct (locatePostgres h (CmdlineSlice proc)) as [cp|e|] eqn:Hl;
      simpl; [|discriminate..].
    intros [= <-]. exists p, proc, cp. split; [exact Hp|]. left.
    subst name. auto.
  - case_bool_decide as Hpb; [|discriminate].
    unfold foundPgbouncer.
    destruct (locatePgbouncer h (Cmdline proc)) as [cp|e|] eqn:Hl;
      simpl; [|discriminate..].
    destruct (Connects h _) eqn:Hc; [|discriminate].
    intros [= <-]. exists p, proc, cp. split; [exact Hp|]. right.
    subst name. auto.
Qed.

Lemma candidates_from h config pids c :
  c ∈ candidates h config pids -> discoveredFrom h config c.
Proof.
  induction pids as [|p pids IH]; simpl; [by intros ?%elem_of_nil|].
  destruct (candidateOf h config p) as [[a|]|e|] eqn:Hc;
    [|exact IH|by intros ?%elem_of_nil..].
  intros [->|Hin]%elem_of_cons; [|by apply IH].
  eapply candidateOf_from, Hc.
Qed.

Lemma discovered_from h config c :
  c ∈ discovered h config -> discoveredFrom h config c.
Proof.
  unfold discovered. destruct (Pids h); [apply candidates_from|..];
    by intros ?%elem_of_nil.
Qed.

(** *** Collector attachment leaves the services as they are *)

Lemma sameService_refl s : sameService s s.
Proof. repeat split. Qed.

Lemma sameService_trans s1 s2 s3 :
  sameService s1 s2 -> sameService s2 s3 -> sameService s1 s3.
Proof.
  unfold sameService. intros (H1 & H2 & H3) (H4 & H5 & H6).
  repeat split; congruence.
Qed.

Lemma sameEntry_refl o : sameEntry o o.
Proof. destruct o; simpl; [apply sameService_refl | exact I]. Qed.

Lemma sameEntry_trans o1 o2 o3 :
  sameEntry o1 o2 -> sameEntry o2 o3 -> sameEntry o1 o3.
Proof.
  destruct o1, o2, o3; simpl; try tauto. apply sameService_trans.
Qed.

Lemma attachCollector_entry h id st id' s :
  Services st !! id = Some s ->
  sameEntry (Services st !! id')
            (Services (fst (attachCollector h id s st)) !! id').
Proof.
  intros Hs. unfold attachCollector.
  destruct (PgscvCollectorOk h _); simpl; [|apply sameEntry_refl].
  destruct (RegisterOk h _ _); simpl; [|apply sameEntry_refl].
  unfold addService. destruct (decide (id = id')) as [<-|Hne].
  - rewrite lookup_insert_eq, Hs. simpl. repeat split.
  - rewrite lookup_insert_ne by exact Hne. apply sameEntry_refl.
Qed.

Lemma setupService_entry h config id st id' :
  sameEntry (Services st !! id')
            (Services (fst (setupService h config id st)) !! id').
Proof.
  unfold setupService, getService.
  destruct (Services st !! id) as [s|] eqn:Hs; simpl.
  - destruct (Collector s); [apply sameEntry_refl|].
    repeat (case_bool_decide; try (apply attachCollector_entry; exact Hs));
      try apply sameEntry_refl.
    destruct (PostgresServiceConfigOk h _);
      [apply attachCollector_entry; exact Hs | apply sameEntry_refl].
  - apply sameEntry_refl.
Qed.

Lemma setupServices_entry h config ids : forall st id',
  sameEntry (Services st !! id')
            (Services (fst (setupServices h config ids st)) !! id').
Proof.
  unfold setupServices.
  induction ids as [|id ids IH]; intros st id'; simpl; [apply sameEntry_refl|].
  unfold bind. pose proof (setupService_entry h config id st id') as H1.
  destruct (setupService h config id st) as [st' [[]|e|]]; simpl in *;
    [|exact H1..].
  eapply sameEntry_trans; [exact H1 | apply IH].
Qed.

(** *** The invariants, pass by pass *)

Lemma discoveredFrom_fresh h config c :
  discoveredFrom h config c -> TotalErrors c = 0 /\ Collector c = None.
Proof.
  intros (p & proc & cp & _ & [(_ & _ & _ & ->) | (_ & _ & _ & ->)]);
    split; reflexivity.
Qed.

Lemma healthRecord_same h s s' :
  healthRecord h s = Some s' ->
  ServiceID s' = ServiceID s /\ ConnSettings s' = ConnSettings s /\
  Collector s' = Collector s.
Proof.
  unfold healthRecord. destruct (isRemote s); [|by intros [= <-]].
  destruct (Connects h _); [by intros [= <-]|].
  destruct (_ <? _); [|discriminate]. by intros [= <-].
Qed.

Lemma healthRecord_bounded h s s' :
  0 <= TotalErrors s <= errorThreshold - 1 ->
  healthRecord h s = Some s' ->
  0 <= TotalErrors s' <= errorThreshold - 1.
Proof.
  unfold healthRecord, errorThreshold. intros Hb.
  destruct (isRemote s); [|by intros [= <-]].
  destruct (Connects h _); [by intros [= <-]|].
  rewrite wrap64_small by (unfold minInt64, maxInt64; lia).
  destruct (_ <? _) eqn:Hlt; [|discriminate].
  intros [= <-]. simpl. apply Z.ltb_lt in Hlt. lia.
Qed.

Lemma healthRecord_system h s :
  sameService systemService s -> healthRecord h s = Some s.
Proof.
  intros (_ & Hc & _). unfold healthRecord, isRemote. rewrite Hc. reflexivity.
Qed.

Section Preservation.

Variables (h : Host) (config : Config).

Lemma healthcheckService_systemKept id st :
  systemKept st -> systemKept (healthcheckService h id st).
Proof.
  intros (s & Hs & Hsame). exists s. split; [|exact Hsame].
  destruct (decide (id = "system:0")) as [->|Hne].
  - rewrite healthcheckService_lookup, Hs. simpl.
    apply healthRecord_system, Hsame.
  - rewrite healthcheckService_lookup_ne by exact Hne. exact Hs.
Qed.

Lemma healthcheckService_keyedByID id st :
  keyedByID st -> keyedByID (healthcheckService h id st).
Proof.
  intros Hk id' s'. destruct (decide (id = id')) as [<-|Hne].
  - rewrite healthcheckService_lookup.
    destruct (Services st !! id) as [s|] eqn:Hs; simpl; [|discriminate].
    intros Hr. apply healthRecord_same in Hr as (-> & _). by apply Hk.
  - rewrite healthcheckService_lookup_ne by exact Hne. apply Hk.
Qed.

Lemma healthcheckService_boundedErrors id st :
  boundedErrors st -> boundedErrors (healthcheckService h id st).
Proof.
  intros Hb id' s'. destruct (decide (id = id')) as [<-|Hne].
  - rewrite healthcheckService_lookup.
    destruct (Services st !! id) as [s|] eqn:Hs; simpl; [|discriminate].
    apply healthRecord_bounded. by eapply Hb.
  - rewrite healthcheckService_lookup_ne by exact Hne. apply Hb.
Qed.

Lemma healthcheckServices_preserves (P : State -> Prop) ids :
  (forall id st, P st -> P (healthcheckService h id st)) ->
  forall st, P st -> P (healthcheckServices h ids st).
Proof.
  intros Hstep. induction ids as [|id ids IH]; intros st HP; [exact HP|].
  rewrite healthcheckServices_cons. apply IH, Hstep, HP.
Qed.

Lemma lookupServices_systemKept st :
  systemKept st -> systemKept (fst (lookupServices h config st)).
Proof.
  intros (s & Hs & Hsame). exists s. split; [|exact Hsame].
  destruct (lookupServices_spec h config st) as (-> & _).
  apply addAll_keeps_record; [exact Hs | apply Hsame].
Qed.

Lemma lookupServices_keyedByID st :
  keyedByID st -> keyedByID (fst (lookupServices h config st)).
Proof.
  intros Hk id s. destruct (lookupServices_spec h config st) as (-> & _).
  destruct (addAll_lookup (discovered h config) (Services st) id)
    as [-> | (c & _ & Hid & ->)]; [apply Hk|].
  intros [= <-]. by left.
Qed.

Lemma lookupServices_boundedErrors st :
  boundedErrors st -> boundedErrors (fst (lookupServices h config st)).
Proof.
  intros Hb id s. destruct (lookupServices_spec h config st) as (-> & _).
  destruct (addAll_lookup (discovered h config) (Services st) id)
    as [-> | (c & Hc & Hid & ->)]; [apply Hb|].
  intros [= <-]. apply discovered_from, discoveredFrom_fresh in Hc as [-> _].
  unfold errorThreshold. lia.
Qed.

Lemma setupServices_systemKept ids st :
  systemKept st -> systemKept (fst (setupServices h config ids st)).
Proof.
  intros (s & Hs & Hsame).
  pose proof (setupServices_entry h config ids st "system:0") as He.
  rewrite Hs in He.
  destruct (Services (fst (setupServices h config ids st)) !! "system:0")
    as [s'|] eqn:Hs'; simpl in He; [|contradiction].
  exists s'. split; [exact Hs'|]. eapply sameService_trans; eassumption.
Qed.

Lemma setupServices_keyedByID ids st :
  keyedByID st -> keyedByID (fst (setupServices h config ids st)).
Proof.
  intros Hk id s' Hs'.
  pose proof (setupServices_entry h config ids st id) as He.
  rewrite Hs' in He.
  destruct (Services st !! id) as [s|] eqn:Hs; simpl in He; [|contradiction].
  destruct He as (-> & _). by apply Hk.
Qed.

Lemma setupServices_boundedErrors ids st :
  boundedErrors st -> boundedErrors (fst (setupServices h config ids st)).
Proof.
  intros Hb id s' Hs'.
  pose proof (setupServices_entry h config ids st id) as He.
  rewrite Hs' in He.
  destruct (Services st !! id) as [s|] eqn:Hs; simpl in He; [|contradiction].
  destruct He as (_ & _ & ->). by eapply Hb.
Qed.

End Preservation.

Lemma startDiscovery_system st :
  Services (startDiscovery st) !! "system:0" = Some systemService.
Proof. unfold startDiscovery, addService. simpl. apply lookup_insert_eq. Qed.

Lemma systemKept_of_lookup st :
  Services st !! "system:0" = Some systemService -> systemKept st.
Proof.
  intros H. exists systemService. split; [exact H | apply sameService_refl].
Qed.

(** *** The start of the supervisor *)

(** The keys [addServicesFromConfig] makes have two colons at least, the
    key of the pseudo-service has one. *)
Lemma countByte_app c s t :
  countByte c (s +:+ t) = (countByte c s + countByte c t)%nat.
Proof.
  induction s as [|a s IH]; [reflexivity|].
  change (String a s +:+ t) with (String a (s +:+ t)). simpl.
  rewrite IH. lia.
Qed.

Lemma config_key_colons t host port :
  (2 <= countByte ":"%char (strings.Join [t; host; port] ":"))%nat.
Proof. simpl. rewrite !countByte_app. simpl. lia. Qed.

Lemma config_key_not_system t host port :
  strings.Join [t; host; port] ":" <> "system:0".
Proof.
  intros H. pose proof (config_key_colons t host port) as Hc.
  rewrite H in Hc. simpl in Hc. lia.
Qed.

Lemma addServiceFromConfig_system h cs (m : gmap string Service) :
  addServiceFromConfig h cs m !! "system:0" = m !! "system:0".
Proof.
  unfold addServiceFromConfig, addService.
  destruct (ParseConfig h _) as [[host port]|]; [|reflexivity].
  destruct (Connects h _); simpl; [|reflexivity].
  apply lookup_insert_ne, config_key_not_system.
Qed.

Lemma addServicesFromConfig_system h config st :
  Services (addServicesFromConfig h config st) !! "system:0"
  = Some systemService.
Proof.
  unfold addServicesFromConfig.
  assert (Hfold : forall settings (m : gmap string Service),
            foldl (fun m cs => addServiceFromConfig h cs m) m settings
              !! "system:0" = m !! "system:0").
  { induction settings as [|cs settings IH]; intros m; [reflexivity|].
    simpl. rewrite IH. apply addServiceFromConfig_system. }
  destruct (ConfigConnSettings config) as [settings|]; simpl;
    rewrite ?Hfold; apply lookup_insert_eq.
Qed.

(** A property of the records that the pseudo-service and the configured
    services have holds of all records after [addServicesFromConfig]. *)
Lemma addServicesFromConfig_records (Q : string -> Service -> Prop)
    h config st :
  Q "system:0" systemService ->
  (forall cs host port,
     Q (strings.Join [ServiceType cs; host; strconv.Itoa port] ":")
       {| ServiceID := ServiceType cs +:+ ":" +:+ strconv.Itoa port;
          ConnSettings := cs; Collector := None; TotalErrors := 0 |}) ->
  (forall id s, Services st !! id = Some s -> Q id s) ->
  forall id s,
    Services (addServicesFromConfig h config st) !! id = Some s -> Q id s.
Proof.
  intros Hsys Hcfg Hst.
  assert (Hins : forall (m : gmap string Service) k r,
            Q k r -> (forall id s, m !! id = Some s -> Q id s) ->
            forall id s, <[k := r]> m !! id = Some s -> Q id s).
  { intros m k r Hr Hm id s. destruct (decide (k = id)) as [<-|Hne].
    - rewrite lookup_insert_eq. by intros [= <-].
    - rewrite lookup_insert_ne by exact Hne. apply Hm. }
  assert (Hone : forall cs (m : gmap string Service),
            (forall id s, m !! id = Some s -> Q id s) ->
            forall id s, addServiceFromConfig h cs m !! id = Some s -> Q id s).
  { intros cs m Hm. unfold addServiceFromConfig, addService.
    destruct (ParseConfig h _) as [[host port]|]; [|exact Hm].
    destruct (Connects h _); simpl; [|exact Hm].
    apply Hins; [apply Hcfg | exact Hm]. }
  assert (Hfold : forall settings (m : gmap string Service),
            (forall id s, m !! id = Some s -> Q id s) ->
            forall id s,
              foldl (fun m cs => addServiceFromConfig h cs m) m settings !! id
              = Some s -> Q id s).
  { induction settings as [|cs settings IH]; intros m Hm; [exact Hm|].
    simpl. apply IH, Hone, Hm. }
  unfold addServicesFromConfig, addService.
  destruct (ConfigConnSettings config) as [settings|]; simpl.
  - apply Hfold, Hins; assumption.
  - apply Hins; assumption.
Qed.

Lemma startDiscovery_records (Q : string -> Service -> Prop) st :
  Q "system:0" systemService ->
  (forall id s, Services st !! id = Some s -> Q id s) ->
  forall id s, Services (startDiscovery st) !! id = Some s -> Q id s.
Proof.
  intros Hsys Hst id s. unfold startDiscovery, addService. simpl.
  destruct (decide ("system:0" = id)) as [<-|Hne].
  - rewrite lookup_insert_eq. by intros [= <-].
  - rewrite lookup_insert_ne by exact Hne. apply Hst.
Qed.

Lemma startDiscovery_keyedByID st :
  keyedByID st -> keyedByID (startDiscovery st).
Proof.
  intros Hk. unfold keyedByID. intros id s.
  apply (startDiscovery_records
           (fun id s => ServiceID s = id \/ (2 <= countByte ":"%char id)%nat));
    [by left | exact Hk].
Qed.

Lemma startDiscovery_boundedErrors st :
  boundedErrors st -> boundedErrors (startDiscovery st).
Proof.
  intros Hb. unfold boundedErrors. intros id s.
  apply (startDiscovery_records
           (fun _ s => 0 <= TotalErrors s <= errorThreshold - 1));
    [simpl; unfold errorThreshold; lia | exact Hb].
Qed.

Lemma addServicesFromConfig_keyedByID h config st :
  keyedByID st -> keyedByID (addServicesFromConfig h config st).
Proof.
  intros Hk. unfold keyedByID. intros id s.
  apply (addServicesFromConfig_records
           (fun id s => ServiceID s = id \/ (2 <= countByte ":"%char id)%nat));
    [by left | | exact Hk].
  intros cs host port. right. apply config_key_colons.
Qed.

Lemma addServicesFromConfig_boundedErrors h config st :
  boundedErrors st -> boundedErrors (addServicesFromConfig h config st).
Proof.
  intros Hb. unfold boundedErrors. intros id s.
  apply (addServicesFromConfig_records
           (fun _ s => 0 <= TotalErrors s <= errorThreshold - 1));
    [simpl; unfold errorThreshold; lia | | exact Hb].
  intros cs host port. simpl. unfold errorThreshold. lia.
Qed.

Lemma NewRepository_invariants :
  keyedByID NewRepository /\ boundedErrors NewRepository.
Proof. split; intros id s; simpl; by rewrite lookup_empty. Qed.

(** The three invariants hold in every state of the supervisor. *)
Lemma reachable_invariants config st :
  reachable config st -> systemKept st /\ keyedByID st /\ boundedErrors st.
Proof.
  destruct NewRepository_invariants as [Hk0 Hb0].
  induction 1 as [|h|st _ (Hs & Hk & Hb)|h st _ (Hs & Hk & Hb)
                  |h st _ (Hs & Hk & Hb)|h ids st _ (Hs & Hk & Hb) _
                  |h ids st _ (Hs & Hk & Hb) _].
  - split; [|split].
    + apply systemKept_of_lookup, startDiscovery_system.
    + by apply startDiscovery_keyedByID.
    + by apply startDiscovery_boundedErrors.
  - split; [|split].
    + apply systemKept_of_lookup, addServicesFromConfig_system.
    + by apply addServicesFromConfig_keyedByID.
    + by apply addServicesFromConfig_boundedErrors.
  - split; [|split].
    + apply systemKept_of_lookup, startDiscovery_system.
    + by apply startDiscovery_keyedByID.
    + by apply startDiscovery_boundedErrors.
  - split; [|split].
    + apply systemKept_of_lookup, addServicesFromConfig_system.
    + by apply addServicesFromConfig_keyedByID.
    + by apply addServicesFromConfig_boundedErrors.
  - split; [|split].
    + by apply lookupServices_systemKept.
    + by apply lookupServices_keyedByID.
    + by apply lookupServices_boundedErrors.
  - split; [|split].
    + by apply setupServices_systemKept.
    + by apply setupServices_keyedByID.
    + by apply setupServices_boundedErrors.
  - split; [|split].
    + apply healthcheckServices_preserves;
        [apply healthcheckService_systemKept | exact Hs].
    + apply healthcheckServices_preserves;
        [apply healthcheckService_keyedByID | exact Hk].
    + apply healthcheckServices_preserves;
        [apply healthcheckService_boundedErrors | exact Hb].
Qed.

(** The decimal form of a number has no colon in it, so the identifier of
    a discovered service has one. *)
Lemma pretty_N_go_colons x : forall s,
  countByte ":"%char (pretty_N_go x s) = countByte ":"%char s.
Proof.
  induction (N.lt_wf_0 x) as [x _ IH]. intros s.
  destruct (decide (x = 0)%N) as [->|Hx]; [by rewrite pretty_N_go_0|].
  rewrite pretty_N_go_step by lia.
  rewrite IH by (apply N.div_lt; lia).
  unfold pretty_N_char. by repeat case_match.
Qed.

Lemma Itoa_colons n : countByte ":"%char (strconv.Itoa n) = 0%nat.
Proof.
  assert (HN : forall x : N, countByte ":"%char (pretty x) = 0%nat).
  { intros x. unfold pretty, pretty_N.
    case_decide; [reflexivity | apply pretty_N_go_colons]. }
  unfold strconv.Itoa, pretty, pretty_Z.
  destruct n as [|p|p]; [reflexivity | apply HN |].
  rewrite countByte_app. simpl. apply HN.
Qed.

Lemma discoveredFrom_colons h config c :
  discoveredFrom h config c -> countByte ":"%char (ServiceID c) = 1%nat.
Proof.
  intros (p & proc & cp & _ & [(_ & _ & _ & ->) | (_ & _ & _ & ->)]);
    simpl; rewrite !countByte_app, Itoa_colons; reflexivity.
Qed.

(** What [getServiceIDs] answers when the model is run is one of the
    answers the Go map can give. *)
Lemma isServiceIDs_getServiceIDs (m : gmap string Service) :
  isServiceIDs m (getServiceIDs m).
Proof.
  unfold isServiceIDs, getServiceIDs. split; [apply NoDup_elements|].
  intros id. by rewrite elem_of_elements, elem_of_dom.
Qed.

(** A turn of the loop of [startBackgroundDiscovery] leads from a state of
    the supervisor to a state of the supervisor. *)
Lemma discoveryTurn_reachable h config ids1 ids2 st st' :
  (forall st0, isServiceIDs (Services st0) (ids1 st0)) ->
  (forall st0, isServiceIDs (Services st0) (ids2 st0)) ->
  reachable config st ->
  discoveryTurn h config ids1 ids2 st = Some st' ->
  reachable config st'.
Proof.
  intros H1 H2 Hr. unfold discoveryTurn.
  pose proof (reach_lookup config h st Hr) as Hl.
  destruct (lookupServices h config st) as [st1 [[]|e|]]; simpl in Hl;
    [|by intros [= <-]|discriminate].
  pose proof (reach_setup config h (ids1 st1) st1 Hl (H1 st1)) as Hs.
  destruct (setupServices h config (ids1 st1) st1) as [st2 [[]|e|]];
    simpl in Hs; [|by intros [= <-]|discriminate].
  intros [= <-]. by apply reach_health.
Qed.

(** *** A service that keeps failing *)

Lemma isRemote_same s s' :
  ConnSettings s' = ConnSettings s -> isRemote s' = isRemote s.
Proof. unfold isRemote. by intros ->. Qed.

Lemma healthRecord_failure h s :
  isRemote s = true ->
  Connects h (Conninfo (ConnSettings s)) = false ->
  0 <= TotalErrors s <= errorThreshold - 1 ->
  healthRecord h s =
    if TotalErrors s + 1 <? errorThreshold
    then Some (withTotalErrors (TotalErrors s + 1) s) else None.
Proof.
  unfold healthRecord, errorThreshold. intros -> -> Hb.
  rewrite wrap64_small by (unfold minInt64, maxInt64; lia). reflexivity.
Qed.

(** One pass on a service that cannot be reached: discovery and collector
    attachment leave its counter, a health check adds one to it. *)
Lemma runOp_failing config id s st o :
  Services st !! id = Some s ->
  ServiceID s = id \/ (2 <= countByte ":"%char id)%nat ->
  isRemote s = true ->
  0 <= TotalErrors s ->
  failsEachCheck id (Conninfo (ConnSettings s)) o ->
  TotalErrors s + Z.of_nat (healthChecks [o]) <= errorThreshold - 1 ->
  exists s',
    Services (runOp config o st) !! id = Some s' /\
    ServiceID s' = ServiceID s /\
    ConnSettings s' = ConnSettings s /\
    TotalErrors s' = TotalErrors s + Z.of_nat (healthChecks [o]).
Proof.
  intros Hs Hid Hrem Hpos Hfail Hle. destruct o as [h|h ids|h ids]; simpl in *.
  - exists s. destruct (lookupServices_spec h config st) as (-> & _).
    assert (Hkept : addAll (discovered h config) (Services st) !! id = Some s).
    { destruct Hid as [Hid | Hcolons]; [by apply addAll_keeps_record|].
      destruct (addAll_lookup (discovered h config) (Services st) id)
        as [-> | (c & Hin & Hc & _)]; [exact Hs|].
      apply discovered_from, discoveredFrom_colons in Hin.
      rewrite Hc in Hin. lia. }
    rewrite Hkept. repeat split; lia.
  - pose proof (setupServices_entry h config ids st id) as He.
    rewrite Hs in He.
    destruct (Services (fst (setupServices h config ids st)) !! id) as [s'|];
      simpl in He; [|contradiction].
    destruct He as (He1 & He2 & He3). exists s'.
    repeat split; [congruence | congruence | lia].
  - destruct Hfail as (Hnd & Hin & Hc).
    rewrite healthcheckServices_lookup_in, Hs by assumption. simpl.
    rewrite healthRecord_failure by (try assumption; lia).
    destruct (_ <? _) eqn:Hlt; [|apply Z.ltb_ge in Hlt; lia].
    eexists. split; [reflexivity|]. simpl. by repeat split.
Qed.

Lemma healthChecks_cons o ops :
  healthChecks (o :: ops) = (healthChecks [o] + healthChecks ops)%nat.
Proof. destruct o; reflexivity. Qed.

Lemma run_failing config id ops : forall s st,
  Services st !! id = Some s ->
  ServiceID s = id \/ (2 <= countByte ":"%char id)%nat ->
  isRemote s = true ->
  0 <= TotalErrors s ->
  Forall (failsEachCheck id (Conninfo (ConnSettings s))) ops ->
  TotalErrors s + Z.of_nat (healthChecks ops) <= errorThreshold - 1 ->
  exists s',
    Services (run config ops st) !! id = Some s' /\
    ServiceID s' = ServiceID s /\
    ConnSettings s' = ConnSettings s /\
    TotalErrors s' = TotalErrors s + Z.of_nat (healthChecks ops).
Proof.
  induction ops as [|o ops IH]; intros s st Hs Hid Hrem Hpos Hfail Hle.
  - exists s. simpl. repeat split; [exact Hs | lia].
  - apply Forall_cons in Hfail as [Ho Hfail].
    rewrite healthChecks_cons in Hle |- *.
    destruct (runOp_failing config id s st o Hs Hid Hrem Hpos Ho)
      as (s1 & Hs1 & Hid1 & Hc1 & He1); [lia|].
    destruct (IH s1 (runOp config o st) Hs1) as (s' & Hs' & Hid' & Hc' & He').
    + destruct Hid as [Hid | Hcolons]; [left; congruence | by right].
    + by rewrite (isRemote_same _ _ Hc1).
    + lia.
    + by rewrite Hc1.
    + lia.
    + exists s'. repeat split; [exact Hs' | congruence | congruence | lia].
Qed.

(** C2. A remote service of a state of the supervisor, discovered or taken
    from the configuration, whose failure counter is 0 and that no health
    check can reach: after a run with up to 9 health checks the record is
    still in the repository, under its key, and its counter is the number of
    health checks made; after 9 of them the next failed health check removes
    the record and unregisters its collector within that pass; and in every
    state of the supervisor every stored counter is between 0 and 9. *)
Theorem nine_failures_kept_tenth_evicts
    (config : Config) (id : string) (s : Service) (st : State) (ops : list op) :
  reachable config st ->
  Services st !! id = Some s ->
  isRemote s = true ->
  TotalErrors s = 0 ->
  Forall (failsEachCheck id (Conninfo (ConnSettings s))) ops ->
  (healthChecks ops <= 9)%nat ->
  (exists s',
     Services (run config ops st) !! id = Some s' /\
     ServiceID s' = ServiceID s /\
     ConnSettings s' = ConnSettings s /\
     TotalErrors s' = Z.of_nat (healthChecks ops) /\
     (healthChecks ops = 9%nat ->
      forall h ids,
        NoDup ids -> id ∈ ids ->
        Connects h (Conninfo (ConnSettings s)) = false ->
        Services (healthcheckServices h ids (run config ops st)) !! id = None /\
        forall c, Collector s' = Some c ->
          c ∉ Registerer (healthcheckServices h ids (run config ops st)))) /\
  (forall st', reachable config st' ->
     forall id' r, Services st' !! id' = Some r -> 0 <= TotalErrors r <= 9).
Proof.
  intros Hreach Hs Hrem Hzero Hfail Hle. split.
  - destruct (reachable_invariants config st Hreach) as (_ & Hk & _).
    destruct (run_failing config id ops s st Hs (Hk id s Hs) Hrem)
      as (s' & Hs' & Hid' & Hc' & He');
      [lia | exact Hfail | unfold errorThreshold; lia |].
    exists s'. repeat split; [exact Hs' | exact Hid' | exact Hc' | lia |..].
    + rewrite healthcheckServices_lookup_in, Hs' by assumption. simpl.
      rewrite healthRecord_failure;
        [| by rewrite (isRemote_same _ _ Hc') | by rewrite Hc'
         | unfold errorThreshold; lia].
      rewrite He', Hzero. replace (healthChecks ops) with 9%nat by done.
      reflexivity.
    + intros c Hc. eapply healthcheckServices_unregisters; [eassumption..| |exact Hc].
      rewrite healthRecord_failure;
        [| by rewrite (isRemote_same _ _ Hc') | by rewrite Hc'
         | unfold errorThreshold; lia].
      rewrite He', Hzero. replace (healthChecks ops) with 9%nat by done.
      reflexivity.
  - intros st' Hr id' r Hl.
    destruct (reachable_invariants config st' Hr) as (_ & _ & Hb).
    apply Hb in Hl. unfold errorThreshold in Hl. lia.
Qed.

Lemma idsS1_NoDup : NoDup idsS1.
Proof. by_evaluation. Defined.

Lemma turnDown_fails :
  Forall (failsEachCheck "postgres:5432" (Conninfo (ConnSettings serviceS1))) turnDown.
Proof.
  unfold turnDown. repeat (apply Forall_cons_2; [try exact I|]); [|apply Forall_nil_2].
  split; [exact idsS1_NoDup|]. split; [|reflexivity].
  by_evaluation.
Defined.

Lemma idsRemote_NoDup : NoDup idsRemote.
Proof. by_evaluation. Defined.

Lemma turnDownRemote_fails :
  Forall (failsEachCheck "postgres:127.0.0.1:5432"
            "host=127.0.0.1 port=5432 user=pgscv") turnDownRemote.
Proof.
  unfold turnDownRemote.
  repeat (apply Forall_cons_2; [try exact I|]); [|apply Forall_nil_2].
  split; [exact idsRemote_NoDup|]. split; [|reflexivity].
  by_evaluation.
Defined.

(** The discovered engine of S1, and the same engine named in the
    configuration: its record carries the identifier "postgres:5432" under
    the key "postgres:127.0.0.1:5432". *)
Lemma nine_failures_kept_tenth_evicts_witness :
  (exists s',
     Services (run configS1 opsS3 stateS1) !! "postgres:5432" = Some s' /\
     TotalErrors s' = 9 /\
     Services (healthcheckServices (hostS1 false) idsS1
                 (run configS1 opsS3 stateS1)) !! "postgres:5432" = None) /\
  (exists s',
     Services (run configRemote opsRemote stateRemote)
       !! "postgres:127.0.0.1:5432" = Some s' /\
     ServiceID s' = "postgres:5432" /\
     TotalErrors s' = 9 /\
     Services (healthcheckServices (hostS1 false) idsRemote
                 (run configRemote opsRemote stateRemote))
       !! "postgres:127.0.0.1:5432" = None).
Proof.
  split.
  - assert (Hr : reachable configS1 stateS1)
      by apply reach_lookup, reach_start.
    assert (Hs : Services stateS1 !! "postgres:5432" = Some serviceS1)
      by (vm_compute; reflexivity).
    assert (Hf : Forall (failsEachCheck "postgres:5432"
                           (Conninfo (ConnSettings serviceS1))) opsS3)
      by (apply Forall_concat, Forall_replicate, turnDown_fails).
    assert (Hn : (healthChecks opsS3 <= 9)%nat) by (vm_compute; lia).
    destruct (nine_failures_kept_tenth_evicts configS1 "postgres:5432" serviceS1
                stateS1 opsS3 Hr Hs eq_refl eq_refl Hf Hn)
      as [(s' & H1 & _ & _ & H4 & H5) _].
    exists s'. split; [exact H1|]. split; [exact H4|].
    apply (H5 eq_refl (hostS1 false) idsS1 idsS1_NoDup); [|reflexivity].
    by_evaluation.
  - assert (Hr : reachable configRemote stateRemote)
      by apply reach_start_config.
    assert (Hs : Services stateRemote !! "postgres:127.0.0.1:5432"
                 = Some {| ServiceID := "postgres:5432";
                           ConnSettings :=
                             {| ServiceType := "postgres";
                                Conninfo := "host=127.0.0.1 port=5432 user=pgscv" |};
                           Collector := None; TotalErrors := 0 |})
      by (vm_compute; reflexivity).
    assert (Hf : Forall (failsEachCheck "postgres:127.0.0.1:5432"
                           "host=127.0.0.1 port=5432 user=pgscv") opsRemote)
      by (apply Forall_concat, Forall_replicate, turnDownRemote_fails).
    assert (Hn : (healthChecks opsRemote <= 9)%nat) by (vm_compute; lia).
    destruct (nine_failures_kept_tenth_evicts configRemote
                "postgres:127.0.0.1:5432" _ stateRemote opsRemote
                Hr Hs eq_refl eq_refl Hf Hn)
      as [(s' & H1 & H2 & _ & H4 & H5) _].
    exists s'. split; [exact H1|]. split; [exact H2|]. split; [exact H4|].
    apply (H5 eq_refl (hostS1 false) idsRemote idsRemote_NoDup); [|reflexivity].
    by_evaluation.
Defined.

(** *** A service that answers *)

(** A health check that connects leaves the record as it is. *)
Lemma healthRecord_success h s :
  Connects h (Conninfo (ConnSettings s)) = true -> healthRecord h s = Some s.
Proof.
  unfold healthRecord. intros ->. by destruct (isRemote s).
Qed.

Lemma healthcheckServices_success h ids st id s :
  NoDup ids -> id ∈ ids ->
  Services st !! id = Some s ->
  Connects h (Conninfo (ConnSettings s)) = true ->
  Services (healthcheckServices h ids st) !! id = Some s.
Proof.
  intros Hnd Hin Hs Hc.
  rewrite healthcheckServices_lookup_in, Hs by assumption. simpl.
  by apply healthRecord_success.
Qed.

(** What [markServiceHealthy] does to a record, were it called. *)
Lemma markServiceHealthy_resets (m : gmap string Service) id s :
  m !! id = Some s ->
  markServiceHealthy id m !! id = Some (withTotalErrors 0 s).
Proof.
  intros Hs. unfold markServiceHealthy.
  rewrite (getService_Some _ _ _ Hs). apply lookup_insert_eq.
Qed.

(** C1. The source at the failing input: the engine of S1 has three failed
    checks on its record; a health check then connects to it, and the
    record still counts three failures after that pass. *)
Theorem success_leaves_failure_count :
  let st := healthcheckServices (hostS1 true) idsS1 stateThreeFailures in
  trace st =
    [EvConnect (HealthOf "postgres:5432")
       (Conninfo (ConnSettings serviceS1)) true] /\
  Services st !! "postgres:5432" = Some (withTotalErrors 3 serviceS1) /\
  getServiceStatus "postgres:5432" (Services st) = 3.
Proof. vm_compute. repeat split; reflexivity. Qed.

(** C4. The source at the failing input: the engine of S1 is a candidate
    (name "postgres", parent pid 1), both test connections of its discovery
    fail, and the pass adds its record all the same. *)
Theorem unreachable_engine_is_added :
  let st0 := startDiscovery NewRepository in
  let st := fst (lookupServices (hostS1 false) configS1 st0) in
  trace st =
    [EvConnect (DiscoveryOf 42)
       "application_name=pgscv host=127.0.0.1 port=5432 user=pgscv dbname=postgres"
       false;
     EvConnect (DiscoveryOf 42)
       "application_name=pgscv host=/tmp port=5432 user=pgscv dbname=postgres"
       false] /\
  Services st0 !! "postgres:5432" = None /\
  is_Some (Services st !! "postgres:5432").
Proof.
  vm_compute. repeat split; try reflexivity. eexists. reflexivity.
Qed.

(** The pooler's discovery, next to it, gives up the candidate when the
    test connection fails. *)
Lemma foundPgbouncer_needs_connection h proc config s :
  foundPgbouncer h proc config = Ok s ->
  Connects h (Conninfo (ConnSettings s)) = true.
Proof.
  unfold foundPgbouncer.
  destruct (locatePgbouncer h (Cmdline proc)) as [cp|e|]; simpl; [|discriminate..].
  destruct (Connects h _) eqn:Hc; [|discriminate]. by intros [= <-].
Qed.

(** C10. On an identifier that is not in the repository, [markServiceFailed]
    and [markServiceHealthy] store a record under it whose fields are the
    zero values but for the counter, which is 1 after [markServiceFailed]
    and 0 after [markServiceHealthy], as [getServiceStatus] then answers;
    and the repository has one record more. *)
Theorem mark_absent_inserts_record (m : gmap string Service) (id : string) :
  m !! id = None ->
  markServiceFailed id m !! id
    = Some {| ServiceID := "";
              ConnSettings := {| ServiceType := ""; Conninfo := "" |};
              Collector := None; TotalErrors := 1 |} /\
  getServiceStatus id (markServiceFailed id m) = 1 /\
  markServiceHealthy id m !! id
    = Some {| ServiceID := "";
              ConnSettings := {| ServiceType := ""; Conninfo := "" |};
              Collector := None; TotalErrors := 0 |} /\
  getServiceStatus id (markServiceHealthy id m) = 0 /\
  totalServices (markServiceFailed id m) = totalServices m + 1 /\
  totalServices (markServiceHealthy id m) = totalServices m + 1.
Proof.
  intros Habs.
  unfold getServiceStatus, getService, markServiceFailed, markServiceHealthy,
    totalServices.
  rewrite (getService_None _ _ Habs).
  rewrite !lookup_insert_eq, !map_size_insert_None by assumption.
  repeat split; lia.
Qed.

Lemma mark_absent_inserts_record_witness :
  Services stateS1 !! "pgbouncer:6432" = None /\
  markServiceFailed "pgbouncer:6432" (Services stateS1) !! "pgbouncer:6432"
    = Some {| ServiceID := "";
              ConnSettings := {| ServiceType := ""; Conninfo := "" |};
              Collector := None; TotalErrors := 1 |} /\
  getServiceStatus "pgbouncer:6432"
    (markServiceFailed "pgbouncer:6432" (Services stateS1)) = 1 /\
  totalServices (Services stateS1) = 2 /\
  totalServices (markServiceFailed "pgbouncer:6432" (Services stateS1)) = 3.
Proof.
  assert (Habs : Services stateS1 !! "pgbouncer:6432" = None)
    by (vm_compute; reflexivity).
  destruct (mark_absent_inserts_record (Services stateS1) "pgbouncer:6432" Habs)
    as (Hf & Hst & _ & _ & Hs & _).
  split; [exact Habs|]. split; [exact Hf|]. split; [exact Hst|].
  split; [vm_compute; reflexivity|].
  rewrite Hs. vm_compute. reflexivity.
Defined.

(** *** The pseudo-service *)

Lemma healthcheckService_trace h id st ev :
  ev ∈ trace (healthcheckService h id st) ->
  ev ∈ trace st \/
  (exists cs ok, ev = EvConnect (HealthOf id) cs ok) /\
  isRemote (getService id (Services st)) = true.
Proof.
  unfold healthcheckService, isRemote, attemptConnect.
  destruct (_ || _); [|by left].
  assert (Hcons : forall ok t,
            ev ∈ EvConnect (HealthOf id)
                   (Conninfo (ConnSettings (getService id (Services st)))) ok :: t ->
            ev ∈ t \/ (exists cs ok, ev = EvConnect (HealthOf id) cs ok) /\ true = true).
  { intros ok t [->|Hin]%elem_of_cons; [right; eauto | by left]. }
  destruct (Connects h _); simpl; [apply Hcons|].
  destruct (_ <? _); simpl; [apply Hcons|].
  destruct (Collector _); simpl; apply Hcons.
Qed.

Lemma healthcheckServices_system h ids : forall st,
  systemKept st ->
  Services (healthcheckServices h ids st) !! "system:0"
  = Services st !! "system:0".
Proof.
  induction ids as [|a ids IH]; intros st Hk; [reflexivity|].
  rewrite healthcheckServices_cons, IH by (by apply healthcheckService_systemKept).
  destruct Hk as (s & Hs & Hsame).
  destruct (decide (a = "system:0")) as [->|Hne].
  - rewrite healthcheckService_lookup, Hs. simpl.
    by apply healthRecord_system.
  - by apply healthcheckService_lookup_ne.
Qed.

Lemma healthcheckServices_no_system_probe h ids : forall st cs ok,
  systemKept st ->
  EvConnect (HealthOf "system:0") cs ok ∈ trace (healthcheckServices h ids st) ->
  EvConnect (HealthOf "system:0") cs ok ∈ trace st.
Proof.
  induction ids as [|a ids IH]; intros st cs ok Hk Hin; [exact Hin|].
  rewrite healthcheckServices_cons in Hin.
  apply IH in Hin; [|by apply healthcheckService_systemKept].
  apply healthcheckService_trace in Hin as [Hin | [(cs' & ok' & Heq) Hrem]];
    [exact Hin|].
  injection Heq as <- _ _. destruct Hk as (s & Hs & _ & Hc & _).
  rewrite (getService_Some _ _ _ Hs) in Hrem.
  unfold isRemote in Hrem. rewrite Hc in Hrem. discriminate.
Qed.

(** C5. The start of the supervisor ([startBackgroundDiscovery], and
    [addServicesFromConfig] too) stores the record "system:0", and it is in
    the repository in every state of the supervisor, of type system and with
    no failure counted.  From a state that has it: a health check leaves the
    record as it is and makes no test connection for it; a discovery pass
    leaves it as it is; collector attachment changes its collector only. *)
Theorem system_service_stays (config : Config) (st : State) :
  (forall st0, systemKept (startDiscovery st0)) /\
  (forall h st0, systemKept (addServicesFromConfig h config st0)) /\
  (reachable config st -> systemKept st) /\
  (systemKept st ->
   (forall h ids,
      systemKept (healthcheckServices h ids st) /\
      Services (healthcheckServices h ids st) !! "system:0"
        = Services st !! "system:0" /\
      forall cs ok,
        EvConnect (HealthOf "system:0") cs ok
          ∈ trace (healthcheckServices h ids st) ->
        EvConnect (HealthOf "system:0") cs ok ∈ trace st) /\
   (forall h,
      systemKept (fst (lookupServices h config st)) /\
      Services (fst (lookupServices h config st)) !! "system:0"
        = Services st !! "system:0") /\
   (forall h ids,
      systemKept (fst (setupServices h config ids st)) /\
      sameEntry (Services st !! "system:0")
        (Services (fst (setupServices h config ids st)) !! "system:0"))).
Proof.
  split; [|split; [|split]].
  - intros st0. apply systemKept_of_lookup, startDiscovery_system.
  - intros h st0. apply systemKept_of_lookup, addServicesFromConfig_system.
  - intros Hr. by destruct (reachable_invariants config st Hr) as (Hk & _ & _).
  - intros Hk. split; [|split].
    + intros h ids. split; [|split].
      * apply healthcheckServices_preserves;
          [apply healthcheckService_systemKept | exact Hk].
      * by apply healthcheckServices_system.
      * intros cs ok. by apply healthcheckServices_no_system_probe.
    + intros h. split; [by apply lookupServices_systemKept|].
      destruct Hk as (s & Hs & Hsame).
      destruct (lookupServices_spec h config st) as (-> & _).
      rewrite Hs. apply addAll_keeps_record; [exact Hs | apply Hsame].
    + intros h ids. split; [by apply setupServices_systemKept|].
      apply setupServices_entry.
Qed.

Lemma system_service_stays_witness :
  systemKept stateS1 /\
  Services (healthcheckServices (hostS1 false) idsS1 stateS1) !! "system:0"
    = Services stateS1 !! "system:0".
Proof.
  assert (Hr : reachable configS1 stateS1)
    by (unfold stateS1; apply reach_lookup, reach_start).
  destruct (system_service_stays configS1 stateS1) as (_ & _ & Hreach & Hstep).
  split; [exact (Hreach Hr)|].
  destruct (Hstep (Hreach Hr)) as (Hh & _).
  apply (Hh (hostS1 false) idsS1).
Defined.

(** *** Discovery over a repository that holds the service *)

(** Collector attachment keeps the candidates that are in the repository
    in it. *)
Lemma setupServices_settled h config ids st c :
  settled c (Services st) ->
  settled c (Services (fst (setupServices h config ids st))).
Proof.
  unfold settled, getService. intros Hc.
  pose proof (setupServices_entry h config ids st (ServiceID c)) as He.
  destruct (Services st !! ServiceID c) as [s|],
           (Services (fst (setupServices h config ids st)) !! ServiceID c)
             as [s'|]; simpl in *; try contradiction; [|exact Hc].
  destruct He as (-> & _). exact Hc.
Qed.

(** C6. A candidate whose identifier already has a record, the record
    carrying that identifier, leaves the state as it is; a discovery pass
    leaves every such record as it is; a second pass on the same host after
    a first one, directly or with a collector attachment in between, leaves
    the repository as it finds it; and in every state of the supervisor a
    discovered candidate whose identifier has a record leaves the state as
    it is. *)
Theorem rediscovery_changes_nothing (h : Host) (config : Config) (st : State) :
  (forall candidate r,
     Services st !! ServiceID candidate = Some r ->
     ServiceID r = ServiceID candidate ->
     testAndAdd candidate st = st) /\
  (forall id r,
     Services st !! id = Some r -> ServiceID r = id ->
     Services (fst (lookupServices h config st)) !! id = Some r) /\
  (let st1 := fst (lookupServices h config st) in
   let st2 := fst (lookupServices h config st1) in
   Services st2 = Services st1 /\ Registerer st2 = Registerer st1 /\
   nextRef st2 = nextRef st1) /\
  (forall h' ids,
     let st1 := fst (lookupServices h config st) in
     let st2 := fst (setupServices h' config ids st1) in
     let st3 := fst (lookupServices h config st2) in
     Services st3 = Services st2 /\ Registerer st3 = Registerer st2 /\
     nextRef st3 = nextRef st2) /\
  (reachable config st ->
   forall h' config' candidate,
     discoveredFrom h' config' candidate ->
     is_Some (Services st !! ServiceID candidate) ->
     testAndAdd candidate st = st).
Proof.
  assert (Hskip : forall candidate r,
            Services st !! ServiceID candidate = Some r ->
            ServiceID r = ServiceID candidate ->
            testAndAdd candidate st = st).
  { intros candidate r Hr Hid. unfold testAndAdd.
    rewrite (getService_Some _ _ _ Hr), bool_decide_eq_true_2 by exact Hid.
    reflexivity. }
  split; [exact Hskip|]. split; [|split; [|split]].
  - intros id r Hr Hid. destruct (lookupServices_spec h config st) as (-> & _).
    by apply addAll_keeps_record.
  - simpl.
    destruct (lookupServices_spec h config (fst (lookupServices h config st)))
      as (-> & -> & ->).
    destruct (lookupServices_spec h config st) as (-> & _ & _).
    by rewrite addAll_idempotent.
  - intros h' ids. simpl.
    destruct (lookupServices_spec h config
                (fst (setupServices h' config ids (fst (lookupServices h config st)))))
      as (-> & -> & ->).
    split; [|by split]. apply addAll_settled_id.
    pose proof (addAll_settles (discovered h config) (Services st)) as Hall.
    destruct (lookupServices_spec h config st) as (Hs & _ & _).
    rewrite <- Hs in Hall. clear Hs.
    eapply Forall_impl; [exact Hall|].
    intros c Hc. by apply setupServices_settled.
  - intros Hr h' config' candidate Hfrom [r Hl].
    destruct (reachable_invariants config st Hr) as (_ & Hk & _).
    apply (Hskip candidate r Hl).
    destruct (Hk _ _ Hl) as [Hid | Hcolons]; [exact Hid|].
    rewrite (discoveredFrom_colons _ _ _ Hfrom) in Hcolons. lia.
Qed.

Lemma rediscovery_changes_nothing_witness :
  testAndAdd serviceS1 stateS1 = stateS1 /\
  Services (fst (lookupServices (hostS1 true) configS1 stateS1))
    = Services stateS1.
Proof.
  destruct (rediscovery_changes_nothing (hostS1 true) configS1 stateS1)
    as (Hskip & _ & _ & _ & _).
  destruct (rediscovery_changes_nothing (hostS1 true) configS1
              (startDiscovery NewRepository)) as (_ & _ & Hidem & _ & _).
  split; [|apply Hidem].
  apply (Hskip serviceS1 serviceS1); [vm_compute|]; reflexivity.
Defined.

(** *** The keys of the repository *)

Lemma discoveredFrom_key h config s :
  discoveredFrom h config s ->
  exists port,
    (ServiceID s = "postgres:" +:+ strconv.Itoa port /\
     ServiceType (ConnSettings s) = model.ServiceTypePostgresql) \/
    (ServiceID s = "pgbouncer:" +:+ strconv.Itoa port /\
     ServiceType (ConnSettings s) = model.ServiceTypePgbouncer).
Proof.
  intros (p & proc & cp & _ & [(_ & _ & _ & ->) | (_ & _ & _ & ->)]);
    exists (listenPort cp); [left | right]; split; reflexivity.
Qed.

(** C3, as the source has it.  A record that a discovery pass adds is stored
    under its own identifier, which is the service type, a colon and the
    listen port that the engine locator read for a process of the host
    ("postgres:<port>" or "pgbouncer:<port>", without a host); the
    pseudo-service is stored under "system:0". *)
Theorem discovered_key_is_type_and_port
    (h : Host) (config : Config) (st : State) (id : string) (s : Service) :
  Services st !! id = None ->
  Services (fst (lookupServices h config st)) !! id = Some s ->
  ServiceID s = id /\
  discoveredFrom h config s /\
  (exists port,
     (id = "postgres:" +:+ strconv.Itoa port /\
      ServiceType (ConnSettings s) = model.ServiceTypePostgresql) \/
     (id = "pgbouncer:" +:+ strconv.Itoa port /\
      ServiceType (ConnSettings s) = model.ServiceTypePgbouncer)) /\
  Services (startDiscovery st) !! ServiceID systemService = Some systemService /\
  ServiceID systemService = "system:0".
Proof.
  intros Habs. destruct (lookupServices_spec h config st) as (-> & _).
  destruct (addAll_lookup (discovered h config) (Services st) id)
    as [-> | (c & Hc & Hid & ->)]; [by rewrite Habs|].
  intros [= <-]. apply discovered_from in Hc.
  split; [exact Hid|]. split; [exact Hc|]. split.
  - rewrite <- Hid. by apply (discoveredFrom_key h config).
  - split; [apply startDiscovery_system | reflexivity].
Qed.

Lemma discovered_key_is_type_and_port_witness :
  ServiceID serviceS1 = "postgres:5432" /\
  exists port,
    ("postgres:5432" = "postgres:" +:+ strconv.Itoa port /\
     ServiceType (ConnSettings serviceS1) = model.ServiceTypePostgresql) \/
    ("postgres:5432" = "pgbouncer:" +:+ strconv.Itoa port /\
     ServiceType (ConnSettings serviceS1) = model.ServiceTypePgbouncer).
Proof.
  assert (Habs : Services (startDiscovery NewRepository) !! "postgres:5432" = None)
    by (vm_compute; reflexivity).
  assert (Hadd : Services (fst (lookupServices (hostS1 true) configS1
                                  (startDiscovery NewRepository)))
                   !! "postgres:5432" = Some serviceS1)
    by (vm_compute; reflexivity).
  destruct (discovered_key_is_type_and_port (hostS1 true) configS1
              (startDiscovery NewRepository) "postgres:5432" serviceS1 Habs Hadd)
    as (Hid & _ & Hport & _).
  split; [exact Hid | exact Hport].
Defined.

(** C3, as the claim has it, fails: the engine of S1 listens on
    127.0.0.1:5432 and its record is stored under "postgres:5432"; nothing
    is stored under "postgres:127.0.0.1:5432", and no host and port make
    "postgres:5432" of the form type, colon, host, colon, port. *)
Lemma discovered_key_has_no_host :
  Services stateS1 !! "postgres:5432" = Some serviceS1 /\
  Services stateS1 !! "postgres:127.0.0.1:5432" = None /\
  ~ (forall (h : Host) (config : Config) (st : State) (id : string) (s : Service),
       Services st !! id = None ->
       Services (fst (lookupServices h config st)) !! id = Some s ->
       exists host port,
         id = ServiceType (ConnSettings s) +:+ ":" +:+ host +:+ ":" +:+ port).
Proof.
  assert (Hadd : Services stateS1 !! "postgres:5432" = Some serviceS1)
    by (vm_compute; reflexivity).
  split; [exact Hadd|]. split; [vm_compute; reflexivity|].
  intros Hclaim.
  destruct (Hclaim (hostS1 true) configS1 (startDiscovery NewRepository)
              "postgres:5432" serviceS1) as (host & port & Heq);
    [vm_compute; reflexivity | exact Hadd |].
  simpl in Heq. injection Heq as Heq.
  by repeat (destruct host as [|? host]; simplify_eq/=).
Qed.

(** *** Validation of the configuration *)

Section Validation.

Context {Filters : Type} (filterNew : Filters)
  (filterSetDefault : Filters -> Filters)
  (filterCompile : Filters -> option Filters).

Abbreviation Validate := (pgscv.Validate Filters filterNew filterSetDefault filterCompile).
Abbreviation main := (pgscv.main Filters filterNew filterSetDefault filterCompile).

Lemma Validate_needs_key h (c : pgscv.Config Filters) :
  pgscv.SendMetricsURL _ c <> "" -> pgscv.APIKey _ c = "" ->
  snd (Validate h c) = Err ErrAPIKey.
Proof.
  intros Hurl Hkey. unfold pgscv.Validate.
  rewrite (bool_decide_eq_false_2 _ Hurl), (bool_decide_eq_true_2 _ Hkey).
  reflexivity.
Qed.

Lemma Validate_without_url h (c : pgscv.Config Filters) key :
  pgscv.SendMetricsURL _ c = "" ->
  snd (Validate h (pgscv.withAPIKey _ key c)) = snd (Validate h c) /\
  snd (Validate h c) <> Err ErrAPIKey.
Proof.
  intros Hurl. unfold pgscv.Validate. simpl.
  rewrite !(bool_decide_eq_true_2 _ Hurl). simpl.
  destruct (pgscv.validateServices h _) as [[]|e|] eqn:Hv; simpl.
  - destruct (filterCompile _); simpl; (split; [reflexivity | discriminate]).
  - split; [reflexivity|]. intros [= ->]. revert Hv.
    generalize (default [] (pgscv.ServicesConnSettings _ c)).
    intros l. induction l as [|s l IH]; simpl; [discriminate|].
    case_bool_decide; [discriminate|].
    destruct (ParseConfig h _); [exact IH | discriminate].
  - split; [reflexivity | discriminate].
Qed.

(** C9. When [send_metrics_url] is set and [api_key] is empty, [Validate]
    returns the error "API key should be specified" and a [main] that
    reaches it exits with code 1; when [send_metrics_url] is empty, what
    [Validate] returns does not depend on the API key and is never that
    error. *)
Theorem push_url_requires_api_key (h : Host) (c : pgscv.Config Filters) :
  (pgscv.SendMetricsURL _ c <> "" -> pgscv.APIKey _ c = "" ->
   snd (Validate h c) = Err ErrAPIKey /\
   forall newConfig runBootstrap runUninstall flags,
     pgscv.showVersion flags = false ->
     pgscv.doBootstrap flags = false ->
     pgscv.doUninstall flags = false ->
     newConfig (pgscv.configFile flags) = Ok c ->
     main h newConfig runBootstrap runUninstall flags = pgscv.Exit _ 1) /\
  (pgscv.SendMetricsURL _ c = "" ->
   forall key,
     snd (Validate h (pgscv.withAPIKey _ key c)) = snd (Validate h c) /\
     snd (Validate h c) <> Err ErrAPIKey).
Proof.
  split.
  - intros Hurl Hkey. pose proof (Validate_needs_key h c Hurl Hkey) as Hv.
    split; [exact Hv|].
    intros newConfig rb ru flags Hver Hboot Hun Hnew. unfold pgscv.main.
    rewrite Hver, Hun, Hboot, Hnew. simpl.
    destruct (Validate h c) as [c' r]. simpl in Hv. by subst r.
  - intros Hurl key. by apply Validate_without_url.
Qed.

End Validation.

Lemma push_url_requires_api_key_witness :
  snd (pgscv.Validate unit tt id Some (hostS1 true) configS6) = Err ErrAPIKey /\
  pgscv.main unit tt id Some (hostS1 true) (fun _ => Ok configS6) 0 0 flagsRun
    = pgscv.Exit unit 1 /\
  snd (pgscv.Validate unit tt id Some (hostS1 true) configPull) = Ok tt.
Proof.
  destruct (push_url_requires_api_key tt id Some (hostS1 true) configS6)
    as [Hpush _].
  destruct Hpush as [Hv Hmain]; [discriminate | reflexivity |].
  destruct (push_url_requires_api_key tt id Some (hostS1 true) configPull)
    as [_ Hpull].
  destruct (Hpull eq_refl "") as [Hsame _].
  split; [exact Hv|].
  split; [apply Hmain; reflexivity|].
  rewrite <- Hsame. vm_compute. reflexivity.
Defined.

(** ** The scenarios of the specification, run on the model *)

(** S1: one discovery pass and one collector attachment give the repository
    its two records, each with a collector. *)
Example scenario_S1 :
  let st := fst (setupServices (hostS1 true) configS1 idsS1 stateS1) in
  getServiceIDs (Services st) = idsS1 /\
  Collector (getService "system:0" (Services st)) = Some 0%nat /\
  Collector (getService "postgres:5432" (Services st)) = Some 1%nat /\
  Registerer st = {[0%nat; 1%nat]}.
Proof. vm_compute. repeat split; reflexivity. Qed.

(** S3 and S4: after nine turns with the engine down the record counts nine
    failures; the tenth health check removes it and "system:0" stays; the
    next discovery pass, with the engine back, adds the record anew, with
    no failure counted. *)
Example scenario_S3_S4 :
  let st9 := run configS1 opsS3 stateS1 in
  let st10 := healthcheckServices (hostS1 false) idsS1 st9 in
  let st11 := fst (lookupServices (hostS1 true) configS1 st10) in
  getServiceStatus "postgres:5432" (Services st9) = 9 /\
  getServiceIDs (Services st10) = ["system:0"] /\
  Registerer st10 = {[0%nat]} /\
  Services st11 !! "postgres:5432" = Some serviceS1.
Proof. vm_compute. repeat split; reflexivity. Qed.

(** S5: the ini file of the pooler, and the record its discovery makes. *)
Example scenario_S5 :
  parsePgbouncerIniFile (hostS5 true) "/etc/pgbouncer.ini"
  = Ok {| pid := 0; datadirPath := ""; startTs := 0;
          unixSocketDirPath := "/tmp"; listenAddr := "127.0.0.1";
          listenPort := 16432 |} /\
  getServiceIDs
    (Services (fst (lookupServices (hostS5 true) configS1
                      (startDiscovery NewRepository))))
  = ["system:0"; "pgbouncer:16432"] /\
  getServiceIDs
    (Services (fst (lookupServices (hostS5 false) configS1
                      (startDiscovery NewRepository))))
  = ["system:0"].
Proof. vm_compute. repeat split; reflexivity. Qed.

(** * Further properties of the code *)

(** * Further properties of the sources *)

(** ** The repository *)

Lemma wrap64_succ z :
  minInt64 <= z <= maxInt64 ->
  wrap64 (z + 1) = if bool_decide (z = maxInt64) then minInt64 else z + 1.
Proof.
  intros Hz. case_bool_decide as Hmax.
  - subst z. reflexivity.
  - apply wrap64_small. unfold minInt64, maxInt64 in *. lia.
Qed.

(** X1. [markServiceFailed] and [markServiceHealthy] on a stored record
    change its counter and nothing else: the other fields, the other
    records and the number of records stay.  The counter goes up by one
    (from the largest [int] it wraps to the smallest); [markServiceHealthy]
    sets it to 0, also after [markServiceFailed]. *)
Theorem mark_changes_only_the_counter
    (m : gmap string Service) (id : string) (s : Service) :
  m !! id = Some s ->
  minInt64 <= TotalErrors s <= maxInt64 ->
  getServiceStatus id (markServiceFailed id m)
    = (if bool_decide (TotalErrors s = maxInt64) then minInt64
       else TotalErrors s + 1) /\
  getServiceStatus id (markServiceHealthy id m) = 0 /\
  markServiceHealthy id (markServiceFailed id m) = markServiceHealthy id m /\
  (forall m',
     m' = markServiceFailed id m \/ m' = markServiceHealthy id m ->
     ServiceID (getService id m') = ServiceID s /\
     ConnSettings (getService id m') = ConnSettings s /\
     Collector (getService id m') = Collector s /\
     totalServices m' = totalServices m /\
     forall id', id' <> id -> m' !! id' = m !! id').
Proof.
  intros Hs Hrange.
  unfold getServiceStatus, markServiceFailed, markServiceHealthy, totalServices.
  rewrite (getService_Some _ _ _ Hs).
  split; [|split; [|split]].
  - unfold getService. rewrite lookup_insert_eq. simpl.
    by apply wrap64_succ.
  - unfold getService. by rewrite lookup_insert_eq.
  - unfold getService at 1. rewrite lookup_insert_eq. simpl.
    by rewrite insert_insert_eq.
  - intros m' [-> | ->]; unfold getService; rewrite lookup_insert_eq; simpl;
      (repeat split; [by rewrite map_size_insert_Some|]);
      intros id' Hne; by rewrite lookup_insert_ne.
Qed.

Lemma mark_changes_only_the_counter_witness :
  getServiceStatus "postgres:5432"
    (markServiceFailed "postgres:5432" (Services stateThreeFailures)) = 4 /\
  getServiceStatus "postgres:5432"
    (markServiceHealthy "postgres:5432" (Services stateThreeFailures)) = 0.
Proof.
  destruct (mark_changes_only_the_counter (Services stateThreeFailures)
              "postgres:5432" (withTotalErrors 3 serviceS1))
    as (Hf & Hh & _); [vm_compute; reflexivity | vm_compute; split; discriminate |].
  split; [exact Hf | exact Hh].
Defined.

(** X2. [addService], [getService] and [removeService] fit together: a
    record that was added is read back; after its removal the zero record
    is read; removing an identifier that is not there changes nothing, so
    removing what was added under a new identifier gives the repository
    back; the number of records follows. *)
Theorem add_get_remove (m : gmap string Service) (id : string) (s : Service) :
  getService id (addService id s m) = s /\
  getService id (removeService id m) = zeroService /\
  removeService id (addService id s m) = removeService id m /\
  (m !! id = None ->
   removeService id m = m /\
   removeService id (addService id s m) = m /\
   totalServices (addService id s m) = totalServices m + 1) /\
  (is_Some (m !! id) ->
   totalServices (addService id s m) = totalServices m /\
   totalServices (removeService id m) = totalServices m - 1).
Proof.
  unfold getService, addService, removeService, totalServices.
  split; [by rewrite lookup_insert_eq|].
  split; [by rewrite lookup_delete_eq|].
  split; [apply delete_insert_eq|].
  split.
  - intros Hn. split; [by apply delete_id|].
    split; [by rewrite delete_insert_eq, delete_id|].
    rewrite map_size_insert_None by exact Hn. lia.
  - intros [r Hr]. split; [by rewrite map_size_insert_Some|].
    pose proof (map_size_delete id m) as Hd. rewrite Hr in Hd.
    assert (size m <> 0)%nat
      by (intros ->%map_size_empty_inv; by rewrite lookup_empty in Hr).
    lia.
Qed.

Lemma add_get_remove_witness :
  removeService "pgbouncer:6432"
    (addService "pgbouncer:6432" zeroService (Services stateS1))
  = Services stateS1 /\
  totalServices (removeService "postgres:5432" (Services stateS1)) = 1.
Proof.
  destruct (add_get_remove (Services stateS1) "pgbouncer:6432" zeroService)
    as (_ & _ & _ & Hnew & _).
  destruct (add_get_remove (Services stateS1) "postgres:5432" zeroService)
    as (_ & _ & _ & _ & Hold).
  split.
  - apply Hnew. vm_compute. reflexivity.
  - destruct Hold as [_ Hr]; [eexists; vm_compute; reflexivity|].
    rewrite Hr. vm_compute. reflexivity.
Defined.

(** X3. Whatever order the Go map is ranged over, [getServiceIDs] answers
    every identifier of the repository once: two answers are permutations
    of each other and have [totalServices] elements. *)
Theorem service_ids_are_the_keys (m : gmap string Service) (ids : list string) :
  isServiceIDs m ids ->
  ids ≡ₚ getServiceIDs m /\
  Z.of_nat (List.length ids) = totalServices m /\
  isServiceIDs m (getServiceIDs m).
Proof.
  intros [Hnd Hin].
  assert (Hperm : ids ≡ₚ getServiceIDs m).
  { destruct (isServiceIDs_getServiceIDs m) as [Hnd' Hin'].
    apply NoDup_Permutation; [exact Hnd | exact Hnd'|].
    intros id. by rewrite Hin, Hin'. }
  split; [exact Hperm|]. split; [|apply isServiceIDs_getServiceIDs].
  rewrite Hperm. unfold getServiceIDs, totalServices.
  f_equal. rewrite <- size_dom. reflexivity.
Qed.

Lemma service_ids_are_the_keys_witness :
  ["postgres:5432"; "system:0"] ≡ₚ getServiceIDs (Services stateS1) /\
  totalServices (Services stateS1) = 2.
Proof.
  assert (Hids : isServiceIDs (Services stateS1) ["postgres:5432"; "system:0"]).
  { assert (Hp : ["postgres:5432"; "system:0"] ≡ₚ getServiceIDs (Services stateS1)).
    { replace (getServiceIDs (Services stateS1))
        with ["system:0"; "postgres:5432"] by (vm_compute; reflexivity).
      apply perm_swap. }
    destruct (isServiceIDs_getServiceIDs (Services stateS1)) as [Hnd Hin].
    split; [by rewrite Hp|]. intros id. by rewrite Hp. }
  destruct (service_ids_are_the_keys _ _ Hids) as (Hperm & Hlen & _).
  split; [exact Hperm | by rewrite <- Hlen].
Defined.

(** ** The command line of the relational engine *)

(** X4. [parsePostgresProcessCmdline] answers the argument that follows the
    first "-D" of the command line, also when that argument is a flag
    itself, and an error when there is no "-D" or the first one is the last
    argument. *)
Theorem datadir_follows_first_flag (args : list string) :
  parsePostgresProcessCmdline args =
    match firstDataDirFlag args with
    | Some i =>
        match args !! S i with
        | Some datadir => Ok datadir
        | None => Err ErrDataDirNotFound
        end
    | None => Err ErrDataDirNotFound
    end.
Proof.
  induction args as [|arg rest IH]; [reflexivity|]. simpl.
  case_bool_decide as Harg.
  - destruct rest as [|next rest']; reflexivity.
  - rewrite IH. by destruct (firstDataDirFlag rest).
Qed.

(** ** Discovery of the relational engine *)

(** X5. [discoverPostgres] on a process whose metadata the locator reads:
    it always returns a service; when the unix-socket string connects, that
    is the only test connection made and the string of the service;
    otherwise the TCP string is tried and is the string of the service,
    whether it connects or not. *)
Theorem first_connection_wins
    (h : Host) (proc : Process) (config : Config) (st : State)
    (connParams : connectionParams) :
  locatePostgres h (CmdlineSlice proc) = Ok connParams ->
  let unix := newPostgresConnectionString connParams (ConnDefaults config) true in
  let tcp := newPostgresConnectionString connParams (ConnDefaults config) false in
  let who := DiscoveryOf (Pid proc) in
  discoverPostgres h proc config st =
    if Connects h unix
    then (withTrace (EvConnect who unix true :: trace st) st,
          Ok (postgresService (listenPort connParams) unix))
    else (withTrace (EvConnect who tcp (Connects h tcp)
                     :: EvConnect who unix false :: trace st) st,
          Ok (postgresService (listenPort connParams) tcp)).
Proof.
  intros Hloc. simpl. unfold discoverPostgres, bind, lift. rewrite Hloc.
  simpl. unfold attemptConnect.
  destruct (Connects h (newPostgresConnectionString _ _ true)); simpl;
    [reflexivity|].
  destruct (Connects h (newPostgresConnectionString _ _ false)); reflexivity.
Qed.

Lemma first_connection_wins_witness :
  snd (discoverPostgres (hostS1 true) procS1 configS1 NewRepository)
    = Ok serviceS1 /\
  List.length (trace (fst (discoverPostgres (hostS1 true) procS1 configS1
                             NewRepository))) = 1%nat /\
  List.length (trace (fst (discoverPostgres (hostS1 false) procS1 configS1
                             NewRepository))) = 2%nat.
Proof.
  assert (Hloc : forall up,
            locatePostgres (hostS1 up) (CmdlineSlice procS1)
            = Ok {| pid := 42; datadirPath := "/var/lib/pg";
                    startTs := 1700000000; unixSocketDirPath := "/tmp";
                    listenAddr := "127.0.0.1"; listenPort := 5432 |})
    by (intros []; vm_compute; reflexivity).
  rewrite (first_connection_wins (hostS1 true) procS1 configS1 NewRepository
             _ (Hloc true)).
  rewrite (first_connection_wins (hostS1 false) procS1 configS1 NewRepository
             _ (Hloc false)).
  repeat split.
Defined.

(** ** The command line of the pooler *)

Lemma fieldsLoop_nil s : forall cur,
  strings.fieldsLoop s cur = [] <-> cur = [] /\ allSpace s = true.
Proof.
  induction s as [|c s IH]; intros cur; simpl.
  - destruct cur; split; try done. by intros [? _].
  - destruct (strings.isSpace c); simpl.
    + destruct cur; [|split; [done | by intros [? _]]].
      rewrite IH. tauto.
    + rewrite IH. split; [by intros [? _] | by intros [_ ?]].
Qed.



(** X7. When it does not panic, [parsePgbouncerCmdline] answers the first
    field after the executable that does not begin with "-", whatever the
    flags before it are, and the empty string when every field after the
    executable begins with "-". *)
Theorem config_path_is_first_plain_field (cmdline s : string) :
  parsePgbouncerCmdline cmdline = Ok s ->
  exists exe args,
    strings.Fields cmdline = exe :: args /\
    ((s = "" /\ Forall (fun a => strings.HasPrefix a "-" = true) args) \/
     exists flags rest,
       args = flags ++ s :: rest /\
       strings.HasPrefix s "-" = false /\
       Forall (fun a => strings.HasPrefix a "-" = true) flags).
Proof.
  unfold parsePgbouncerCmdline.
  destruct (strings.Fields cmdline) as [|exe args]; [discriminate|].
  intros [= <-]. exists exe, args. split; [reflexivity|].
  induction args as [|a args IH]; [left; by split|].
  rewrite filter_cons. destruct (strings.HasPrefix a "-") eqn:Ha.
  - rewrite decide_False by discriminate.
    destruct IH as [[He Hall] | (flags & rest & Heq & Hs & Hf)].
    + left. split; [exact He | by constructor].
    + right. exists (a :: flags), rest.
      split; [simpl; f_equal; exact Heq|].
      split; [exact Hs | by constructor].
  - rewrite decide_True by reflexivity. simpl.
    right. exists [], args. by repeat split.
Qed.

Lemma config_path_is_first_plain_field_witness :
  exists exe args,
    strings.Fields "/usr/sbin/pgbouncer -d /etc/pgbouncer.ini" = exe :: args /\
    (("/etc/pgbouncer.ini" = "" /\
      Forall (fun a => strings.HasPrefix a "-" = true) args) \/
     exists flags rest,
       args = flags ++ "/etc/pgbouncer.ini" :: rest /\
       strings.HasPrefix "/etc/pgbouncer.ini" "-" = false /\
       Forall (fun a => strings.HasPrefix a "-" = true) flags).
Proof.
  apply (config_path_is_first_plain_field
           "/usr/sbin/pgbouncer -d /etc/pgbouncer.ini" "/etc/pgbouncer.ini").
  vm_compute. reflexivity.
Defined.

(** ** The ini file of the pooler *)

(** Every [Scan] that hands out a line takes at least one byte. *)
Lemma Scan_shorter r line r' :
  scanner.Scan r = Some (line, r') ->
  (String.length r' < String.length r)%nat.
Proof.
  unfold scanner.Scan. destruct r as [|c r]; [discriminate|].
  set (s := String c r).
  assert (Hpos : (0 < String.length s)%nat) by (simpl; lia).
  clearbody s. destruct (bufio.IndexByte _ _) as [i|].
  - remember (bufio.drop (S i) s) as d eqn:Hd.
    intros [= _ <-]. subst d. rewrite length_drop. lia.
  - destruct (scanner.MaxScanTokenSize <=? String.length s)%nat;
      [discriminate|].
    intros [= _ <-]. simpl. lia.
Qed.

Lemma scanLinesFuel_any fuel1 : forall fuel2 r,
  (String.length r < fuel1)%nat -> (String.length r < fuel2)%nat ->
  scanLinesFuel fuel1 r = scanLinesFuel fuel2 r.
Proof.
  induction fuel1 as [|fuel1 IH]; intros [|fuel2] r H1 H2; try lia. simpl.
  destruct (scanner.Scan r) as [[line r']|] eqn:Hr; [|reflexivity].
  pose proof (Scan_shorter _ _ _ Hr) as Hs. f_equal. apply IH; lia.
Qed.

(** The loop of [parsePgbouncerIniFile] is [iniLines] over the lines of the
    content, whatever fuel it has beyond the length. *)
Lemma iniLoop_lines fuel : forall r p,
  (String.length r < fuel)%nat ->
  iniLoop fuel r p = iniLines (scanLines r) p.
Proof.
  induction fuel as [|fuel IH]; intros r p Hlen; [lia|].
  unfold scanLines. simpl.
  destruct (scanner.Scan r) as [[line r']|] eqn:Hr; [|reflexivity].
  pose proof (Scan_shorter _ _ _ Hr) as Hs. simpl.
  rewrite (scanLinesFuel_any (String.length r) (S (String.length r'))) by lia.
  fold (scanLines r'). unfold iniSetting.
  destruct (_ || _); [apply IH; lia|].
  destruct (strings.Split _ _) as [|n [|v [|x l]]]; try (apply IH; lia).
  destruct (iniParam n v p); simpl; [apply IH; lia | reflexivity..].
Qed.

Lemma parsePgbouncerIniFile_lines h path content :
  ReadFile h path = Some content ->
  parsePgbouncerIniFile h path =
    andThen (iniLines (scanLines content) zeroParams) (fun p =>
    Ok {| pid := pid p; datadirPath := datadirPath p; startTs := startTs p;
          unixSocketDirPath :=
            if bool_decide (unixSocketDirPath p = "") then "/tmp"
            else unixSocketDirPath p;
          listenAddr := listenAddr p;
          listenPort :=
            if bool_decide (listenPort p = 0) then defaultPgbouncerPort
            else listenPort p |}).
Proof.
  intros Hf. unfold parsePgbouncerIniFile. rewrite Hf.
  rewrite iniLoop_lines by lia. reflexivity.
Qed.

(** One setting: an error exactly for a [listen_port] that is not an
    integer; the parameters of the engine stay, the listen address is
    never the wildcard. *)
Definition poolerParams (p : connectionParams) : Prop :=
  pid p = 0 /\ datadirPath p = "" /\ startTs p = 0 /\ listenAddr p <> "*".

Lemma iniParam_cases name value p :
  poolerParams p ->
  (exists p', iniParam name value p = Ok p' /\ poolerParams p' /\
              ~ (name = "listen_port" /\ notInteger value)) \/
  (exists e, iniParam name value p = Err e /\
             name = "listen_port" /\ notInteger value).
Proof.
  intros (Hpid & Hdir & Hts & Hstar). unfold iniParam.
  case_bool_decide as Haddr.
  - left. eexists. split; [reflexivity|]. split.
    + repeat split; simpl; try assumption. by case_bool_decide.
    + intros [-> _]. discriminate.
  - case_bool_decide as Hport.
    + destruct (Atoi_cases value) as [(v & -> & Hv) | (e & -> & Hn)]; simpl.
      * left. eexists. split; [reflexivity|].
        split; [by repeat split|].
        intros [_ Hn]. by apply (notInteger_inl _ _ Hv).
      * right. eauto.
    + left. case_bool_decide; eexists; (split; [reflexivity|]);
        (split; [by repeat split | by intros [? _]]).
Qed.

Lemma badPortLine_cons line lines :
  badPortLine (line :: lines) <->
  (exists value, iniSetting line = Some ("listen_port", value) /\
                 notInteger value) \/
  badPortLine lines.
Proof.
  unfold badPortLine. split.
  - intros (l & v & [->|Hin]%elem_of_cons & Hs & Hn); [left | right]; eauto.
  - intros [(v & Hs & Hn) | (l & v & Hin & Hs & Hn)].
    + exists line, v. split; [apply list_elem_of_here | by split].
    + exists l, v. split; [by apply list_elem_of_further | by split].
Qed.

Lemma iniLines_cases lines : forall p,
  poolerParams p ->
  (exists p', iniLines lines p = Ok p' /\ poolerParams p' /\
              ~ badPortLine lines) \/
  (exists e, iniLines lines p = Err e /\ badPortLine lines).
Proof.
  induction lines as [|line lines IH]; intros p Hp; simpl.
  - left. exists p. split; [reflexivity|]. split; [exact Hp|].
    intros (l & v & Hin & _). by apply elem_of_nil in Hin.
  - destruct (iniSetting line) as [[name value]|] eqn:Hset.
    + destruct (iniParam_cases name value p Hp)
        as [(p1 & -> & Hp1 & Hok) | (e & -> & -> & Hbad)]; simpl.
      * destruct (IH p1 Hp1) as [(p' & -> & Hp' & Hno) | (e & -> & Hb)].
        -- left. exists p'. split; [reflexivity|]. split; [exact Hp'|].
           rewrite badPortLine_cons. intros [(v & Hs & Hn) | Hb];
             [|by apply Hno].
           rewrite Hset in Hs. injection Hs as -> ->. by apply Hok.
        -- right. exists e. split; [reflexivity|].
           rewrite badPortLine_cons. by right.
      * right. exists e. split; [reflexivity|].
        rewrite badPortLine_cons. left. by exists value.
    + destruct (IH p Hp) as [(p' & -> & Hp' & Hno) | (e & -> & Hb)].
      * left. exists p'. split; [reflexivity|]. split; [exact Hp'|].
        rewrite badPortLine_cons.
        intros [(v & Hs & _) | Hb]; [congruence | by apply Hno].
      * right. exists e. split; [reflexivity|].
        rewrite badPortLine_cons. by right.
Qed.

Lemma zeroParams_pooler : poolerParams zeroParams.
Proof. by repeat split. Qed.

(** X8. [parsePgbouncerIniFile] returns an error exactly when the file
    cannot be opened or one of its lines sets [listen_port] to what is not
    an integer; comments, empty lines, lines without exactly one "=" and
    the other settings never make it fail, and it never panics. *)
Theorem ini_file_fails_iff (h : Host) (iniFilePath : string) :
  ((exists e, parsePgbouncerIniFile h iniFilePath = Err e) <->
   ReadFile h iniFilePath = None \/
   exists content,
     ReadFile h iniFilePath = Some content /\
     badPortLine (scanLines content)) /\
  ((exists e, parsePgbouncerIniFile h iniFilePath = Err e) \/
   (exists p, parsePgbouncerIniFile h iniFilePath = Ok p)).
Proof.
  destruct (ReadFile h iniFilePath) as [content|] eqn:Hf.
  - rewrite (parsePgbouncerIniFile_lines _ _ _ Hf).
    destruct (iniLines_cases (scanLines content) zeroParams zeroParams_pooler)
      as [(p & -> & _ & Hno) | (e & -> & Hb)]; simpl.
    + split; [|right; eauto]. split; [by intros [e [=]]|].
      intros [[=] | (c & [= <-] & Hb)]. contradiction.
    + split; [|left; eauto]. split; [|eauto].
      intros _. right. by exists content.
  - unfold parsePgbouncerIniFile. rewrite Hf.
    split; [|left; eauto]. split; [by left | eauto].
Qed.

Lemma ini_file_fails_iff_witness :
  exists p, parsePgbouncerIniFile (hostS5 true) "/etc/pgbouncer.ini" = Ok p.
Proof.
  destruct (ini_file_fails_iff (hostS5 true) "/etc/pgbouncer.ini")
    as [[Herr _] [[e He] | Hok]]; [|exact Hok].
  exfalso. destruct (Herr (ex_intro _ e He)) as [Hn | (c & Hc & Hb)].
  - vm_compute in Hn. discriminate.
  - vm_compute in Hc. injection Hc as <-.
    destruct Hb as (l & v & Hin & Hs & Hn).
    match type of Hin with
    | _ ∈ ?ls =>
        replace ls
          with ["; pooler"; "listen_addr = *, 10.0.0.1"; "listen_port = 16432"]
          in Hin by (vm_compute; reflexivity)
    end.
    rewrite !elem_of_cons, elem_of_nil in Hin.
    destruct Hin as [-> | [-> | [-> | []]]]; vm_compute in Hs;
      try discriminate Hs.
    injection Hs as <-.
    apply (notInteger_inl "16432" 16432); [vm_compute; reflexivity | exact Hn].
Defined.

Lemma HasPrefix_empty s : strings.HasPrefix s "" = true.
Proof. by destruct s. Qed.

Lemma HasPrefix_app_l s t : forall p,
  strings.HasPrefix s p = true -> strings.HasPrefix (s +:+ t) p = true.
Proof.
  induction s as [|c s IH]; intros [|d p]; simpl; try done.
  - intros _. apply HasPrefix_empty.
  - intros [Hc Hp]%andb_true_iff. rewrite Hc. simpl. by apply IH.
Qed.

Lemma HasPrefix_host host :
  strings.HasPrefix ("application_name=pgscv" +:+ " host=" +:+ host)
    "application_name=pgscv host=" = true.
Proof. simpl. apply HasPrefix_empty. Qed.



(** ** The discovery pass: errors, the trace, what is added *)

Lemma traceGrows_refl P st : traceGrows P st st.
Proof. by exists []. Qed.

Lemma traceGrows_trans P st1 st2 st3 :
  traceGrows P st1 st2 -> traceGrows P st2 st3 -> traceGrows P st1 st3.
Proof.
  intros (evs1 & H1 & F1) (evs2 & H2 & F2). exists (evs2 ++ evs1).
  split; [by rewrite H2, H1, app_assoc|].
  by rewrite forallb_app, F1, F2.
Qed.

Lemma traceGrows_same P st st' : trace st' = trace st -> traceGrows P st st'.
Proof. intros H. by exists []. Qed.

Lemma attemptConnect_trace h p connString st :
  traceGrows byDiscovery st
    (fst (attemptConnect h (DiscoveryOf p) connString st)).
Proof. by eexists [_]. Qed.

Lemma connectLoop_trace h p connParams defaults vs : forall connString st,
  traceGrows byDiscovery st
    (fst (connectLoop h (DiscoveryOf p) connParams defaults vs connString st)).
Proof.
  induction vs as [|v vs IH]; intros connString st; simpl;
    [apply traceGrows_refl|].
  pose proof (attemptConnect_trace h p
                (newPostgresConnectionString connParams defaults v) st) as Ha.
  unfold attemptConnect in Ha. simpl in Ha.
  destruct (Connects h _); simpl; [exact Ha|].
  eapply traceGrows_trans; [exact Ha | apply IH].
Qed.

Lemma discoverPostgres_trace h proc config st :
  traceGrows byDiscovery st (fst (discoverPostgres h proc config st)).
Proof.
  unfold discoverPostgres, bind, lift.
  destruct (locatePostgres _ _) as [cp|e|]; try apply traceGrows_refl.
  pose proof (connectLoop_trace h (Pid proc) cp (ConnDefaults config)
                [true; false] "" st) as Hc.
  destruct (connectLoop _ _ _ _ _ _ st) as [st' cs]. exact Hc.
Qed.

Lemma discoverPgbouncer_trace h proc config st :
  traceGrows byDiscovery st (fst (discoverPgbouncer h proc config st)).
Proof.
  unfold discoverPgbouncer, bind, lift.
  destruct (Cmdline proc) as [cmdline|e|]; simpl; try apply traceGrows_refl.
  destruct (bool_decide (cmdline = "")); simpl; [apply traceGrows_refl|].
  destruct (parsePgbouncerCmdline cmdline) as [path|e|]; simpl;
    try apply traceGrows_refl.
  destruct (parsePgbouncerIniFile h path) as [cp|e|]; simpl;
    try apply traceGrows_refl.
  pose proof (attemptConnect_trace h (Pid proc)
                (newPgbouncerConnectionString cp (ConnDefaults config)) st)
    as Ha.
  unfold attemptConnect in *. simpl in Ha.
  destruct (Connects h _); exact Ha.
Qed.

Lemma lookupFound_trace (found : M Service) st :
  traceGrows byDiscovery st (fst (found st)) ->
  traceGrows byDiscovery st (fst (lookupFound found st)).
Proof.
  unfold lookupFound. destruct (found st) as [st' [c|e|]]; simpl; try done.
  intros H. eapply traceGrows_trans; [exact H|].
  apply traceGrows_same. apply testAndAdd_rest.
Qed.

Lemma lookupProcess_trace h config p st :
  traceGrows byDiscovery st (fst (lookupProcess h config p st)).
Proof.
  unfold lookupProcess.
  destruct (NewProcess h p) as [proc|e|]; try apply traceGrows_refl.
  destruct (Name proc) as [name|e|]; try apply traceGrows_refl.
  destruct (bool_decide (name = "postgres")).
  - destruct (bool_decide (Ppid proc = 1)); [|apply traceGrows_refl].
    apply lookupFound_trace, discoverPostgres_trace.
  - destruct (bool_decide (name = "pgbouncer")); [|apply traceGrows_refl].
    apply lookupFound_trace, discoverPgbouncer_trace.
Qed.

Lemma lookupLoop_trace h config pids : forall st,
  traceGrows byDiscovery st (fst (lookupLoop h config pids st)).
Proof.
  induction pids as [|p pids IH]; intros st; simpl; [apply traceGrows_refl|].
  unfold bind. pose proof (lookupProcess_trace h config p st) as Hp.
  destruct (lookupProcess h config p st) as [st' [[]|e|]]; simpl in *;
    try exact Hp.
  eapply traceGrows_trans; [exact Hp | apply IH].
Qed.

(** The result of the loop: a panic of one process ends it, nothing else
    does. *)
Lemma lookupLoop_result h config pids : forall st,
  (snd (lookupLoop h config pids st) = Ok tt /\
   Forall (fun p => candidateOf h config p <> Panic) pids) \/
  (snd (lookupLoop h config pids st) = Panic /\
   Exists (fun p => candidateOf h config p = Panic) pids).
Proof.
  induction pids as [|p pids IH]; intros st; simpl; [left; by split|].
  unfold bind.
  destruct (lookupProcess_spec h config p st) as (_ & _ & _ & Hr).
  destruct (lookupProcess h config p st) as [st' r]. simpl in Hr. subst r.
  destruct (candidateOf h config p) as [c|e|] eqn:Hc.
  - destruct (IH st') as [[Hok Hall] | [Hp Hex]].
    + left. split; [exact Hok|]. apply Forall_cons_2; [congruence | exact Hall].
    + right. split; [exact Hp|]. by apply Exists_cons_tl.
  - right. split; [reflexivity|]. apply Exists_cons_hd.
    exfalso. revert Hc. unfold candidateOf.
    destruct (NewProcess h p) as [proc|?|]; try discriminate.
    destruct (Name proc) as [name|?|]; try discriminate.
    repeat destruct (bool_decide _); try discriminate;
      match goal with |- context [match ?f with _ => _ end] =>
        destruct f as [?|?|]; discriminate end.
  - right. split; [reflexivity|]. by apply Exists_cons_hd.
Qed.

(** X10. [lookupServices] returns an error only when the process table
    cannot be read, and then it leaves the state as it is and the turn of
    the background loop ends with that state; an error met with one process
    (no such process, no name, a locator or a connection that fails) does
    not end the pass.  With the table read, the pass ends well unless one
    process makes it panic. *)
Theorem lookup_fails_only_without_process_table
    (h : Host) (config : Config) (st : State) :
  (forall e, snd (lookupServices h config st) = Err e <-> Pids h = Err e) /\
  (forall e, Pids h = Err e ->
     lookupServices h config st = (st, Err e) /\
     forall ids1 ids2, discoveryTurn h config ids1 ids2 st = Some st) /\
  (forall pids, Pids h = Ok pids ->
     (snd (lookupServices h config st) = Ok tt <->
      Forall (fun p => candidateOf h config p <> Panic) pids) /\
     (snd (lookupServices h config st) = Panic <->
      Exists (fun p => candidateOf h config p = Panic) pids)).
Proof.
  unfold discoveryTurn, lookupServices, bind, lift.
  destruct (Pids h) as [pids|e0|] eqn:Hp; simpl.
  - split; [|split].
    + intros e. split; [|discriminate].
      destruct (lookupLoop_result h config pids st) as [[-> _] | [-> _]];
        discriminate.
    + discriminate.
    + intros ? [= <-].
      destruct (lookupLoop_result h config pids st)
        as [[Hr Hall] | [Hr Hex]]; rewrite Hr.
      * split; [by split|]. split; [discriminate|].
        intros Hex%Exists_exists. rewrite Forall_forall in Hall.
        destruct Hex as (p & Hin & Hpanic). by destruct (Hall p Hin).
      * split; [|by split]. split; [discriminate|].
        intros Hall. apply Exists_exists in Hex as (p & Hin & Hpanic).
        rewrite Forall_forall in Hall. by destruct (Hall p Hin).
  - split; [|split].
    + intros e. split; congruence.
    + intros e [= <-]. split; reflexivity.
    + discriminate.
  - split; [|split]; [|discriminate..].
    intros e. split; discriminate.
Qed.

Lemma lookup_fails_only_without_process_table_witness :
  lookupServices (withPids (Err (ErrProcess 0)) (hostS1 true)) configS1 stateS1
  = (stateS1, Err (ErrProcess 0)).
Proof.
  destruct (lookup_fails_only_without_process_table
              (withPids (Err (ErrProcess 0)) (hostS1 true)) configS1 stateS1)
    as (_ & Herr & _).
  apply (Herr (ErrProcess 0)). reflexivity.
Defined.

Lemma testAndAddMap_dom candidate (m : gmap string Service) id :
  is_Some (m !! id) -> is_Some (testAndAddMap candidate m !! id).
Proof.
  intros Hm.
  destruct (testAndAddMap_lookup candidate m id) as [-> | [_ ->]]; eauto.
Qed.

Lemma addAll_dom cs : forall (m : gmap string Service) id,
  is_Some (m !! id) -> is_Some (addAll cs m !! id).
Proof.
  induction cs as [|c cs IH]; intros m id Hm; [exact Hm|].
  change (addAll (c :: cs) m) with (addAll cs (testAndAddMap c m)).
  by apply IH, testAndAddMap_dom.
Qed.

(** X11. A discovery pass only adds: every key of the repository is still
    a key after it; the registerer and the collector addresses are as before;
    the only test connections it makes are those of discovery; a key with a
    host in it (two colons, as the configured services have) reads as
    before; and a key that reads otherwise than before holds a record with
    that identifier, no collector and no failure counted. *)
Theorem lookup_only_adds (h : Host) (config : Config) (st : State) :
  let st' := fst (lookupServices h config st) in
  dom (Services st) ⊆ dom (Services st') /\
  Registerer st' = Registerer st /\
  nextRef st' = nextRef st /\
  traceGrows byDiscovery st st' /\
  (forall id, (2 <= countByte ":"%char id)%nat ->
     Services st' !! id = Services st !! id) /\
  (forall id, Services st' !! id <> Services st !! id ->
     exists c, Services st' !! id = Some c /\ ServiceID c = id /\
               Collector c = None /\ TotalErrors c = 0 /\
               discoveredFrom h config c).
Proof.
  intros st'. subst st'.
  destruct (lookupServices_spec h config st) as (Hs & Hg & Hn).
  assert (Hnew : forall id,
            Services (fst (lookupServices h config st)) !! id
              <> Services st !! id ->
            exists c, Services (fst (lookupServices h config st)) !! id
                        = Some c /\ ServiceID c = id /\
                      discoveredFrom h config c).
  { intros id Hne. rewrite Hs in *.
    destruct (addAll_lookup (discovered h config) (Services st) id)
      as [Heq | (c & Hin & Hid & Hc)]; [contradiction|].
    exists c. repeat split; [exact Hc | exact Hid |].
    by apply discovered_from. }
  split; [|split; [exact Hg | split; [exact Hn | split; [|split]]]].
  - intros id. rewrite !elem_of_dom, Hs. apply addAll_dom.
  - unfold lookupServices, bind, lift.
    destruct (Pids h) as [pids|e|]; simpl; try apply traceGrows_refl.
    apply lookupLoop_trace.
  - intros id Hcolons. rewrite Hs.
    destruct (addAll_lookup (discovered h config) (Services st) id)
      as [Heq | (c & Hin & Hid & _)]; [exact Heq|].
    apply discovered_from, discoveredFrom_colons in Hin.
    rewrite Hid in Hin. lia.
  - intros id Hne. destruct (Hnew id Hne) as (c & Hc & Hid & Hfrom).
    destruct (discoveredFrom_fresh _ _ _ Hfrom) as [Herrs Hcoll].
    exists c. by repeat split.
Qed.

(** X12. A pooler is added only after a test connection that worked: a
    record of type pgbouncer that a discovery pass puts under a key that had
    none has a connection string the host accepts. *)
Theorem pooler_record_needs_connection
    (h : Host) (config : Config) (st : State) (id : string) (s : Service) :
  Services st !! id = None ->
  Services (fst (lookupServices h config st)) !! id = Some s ->
  ServiceType (ConnSettings s) = model.ServiceTypePgbouncer ->
  Connects h (Conninfo (ConnSettings s)) = true /\
  exists port, id = "pgbouncer:" +:+ strconv.Itoa port.
Proof.
  intros Hnone Hs Htype.
  destruct (lookupServices_spec h config st) as (Hm & _ & _).
  rewrite Hm in Hs.
  destruct (addAll_lookup (discovered h config) (Services st) id)
    as [Heq | (c & Hin & Hid & Hc)]; [congruence|].
  rewrite Hs in Hc. injection Hc as <-.
  apply discovered_from in Hin.
  destruct Hin as (p & proc & cp & _ & [(_ & _ & _ & ->) | (_ & _ & Hconn & ->)]).
  - discriminate Htype.
  - split; [exact Hconn|]. exists (listenPort cp). by rewrite <- Hid.
Qed.

Lemma pooler_record_needs_connection_witness :
  Connects (hostS5 true)
    "application_name=pgscv host=127.0.0.1 port=16432 user=pgscv dbname=pgbouncer"
  = true.
Proof.
  refine (proj1 (pooler_record_needs_connection (hostS5 true) configS1
            (startDiscovery NewRepository) "pgbouncer:16432"
            (pgbouncerService 16432
               "application_name=pgscv host=127.0.0.1 port=16432 user=pgscv dbname=pgbouncer")
            _ _ _)); vm_compute; reflexivity.
Defined.

Lemma addAll_app cs1 cs2 m : addAll (cs1 ++ cs2) m = addAll cs2 (addAll cs1 m).
Proof. unfold addAll. apply foldl_app. Qed.



(** *** The services of the configuration *)

Lemma configured_key_differs t host port :
  t +:+ ":" +:+ strconv.Itoa port
  <> strings.Join [t; host; strconv.Itoa port] ":".
Proof.
  intros H. apply (f_equal (countByte ":"%char)) in H. revert H. simpl.
  rewrite !countByte_app, Itoa_colons. simpl. lia.
Qed.

Lemma addServiceFromConfig_lookup h cs (m : gmap string Service) id :
  addServiceFromConfig h cs m !! id = m !! id \/
  exists host port,
    ParseConfig h (Conninfo cs) = Some (host, port) /\
    Connects h (Conninfo cs) = true /\
    id = strings.Join [ServiceType cs; host; strconv.Itoa port] ":" /\
    addServiceFromConfig h cs m !! id = Some (configuredService cs port).
Proof.
  unfold addServiceFromConfig.
  destruct (ParseConfig h (Conninfo cs)) as [[host port]|]; [|by left].
  destruct (Connects h (Conninfo cs)); simpl; [|by left].
  unfold addService.
  destruct (decide (strings.Join [ServiceType cs; host; strconv.Itoa port] ":"
                    = id)) as [<-|Hne].
  - right. exists host, port. rewrite lookup_insert_eq. by repeat split.
  - left. by rewrite lookup_insert_ne.
Qed.

Lemma addServicesFromConfig_fold h settings : forall (m : gmap string Service) id,
  foldl (fun m cs => addServiceFromConfig h cs m) m settings !! id = m !! id \/
  exists cs host port,
    cs ∈ settings /\
    ParseConfig h (Conninfo cs) = Some (host, port) /\
    Connects h (Conninfo cs) = true /\
    id = strings.Join [ServiceType cs; host; strconv.Itoa port] ":" /\
    foldl (fun m cs => addServiceFromConfig h cs m) m settings !! id
      = Some (configuredService cs port).
Proof.
  induction settings as [|cs settings IH]; intros m id; [by left|]. simpl.
  destruct (IH (addServiceFromConfig h cs m) id)
    as [Heq | (cs' & host & port & Hin & Hp & Hc & Hid & Hl)].
  - rewrite Heq.
    destruct (addServiceFromConfig_lookup h cs m id)
      as [Hm | (host & port & Hp & Hc & Hid & Hl)]; [by left|].
    right. exists cs, host, port.
    split; [apply list_elem_of_here | by repeat split].
  - right. exists cs', host, port.
    split; [by apply list_elem_of_further | by repeat split].
Qed.



(** ** Collector attachment *)

(** The body of the loop, by what the record wants. *)
Lemma setupService_cases h config id st :
  setupService h config id st =
    if wantsCollector h (getService id (Services st))
    then attachCollector h id (getService id (Services st)) st
    else (st, Ok tt).
Proof.
  unfold setupService, wantsCollector, hasFactory.
  destruct (Collector _); [reflexivity|].
  destruct (getService id (Services st)) as [sid [type conninfo] c n]. simpl.
  case_bool_decide as Hsys; simpl; [reflexivity|].
  case_bool_decide as Hpg; simpl.
  - destruct (PostgresServiceConfigOk h conninfo); simpl; [reflexivity|].
    rewrite bool_decide_eq_false_2; [reflexivity|]. by subst type.
  - by case_bool_decide.
Qed.

(** A record that wants a collector is in the repository. *)
Lemma wantsCollector_present h (m : gmap string Service) id :
  wantsCollector h (getService id m) = true -> m !! id = Some (getService id m).
Proof.
  unfold getService. destruct (m !! id) as [s|]; [reflexivity|].
  vm_compute. discriminate.
Qed.

(** What one attachment does to the state. *)
Lemma attachCollector_cases h id s st :
  attachCollector h id s st = (st, Err (ErrCollector (ServiceID s))) /\
    PgscvCollectorOk h (ServiceID s) = false \/
  attachCollector h id s st = (st, Panic) /\
    RegisterOk h (Registerer st) (ServiceID s) = false \/
  attachCollector h id s st =
    ({| Services := <[id := withCollector (Some (nextRef st)) s]> (Services st);
        Registerer := {[nextRef st]} ∪ Registerer st;
        nextRef := S (nextRef st);
        trace := trace st |}, Ok tt).
Proof.
  unfold attachCollector, addService.
  destruct (PgscvCollectorOk h _); simpl; [|by left].
  destruct (RegisterOk h _ _); simpl; [by right; right | by right; left].
Qed.

Lemma setupService_step h config id st :
  (fst (setupService h config id st) = st /\
   (snd (setupService h config id st) = Ok tt ->
    wantsCollector h (getService id (Services st)) = false) /\
   (forall e, snd (setupService h config id st) = Err e ->
      exists sid, e = ErrCollector sid /\ PgscvCollectorOk h sid = false)) \/
  (snd (setupService h config id st) = Ok tt /\
   attached id st (fst (setupService h config id st))).
Proof.
  rewrite setupService_cases.
  destruct (wantsCollector h _) eqn:Hw.
  - pose proof (wantsCollector_present _ _ _ Hw) as Hs.
    destruct (attachCollector_cases h id (getService id (Services st)) st)
      as [[-> Hc] | [[-> Hr] | ->]].
    + left. split; [reflexivity|]. split; [discriminate|].
      intros e [= <-]. eauto.
    + left. split; [reflexivity|]. split; discriminate.
    + right. split; [reflexivity|]. eexists. split; [exact Hs|].
      split; [|by repeat split].
      unfold wantsCollector in Hw. by destruct (Collector _).
  - left. split; [reflexivity|]. split; [done | discriminate].
Qed.

Lemma onlyAttaches_refl st : onlyAttaches st st.
Proof.
  repeat split; try done. intros id s' Hs. exists s'.
  split; [exact Hs|]. split; [apply sameService_refl | by left].
Qed.

Lemma onlyAttaches_trans st1 st2 st3 :
  onlyAttaches st1 st2 -> onlyAttaches st2 st3 -> onlyAttaches st1 st3.
Proof.
  intros (Hd1 & Hr1 & Hn1 & Ht1 & Hk1 & Hb1) (Hd2 & Hr2 & Hn2 & Ht2 & Hk2 & Hb2).
  split; [congruence|]. split; [by transitivity (Registerer st2)|].
  split; [lia|]. split; [congruence|]. split.
  - intros id s c Hs Hc. eapply Hk2; [|exact Hc]. eapply Hk1; eauto.
  - intros id s3 Hs3. destruct (Hb2 id s3 Hs3) as (s2 & Hs2 & Hsame2 & Hc2).
    destruct (Hb1 id s2 Hs2) as (s1 & Hs1 & Hsame1 & Hc1).
    exists s1. split; [exact Hs1|].
    split; [eapply sameService_trans; eassumption|].
    destruct Hc1 as [Hc1 | (Hnone & c & Hc & Hrange & Hin)].
    + destruct Hc2 as [Hc2 | (Hnone & c & Hc & Hrange & Hin)].
      * left. congruence.
      * right. split; [congruence|]. exists c. repeat split; try done; lia.
    + right. split; [exact Hnone|]. exists c.
      destruct Hc2 as [Hc2 | (Hnone2 & _)]; [|congruence].
      split; [congruence|]. split; [lia|]. by apply Hr2.
Qed.

Lemma attached_onlyAttaches id st st' : attached id st st' -> onlyAttaches st st'.
Proof.
  intros (s & Hs & Hc & Hm & Hr & Hn & Ht).
  split; [|split; [|split; [|split; [|split]]]].
  - rewrite Hm. apply dom_insert_lookup_L. by rewrite Hs.
  - rewrite Hr. apply union_subseteq_r.
  - lia.
  - exact Ht.
  - intros id' s0 c Hs0 Hc0. rewrite Hm.
    destruct (decide (id = id')) as [<-|Hne]; [congruence|].
    by rewrite lookup_insert_ne.
  - intros id' s' Hs'. rewrite Hm in Hs'.
    destruct (decide (id = id')) as [<-|Hne].
    + rewrite lookup_insert_eq in Hs'. injection Hs' as <-.
      exists s. split; [exact Hs|]. split; [by repeat split|].
      right. split; [exact Hc|]. exists (nextRef st). simpl.
      split; [reflexivity|]. split; [lia|]. rewrite Hr.
      apply elem_of_union_l. by apply elem_of_singleton.
    + rewrite lookup_insert_ne in Hs' by exact Hne.
      exists s'. split; [exact Hs'|]. split; [apply sameService_refl | by left].
Qed.

Lemma setupService_onlyAttaches h config id st :
  onlyAttaches st (fst (setupService h config id st)).
Proof.
  destruct (setupService_step h config id st) as [(-> & _) | (_ & Ha)];
    [apply onlyAttaches_refl | by eapply attached_onlyAttaches].
Qed.

Lemma setupLoop_onlyAttaches h config ids : forall st,
  onlyAttaches st (fst (setupLoop h config ids st)).
Proof.
  induction ids as [|id ids IH]; intros st; simpl; [apply onlyAttaches_refl|].
  unfold bind. pose proof (setupService_onlyAttaches h config id st) as H1.
  destruct (setupService h config id st) as [st' [[]|e|]]; simpl in *;
    [|exact H1..].
  eapply onlyAttaches_trans; [exact H1 | apply IH].
Qed.

Lemma setupLoop_error h config ids : forall st e,
  snd (setupLoop h config ids st) = Err e ->
  exists sid, e = ErrCollector sid /\ PgscvCollectorOk h sid = false.
Proof.
  induction ids as [|id ids IH]; intros st e; simpl; [discriminate|].
  unfold bind.
  destruct (setupService_step h config id st) as [(_ & _ & He) | (Hok & _)].
  - destruct (setupService h config id st) as [st' [[]|e'|]]; simpl in *.
    + apply IH.
    + intros [= <-]. by apply He.
    + discriminate.
  - destruct (setupService h config id st) as [st' [[]|e'|]]; simpl in *;
      try discriminate. apply IH.
Qed.

(** X15. Collector attachment only attaches: the keys, the trace and every
    record that has a collector stay as they are; a record changes in its
    collector only, from none to a fresh one that is registered; the
    registerer only grows.  An error of the pass is the error of a collector
    that could not be made. *)
Theorem setup_only_attaches
    (h : Host) (config : Config) (ids : list string) (st : State) :
  onlyAttaches st (fst (setupServices h config ids st)) /\
  forall e, snd (setupServices h config ids st) = Err e ->
    exists sid, e = ErrCollector sid /\ PgscvCollectorOk h sid = false.
Proof.
  split; [apply setupLoop_onlyAttaches | apply setupLoop_error].
Qed.

(** *** A pass that ended well has nothing left to do *)

Lemma wantsCollector_kept h st st' id :
  onlyAttaches st st' ->
  wantsCollector h (getService id (Services st)) = false ->
  wantsCollector h (getService id (Services st')) = false.
Proof.
  intros (Hd & _ & _ & _ & Hk & Hb). unfold getService.
  destruct (Services st' !! id) as [s'|] eqn:Hs'; simpl.
  - destruct (Hb id s' Hs') as (s & -> & (_ & Hcs & _) & Hc). simpl.
    unfold wantsCollector, hasFactory. rewrite Hcs.
    destruct Hc as [-> | (_ & c & -> & _)]; [done | by intros _].
  - intros _. vm_compute. reflexivity.
Qed.

Lemma setupService_done h config id st :
  snd (setupService h config id st) = Ok tt ->
  wantsCollector h
    (getService id (Services (fst (setupService h config id st)))) = false.
Proof.
  destruct (setupService_step h config id st)
    as [(-> & Hw & _) | (_ & s & _ & _ & -> & _)]; [exact Hw|].
  intros _. unfold getService. rewrite lookup_insert_eq. reflexivity.
Qed.

Lemma setupLoop_done h config ids : forall st,
  snd (setupLoop h config ids st) = Ok tt ->
  Forall (fun id =>
            wantsCollector h
              (getService id (Services (fst (setupLoop h config ids st))))
            = false) ids.
Proof.
  induction ids as [|id ids IH]; intros st; simpl; [intros _; apply Forall_nil_2|].
  unfold bind. pose proof (setupService_done h config id st) as Hd.
  destruct (setupService h config id st) as [st' [[]|e|]]; simpl in *;
    try discriminate.
  intros Hok. apply Forall_cons_2; [|by apply IH].
  eapply wantsCollector_kept; [apply setupLoop_onlyAttaches | by apply Hd].
Qed.

Lemma setupLoop_nothing h config ids : forall st,
  Forall (fun id => wantsCollector h (getService id (Services st)) = false) ids ->
  setupLoop h config ids st = (st, Ok tt).
Proof.
  induction ids as [|id ids IH]; intros st Hall; simpl; [reflexivity|].
  apply Forall_cons in Hall as [Hid Hall].
  unfold bind. rewrite setupService_cases, Hid. by apply IH.
Qed.



(** ** The collectors and the registerer *)

(** The registerer and the collector addresses after one health check. *)
Lemma healthcheckService_registerer_eq h id st :
  Registerer (healthcheckService h id st) =
    match healthRecord h (getService id (Services st)),
          Collector (getService id (Services st)) with
    | None, Some c => Registerer st ∖ {[c]}
    | _, _ => Registerer st
    end /\
  nextRef (healthcheckService h id st) = nextRef st.
Proof.
  unfold healthcheckService, healthRecord, isRemote, attemptConnect,
    getServiceStatus.
  set (s := getService id (Services st)).
  destruct (_ || _); [|by destruct (Collector s)].
  destruct (Connects h _); simpl; [by destruct (Collector s)|].
  destruct (_ <? _); simpl; [by destruct (Collector s)|].
  fold s. by destruct (Collector s).
Qed.

(** A state whose records hold no collector that those of [st] do not hold
    under the same key, with at least the registerer of [st]. *)
Lemma collectorsRegistered_sub st st' :
  (forall id s c,
     Services st' !! id = Some s -> Collector s = Some c ->
     exists s0, Services st !! id = Some s0 /\ Collector s0 = Some c) ->
  Registerer st ⊆ Registerer st' ->
  (nextRef st <= nextRef st')%nat ->
  collectorsRegistered st -> collectorsRegistered st'.
Proof.
  intros Hsub Hr Hn [Hreg Hinj]. split.
  - intros id s c Hs Hc. destruct (Hsub id s c Hs Hc) as (s0 & Hs0 & Hc0).
    destruct (Hreg id s0 c Hs0 Hc0) as [Hin Hlt]. split; [by apply Hr | lia].
  - intros id1 id2 s1 s2 c Hs1 Hs2 Hc1 Hc2.
    destruct (Hsub id1 s1 c Hs1 Hc1) as (r1 & Hr1 & Hd1).
    destruct (Hsub id2 s2 c Hs2 Hc2) as (r2 & Hr2 & Hd2).
    by apply (Hinj id1 id2 r1 r2 c).
Qed.

Lemma startDiscovery_collectors st :
  collectorsRegistered st -> collectorsRegistered (startDiscovery st).
Proof.
  apply collectorsRegistered_sub; [|done..].
  intros id s c Hs Hc. revert c Hc.
  apply (startDiscovery_records
           (fun id s => forall c, Collector s = Some c ->
              exists s0, Services st !! id = Some s0 /\ Collector s0 = Some c)
           st); [discriminate | eauto | exact Hs].
Qed.

Lemma addServicesFromConfig_collectors h config st :
  collectorsRegistered st ->
  collectorsRegistered (addServicesFromConfig h config st).
Proof.
  apply collectorsRegistered_sub.
  - intros id s c Hs Hc. revert c Hc.
    apply (addServicesFromConfig_records
             (fun id s => forall c, Collector s = Some c ->
                exists s0, Services st !! id = Some s0 /\ Collector s0 = Some c)
             h config st); [discriminate | discriminate | eauto | exact Hs].
  - unfold addServicesFromConfig. by destruct (ConfigConnSettings config).
  - unfold addServicesFromConfig. by destruct (ConfigConnSettings config).
Qed.

Lemma lookupServices_collectors h config st :
  collectorsRegistered st ->
  collectorsRegistered (fst (lookupServices h config st)).
Proof.
  destruct (lookupServices_spec h config st) as (Hs & Hg & Hn).
  apply collectorsRegistered_sub; [|by rewrite Hg | by rewrite Hn].
  intros id s c Hl Hc. rewrite Hs in Hl.
  destruct (addAll_lookup (discovered h config) (Services st) id)
    as [Heq | (c0 & Hin & _ & Hc0)].
  - rewrite Heq in Hl. eauto.
  - rewrite Hl in Hc0. injection Hc0 as <-.
    apply discovered_from, discoveredFrom_fresh in Hin as [_ Hnone].
    congruence.
Qed.

Lemma attached_collectors id st st' :
  attached id st st' -> collectorsRegistered st -> collectorsRegistered st'.
Proof.
  intros (s & Hs & Hc & Hm & Hr & Hn & _) [Hreg Hinj].
  assert (Hold : forall id' s' c,
            Services st' !! id' = Some s' -> Collector s' = Some c ->
            (id' = id /\ c = nextRef st) \/
            (id' <> id /\ Services st !! id' = Some s')).
  { intros id' s' c Hs' Hc'. rewrite Hm in Hs'.
    destruct (decide (id = id')) as [<-|Hne].
    - rewrite lookup_insert_eq in Hs'. injection Hs' as <-.
      simpl in Hc'. injection Hc' as <-. by left.
    - rewrite lookup_insert_ne in Hs' by exact Hne. right. by split. }
  split.
  - intros id' s' c Hs' Hc'. rewrite Hr, Hn.
    destruct (Hold id' s' c Hs' Hc') as [[-> ->] | [_ Hs0]].
    + split; [|lia]. apply elem_of_union_l. by apply elem_of_singleton.
    + destruct (Hreg id' s' c Hs0 Hc') as [Hin Hlt].
      split; [by apply elem_of_union_r | lia].
  - intros id1 id2 s1 s2 c Hs1 Hs2 Hc1 Hc2.
    pose proof (Hold id1 s1 c Hs1 Hc1) as [[H1 E1] | [Hne1 Hr1]];
      pose proof (Hold id2 s2 c Hs2 Hc2) as [[H2 E2] | [Hne2 Hr2]].
    + congruence.
    + destruct (Hreg id2 s2 c Hr2 Hc2) as [_ Hlt]. lia.
    + destruct (Hreg id1 s1 c Hr1 Hc1) as [_ Hlt]. lia.
    + by apply (Hinj id1 id2 s1 s2 c).
Qed.

Lemma setupService_collectors h config id st :
  collectorsRegistered st ->
  collectorsRegistered (fst (setupService h config id st)).
Proof.
  destruct (setupService_step h config id st) as [(-> & _) | (_ & Ha)];
    [done | by apply (attached_collectors id)].
Qed.

Lemma setupServices_collectors h config ids : forall st,
  collectorsRegistered st ->
  collectorsRegistered (fst (setupServices h config ids st)).
Proof.
  unfold setupServices.
  induction ids as [|id ids IH]; intros st Hc; simpl; [exact Hc|].
  unfold bind. pose proof (setupService_collectors h config id st Hc) as H1.
  destruct (setupService h config id st) as [st' [[]|e|]]; simpl in *;
    [by apply IH | exact H1..].
Qed.

(** What is under a key after one health check, by what was there. *)
Lemma healthcheckService_record h id st id' s' :
  Services (healthcheckService h id st) !! id' = Some s' ->
  exists s, Services st !! id' = Some s /\ Collector s' = Collector s /\
            (id' = id -> healthRecord h s = Some s').
Proof.
  destruct (decide (id = id')) as [<-|Hne].
  - rewrite healthcheckService_lookup.
    destruct (Services st !! id) as [s|]; simpl; [|discriminate].
    intros Hr. exists s. split; [reflexivity|].
    split; [by apply (healthRecord_same h) | done].
  - rewrite healthcheckService_lookup_ne by exact Hne. intros Hs.
    exists s'. split; [exact Hs|]. split; [reflexivity | congruence].
Qed.

Lemma healthcheckService_collectors h id st :
  collectorsRegistered st -> collectorsRegistered (healthcheckService h id st).
Proof.
  intros [Hreg Hinj].
  destruct (healthcheckService_registerer_eq h id st) as [Hr Hn].
  split.
  - intros id' s' c Hs' Hc'.
    destruct (healthcheckService_record h id st id' s' Hs')
      as (s & Hs & Hcs & Hrec).
    rewrite Hcs in Hc'. destruct (Hreg id' s c Hs Hc') as [Hin Hlt].
    split; [|by rewrite Hn]. rewrite Hr.
    destruct (healthRecord h (getService id (Services st))) eqn:Hh; [exact Hin|].
    destruct (Collector (getService id (Services st))) as [c0|] eqn:Hc0;
      [|exact Hin].
    apply elem_of_difference. split; [exact Hin|].
    rewrite not_elem_of_singleton. intros ->.
    unfold getService in Hh, Hc0.
    destruct (Services st !! id) as [s0|] eqn:Hs0; simpl in *; [|discriminate].
    pose proof (Hinj id' id s s0 c0 Hs Hs0 Hc' Hc0) as ->.
    rewrite Hs0 in Hs. injection Hs as ->.
    rewrite (Hrec eq_refl) in Hh. discriminate.
  - intros id1 id2 s1 s2 c Hs1 Hs2 Hc1 Hc2.
    destruct (healthcheckService_record h id st id1 s1 Hs1) as (r1 & Hr1 & Hd1 & _).
    destruct (healthcheckService_record h id st id2 s2 Hs2) as (r2 & Hr2 & Hd2 & _).
    apply (Hinj id1 id2 r1 r2 c); congruence.
Qed.

Lemma healthcheckServices_collectors h ids st :
  collectorsRegistered st -> collectorsRegistered (healthcheckServices h ids st).
Proof.
  apply (healthcheckServices_preserves h collectorsRegistered ids).
  intros id st0. apply healthcheckService_collectors.
Qed.

Lemma NewRepository_collectors : collectorsRegistered NewRepository.
Proof.
  split.
  - intros id s c Hs. simpl in Hs. by rewrite lookup_empty in Hs.
  - intros id1 id2 s1 s2 c Hs. simpl in Hs. by rewrite lookup_empty in Hs.
Qed.

(** X17. In every state of the supervisor, a collector that a record holds
    is registered, and no two records hold the same collector: the collector
    that a tenth failed health check unregisters is that of the removed
    record only. *)
Theorem collectors_are_registered (config : Config) (st : State) :
  reachable config st -> collectorsRegistered st.
Proof.
  induction 1 as [|h|st _ IH|h st _ IH|h st _ IH|h ids st _ IH _|h ids st _ IH _].
  - apply startDiscovery_collectors, NewRepository_collectors.
  - apply addServicesFromConfig_collectors, NewRepository_collectors.
  - by apply startDiscovery_collectors.
  - by apply addServicesFromConfig_collectors.
  - by apply lookupServices_collectors.
  - by apply setupServices_collectors.
  - by apply healthcheckServices_collectors.
Qed.

Lemma collectors_are_registered_witness :
  collectorsRegistered
    (fst (setupServices (hostS1 true) configS1
            (getServiceIDs (Services stateS1)) stateS1)).
Proof.
  apply (collectors_are_registered configS1).
  apply reach_setup; [|apply isServiceIDs_getServiceIDs].
  apply reach_lookup, reach_start.
Defined.

(** *** No collector is left behind *)

Lemma lookupServices_keeps_records h config st id s :
  keyedByID st ->
  Services st !! id = Some s ->
  Services (fst (lookupServices h config st)) !! id = Some s.
Proof.
  intros Hk Hs. destruct (lookupServices_spec h config st) as (-> & _ & _).
  destruct (Hk id s Hs) as [Hid | Hcolons].
  - by apply addAll_keeps_record.
  - destruct (addAll_lookup (discovered h config) (Services st) id)
      as [-> | (c & Hin & Hid & _)]; [exact Hs|].
    apply discovered_from, discoveredFrom_colons in Hin.
    rewrite Hid in Hin. lia.
Qed.

Lemma lookupServices_noLeak h config st :
  keyedByID st -> noLeak st -> noLeak (fst (lookupServices h config st)).
Proof.
  intros Hk Hl c Hc.
  destruct (lookupServices_spec h config st) as (_ & Hg & _).
  rewrite Hg in Hc. destruct (Hl c Hc) as (id & s & Hs & Hcs).
  exists id, s. split; [by apply lookupServices_keeps_records | exact Hcs].
Qed.

Lemma attached_noLeak id st st' : attached id st st' -> noLeak st -> noLeak st'.
Proof.
  intros (s & Hs & Hc & Hm & Hr & _) Hl c Hin. rewrite Hr in Hin.
  apply elem_of_union in Hin as [->%elem_of_singleton | Hin].
  - exists id, (withCollector (Some (nextRef st)) s).
    split; [by rewrite Hm, lookup_insert_eq | reflexivity].
  - destruct (Hl c Hin) as (id0 & s0 & Hs0 & Hc0). exists id0, s0.
    split; [|exact Hc0]. rewrite Hm.
    destruct (decide (id = id0)) as [<-|Hne]; [congruence|].
    by rewrite lookup_insert_ne.
Qed.

Lemma setupServices_noLeak h config ids : forall st,
  noLeak st -> noLeak (fst (setupServices h config ids st)).
Proof.
  unfold setupServices.
  induction ids as [|id ids IH]; intros st Hl; simpl; [exact Hl|].
  unfold bind.
  assert (H1 : noLeak (fst (setupService h config id st))).
  { destruct (setupService_step h config id st) as [(-> & _) | (_ & Ha)];
      [done | by apply (attached_noLeak id st)]. }
  destruct (setupService h config id st) as [st' [[]|e|]]; simpl in *;
    [by apply IH | exact H1..].
Qed.

Lemma healthcheckService_noLeak h id st :
  noLeak st -> noLeak (healthcheckService h id st).
Proof.
  intros Hl c Hin.
  destruct (healthcheckService_registerer_eq h id st) as [Hr _].
  assert (Hc : c ∈ Registerer st) by by apply (healthcheckService_registerer h id).
  destruct (Hl c Hc) as (id0 & s0 & Hs0 & Hc0).
  destruct (decide (id = id0)) as [<-|Hne].
  - rewrite Hr, (getService_Some _ _ _ Hs0), Hc0 in Hin.
    destruct (healthRecord h s0) as [s'|] eqn:Hh.
    + exists id, s'. rewrite healthcheckService_lookup, Hs0. simpl.
      split; [exact Hh|]. apply (healthRecord_same h) in Hh as (_ & _ & ->).
      exact Hc0.
    + apply elem_of_difference in Hin as [_ Hne].
      by rewrite not_elem_of_singleton in Hne.
  - exists id0, s0. by rewrite healthcheckService_lookup_ne.
Qed.

Lemma healthcheckServices_noLeak h ids st :
  noLeak st -> noLeak (healthcheckServices h ids st).
Proof.
  apply (healthcheckServices_preserves h noLeak ids).
  intros id st0. apply healthcheckService_noLeak.
Qed.

Lemma run_keeps config ops : forall st,
  keyedByID st /\ collectorsRegistered st /\ noLeak st ->
  keyedByID (run config ops st) /\ collectorsRegistered (run config ops st) /\
  noLeak (run config ops st).
Proof.
  induction ops as [|o ops IH]; intros st H; [exact H|].
  destruct H as (Hk & Hc & Hl).
  change (run config (o :: ops) st) with (run config ops (runOp config o st)).
  apply IH. destruct o as [h|h ids|h ids]; simpl.
  - split; [by apply lookupServices_keyedByID|].
    split; [by apply lookupServices_collectors | by apply lookupServices_noLeak].
  - split; [by apply setupServices_keyedByID|].
    split; [by apply setupServices_collectors | by apply setupServices_noLeak].
  - split; [apply (healthcheckServices_preserves h keyedByID ids);
             [intros ? ?; apply healthcheckService_keyedByID | exact Hk]|].
    split; [by apply healthcheckServices_collectors
           | by apply healthcheckServices_noLeak].
Qed.

(** X18. Along any run of discovery passes, collector attachments and health
    checks from the start of the supervisor, the registerer holds exactly the
    collectors of the records of the repository: removing a service
    unregisters its collector, and nothing else loses or leaves one. *)
Theorem registerer_is_what_records_hold
    (config : Config) (ops : list op) (st0 : State) (c : CollectorRef) :
  st0 = startDiscovery NewRepository \/
  (exists h, st0 = addServicesFromConfig h config NewRepository) ->
  c ∈ Registerer (run config ops st0) <->
  holdsCollector (Services (run config ops st0)) c.
Proof.
  intros Hstart.
  assert (H0 : keyedByID st0 /\ collectorsRegistered st0 /\ noLeak st0).
  { destruct NewRepository_invariants as [Hk _].
    destruct Hstart as [-> | [h ->]].
    - split; [by apply startDiscovery_keyedByID|].
      split; [apply startDiscovery_collectors, NewRepository_collectors|].
      intros c0 Hc0. by apply elem_of_empty in Hc0.
    - split; [by apply addServicesFromConfig_keyedByID|].
      split; [apply addServicesFromConfig_collectors, NewRepository_collectors|].
      intros c0. unfold addServicesFromConfig.
      destruct (ConfigConnSettings config); simpl; intros Hc0;
        by apply elem_of_empty in Hc0. }
  destruct (run_keeps config ops st0 H0) as (_ & [Hreg _] & Hl).
  split; [apply Hl|].
  intros (id & s & Hs & Hc). by destruct (Hreg id s c Hs Hc).
Qed.

Lemma registerer_is_what_records_hold_witness :
  holdsCollector
    (Services (run configS1
                 (Lookup (hostS1 true) :: Setup (hostS1 true) idsS1 :: opsS3)
                 (startDiscovery NewRepository)))
    0%nat.
Proof.
  apply (registerer_is_what_records_hold configS1
           (Lookup (hostS1 true) :: Setup (hostS1 true) idsS1 :: opsS3)
           (startDiscovery NewRepository) 0%nat); [by left|].
  by_evaluation.
Defined.

(** ** The health check as a whole *)

Lemma healthcheckService_evicts h id st :
  Registerer (healthcheckService h id st)
  = Registerer st ∖ evictedBy h id (Services st).
Proof.
  destruct (healthcheckService_registerer_eq h id st) as [-> _].
  unfold evictedBy.
  destruct (healthRecord h _); [by rewrite difference_empty_L|].
  destruct (Collector _); [reflexivity | by rewrite difference_empty_L].
Qed.

Lemma healthcheckService_events h id st :
  trace (healthcheckService h id st)
  = healthEvents h id (Services st) ++ trace st.
Proof.
  unfold healthcheckService, healthEvents, isRemote, attemptConnect,
    getServiceStatus.
  set (s := getService id (Services st)).
  destruct (_ || _); [|reflexivity].
  destruct (Connects h _); simpl; [reflexivity|].
  destruct (_ <? _); simpl; [reflexivity|].
  fold s. by destruct (Collector s).
Qed.

(** One health check is a function of the repository. *)
Lemma healthcheckService_sameUpToOrder h id st1 st2 :
  sameUpToOrder st1 st2 ->
  sameUpToOrder (healthcheckService h id st1) (healthcheckService h id st2).
Proof.
  intros [(Hs & Hr & Hn) Ht]. split; [split; [|split]|].
  - by rewrite !healthcheckService_services, Hs.
  - by rewrite !healthcheckService_evicts, Hs, Hr.
  - destruct (healthcheckService_registerer_eq h id st1) as [_ ->].
    destruct (healthcheckService_registerer_eq h id st2) as [_ ->].
    exact Hn.
  - rewrite !healthcheckService_events, Hs. by apply Permutation_app_head.
Qed.

Lemma getService_healthcheck_ne h id id' st :
  id <> id' ->
  getService id' (Services (healthcheckService h id st))
  = getService id' (Services st).
Proof.
  intros Hne. unfold getService.
  by rewrite healthcheckService_lookup_ne.
Qed.

(** Two health checks, in either order. *)
Lemma healthcheckService_comm h id id' st :
  sameUpToOrder (healthcheckService h id (healthcheckService h id' st))
                (healthcheckService h id' (healthcheckService h id st)).
Proof.
  destruct (decide (id = id')) as [<-|Hne]; [by repeat split|].
  assert (Hne' : id' <> id) by congruence.
  split; [split; [|split]|].
  - apply map_eq. intros k.
    destruct (decide (k = id)) as [->|Hk1]; [|destruct (decide (k = id')) as [->|Hk2]].
    + rewrite (healthcheckService_lookup h id (healthcheckService h id' st)).
      rewrite (healthcheckService_lookup_ne h id' id st) by congruence.
      rewrite (healthcheckService_lookup_ne h id' id (healthcheckService h id st))
        by congruence.
      by rewrite healthcheckService_lookup.
    + rewrite (healthcheckService_lookup h id' (healthcheckService h id st)).
      rewrite (healthcheckService_lookup_ne h id id' st) by congruence.
      rewrite (healthcheckService_lookup_ne h id id' (healthcheckService h id' st))
        by congruence.
      by rewrite healthcheckService_lookup.
    + rewrite !healthcheckService_lookup_ne by congruence. reflexivity.
  - rewrite !healthcheckService_evicts. unfold evictedBy.
    rewrite (getService_healthcheck_ne h id id') by congruence.
    rewrite (getService_healthcheck_ne h id' id) by congruence.
    rewrite !difference_difference_l_L. f_equal. apply union_comm_L.
  - destruct (healthcheckService_registerer_eq h id' (healthcheckService h id st))
      as [_ ->].
    destruct (healthcheckService_registerer_eq h id (healthcheckService h id' st))
      as [_ ->].
    destruct (healthcheckService_registerer_eq h id st) as [_ ->].
    destruct (healthcheckService_registerer_eq h id' st) as [_ ->].
    reflexivity.
  - rewrite !healthcheckService_events. unfold healthEvents.
    rewrite (getService_healthcheck_ne h id id') by congruence.
    rewrite (getService_healthcheck_ne h id' id) by congruence.
    rewrite !app_assoc. apply Permutation_app_tail, Permutation_app_comm.
Qed.

Lemma sameUpToOrder_refl st : sameUpToOrder st st.
Proof. by repeat split. Qed.

Lemma sameUpToOrder_trans st1 st2 st3 :
  sameUpToOrder st1 st2 -> sameUpToOrder st2 st3 -> sameUpToOrder st1 st3.
Proof.
  intros [H1 T1] [H2 T2]. split; [by eapply sameRepo_trans|].
  by transitivity (trace st2).
Qed.

Lemma healthcheckServices_sameUpToOrder h ids : forall st1 st2,
  sameUpToOrder st1 st2 ->
  sameUpToOrder (healthcheckServices h ids st1) (healthcheckServices h ids st2).
Proof.
  induction ids as [|id ids IH]; intros st1 st2 H; [exact H|].
  rewrite !healthcheckServices_cons.
  by apply IH, healthcheckService_sameUpToOrder.
Qed.

Lemma healthcheckServices_perm h ids ids' :
  ids ≡ₚ ids' ->
  forall st,
    sameUpToOrder (healthcheckServices h ids st) (healthcheckServices h ids' st).
Proof.
  induction 1 as [|x l l' _ IH|x y l|l l' l'' _ IH1 _ IH2]; intros st.
  - apply sameUpToOrder_refl.
  - rewrite !healthcheckServices_cons. apply IH.
  - rewrite !healthcheckServices_cons.
    apply healthcheckServices_sameUpToOrder, healthcheckService_comm.
  - eapply sameUpToOrder_trans; [apply IH1 | apply IH2].
Qed.

(** X19. The order in which a health check goes through the identifiers
    does not matter: two orders of the same identifiers give the same
    records, the same registerer and the same test connections.  Go's map
    iteration order, which [getServiceIDs] hands on, has no effect on what a
    pass does. *)
Theorem health_check_order_is_irrelevant
    (h : Host) (ids ids' : list string) (st : State) :
  ids ≡ₚ ids' ->
  Services (healthcheckServices h ids' st)
    = Services (healthcheckServices h ids st) /\
  Registerer (healthcheckServices h ids' st)
    = Registerer (healthcheckServices h ids st) /\
  nextRef (healthcheckServices h ids' st)
    = nextRef (healthcheckServices h ids st) /\
  trace (healthcheckServices h ids st)
    ≡ₚ trace (healthcheckServices h ids' st).
Proof.
  intros Hp. destruct (healthcheckServices_perm h ids ids' Hp st)
    as [(Hs & Hr & Hn) Ht].
  by repeat split.
Qed.

Lemma health_check_order_is_irrelevant_witness :
  Services (healthcheckServices (hostS1 false) ["postgres:5432"; "system:0"]
              stateS1)
  = Services (healthcheckServices (hostS1 false) idsS1 stateS1).
Proof.
  apply (health_check_order_is_irrelevant (hostS1 false) idsS1
           ["postgres:5432"; "system:0"] stateS1).
  apply perm_swap.
Defined.

(** *** What a pass does, record by record *)

Lemma healthcheckService_grows h id st :
  traceGrows byHealth st (healthcheckService h id st).
Proof.
  exists (healthEvents h id (Services st)).
  split; [apply healthcheckService_events|].
  unfold healthEvents. by destruct (isRemote _).
Qed.

Lemma healthcheckServices_grows h ids : forall st,
  traceGrows byHealth st (healthcheckServices h ids st).
Proof.
  induction ids as [|id ids IH]; intros st; [apply traceGrows_refl|].
  rewrite healthcheckServices_cons.
  eapply traceGrows_trans; [apply healthcheckService_grows | apply IH].
Qed.

Lemma healthcheckServices_nextRef h ids : forall st,
  nextRef (healthcheckServices h ids st) = nextRef st.
Proof.
  induction ids as [|id ids IH]; intros st; [reflexivity|].
  rewrite healthcheckServices_cons, IH.
  apply healthcheckService_registerer_eq.
Qed.

Lemma healthcheckServices_registerer_iff h ids : forall st c,
  NoDup ids ->
  c ∈ Registerer (healthcheckServices h ids st) <->
  c ∈ Registerer st /\
  ~ exists id s,
      id ∈ ids /\ Services st !! id = Some s /\
      healthRecord h s = None /\ Collector s = Some c.
Proof.
  induction ids as [|a ids IH]; intros st c Hnd.
  - simpl. split; [|by intros [H _]].
    intros H. split; [exact H|]. intros (id & s & Hin & _).
    by apply elem_of_nil in Hin.
  - apply NoDup_cons in Hnd as [Ha Hnd].
    rewrite healthcheckServices_cons, (IH _ _ Hnd), healthcheckService_evicts.
    rewrite elem_of_difference.
    assert (Hev : c ∈ evictedBy h a (Services st) <->
                  exists s, Services st !! a = Some s /\
                            healthRecord h s = None /\ Collector s = Some c).
    { unfold evictedBy, getService.
      destruct (Services st !! a) as [s|] eqn:Hs; simpl.
      - destruct (healthRecord h s) eqn:Hr.
        + rewrite elem_of_empty. split; [done|].
          intros (s' & Hs' & Hr' & _). congruence.
        + destruct (Collector s) as [c0|] eqn:Hc.
          * rewrite elem_of_singleton. split.
            -- intros ->. by exists s.
            -- intros (s' & Hs' & _ & Hc'). congruence.
          * rewrite elem_of_empty. split; [done|].
            intros (s' & Hs' & _ & Hc'). congruence.
      - change (healthRecord h zeroService) with (Some zeroService). simpl.
        rewrite elem_of_empty. split; [done|].
        intros (s' & Hs' & _). discriminate. }
    split.
    + intros [[Hc Hn] Hrest]. split; [exact Hc|].
      intros (id & s & Hin & Hs & Hr & Hcs).
      apply elem_of_cons in Hin as [->|Hin].
      * apply Hn, Hev. by exists s.
      * apply Hrest. exists id, s. split; [exact Hin|].
        rewrite healthcheckService_lookup_ne by (intros ->; contradiction).
        by repeat split.
    + intros [Hc Hn]. split; [split; [exact Hc|]|].
      * intros (s & Hs & Hr & Hcs)%Hev. apply Hn. exists a, s.
        split; [apply list_elem_of_here | by repeat split].
      * intros (id & s & Hin & Hs & Hr & Hcs).
        rewrite healthcheckService_lookup_ne in Hs by (intros ->; contradiction).
        apply Hn. exists id, s.
        split; [by apply list_elem_of_further | by repeat split].
Qed.

(** X20. A health check over identifiers without repetition, as
    [getServiceIDs] gives them: each record among them becomes what
    [healthRecord] makes of it and every other key reads as before, so no
    record is added; the registerer loses exactly the collectors of the
    records removed; no collector address is handed out; and the only test
    connections made are those of the health check.  A record that is not
    remote or that answers stays as it is; a remote record that does not
    answer counts one failure more while it has fewer than 9, with its other
    fields as they were, and is removed when it has 9. *)
Theorem health_check_by_record (h : Host) (ids : list string) (st : State) :
  NoDup ids ->
  (forall id,
     Services (healthcheckServices h ids st) !! id =
       if bool_decide (id ∈ ids) then Services st !! id ≫= healthRecord h
       else Services st !! id) /\
  dom (Services (healthcheckServices h ids st)) ⊆ dom (Services st) /\
  (forall c,
     c ∈ Registerer (healthcheckServices h ids st) <->
     c ∈ Registerer st /\
     ~ exists id s,
         id ∈ ids /\ Services st !! id = Some s /\
         healthRecord h s = None /\ Collector s = Some c) /\
  nextRef (healthcheckServices h ids st) = nextRef st /\
  traceGrows byHealth st (healthcheckServices h ids st) /\
  (forall id s,
     id ∈ ids -> Services st !! id = Some s ->
     (isRemote s = false \/ Connects h (Conninfo (ConnSettings s)) = true ->
      Services (healthcheckServices h ids st) !! id = Some s) /\
     (isRemote s = true ->
      Connects h (Conninfo (ConnSettings s)) = false ->
      0 <= TotalErrors s <= 9 ->
      if TotalErrors s <? 9
      then exists s',
             Services (healthcheckServices h ids st) !! id = Some s' /\
             TotalErrors s' = TotalErrors s + 1 /\
             ServiceID s' = ServiceID s /\
             ConnSettings s' = ConnSettings s /\
             Collector s' = Collector s
      else Services (healthcheckServices h ids st) !! id = None)).
Proof.
  intros Hnd.
  assert (Hmap : forall id,
            Services (healthcheckServices h ids st) !! id =
              if bool_decide (id ∈ ids) then Services st !! id ≫= healthRecord h
              else Services st !! id).
  { intros id. case_bool_decide as Hin.
    - by apply healthcheckServices_lookup_in.
    - by apply healthcheckServices_lookup_notin. }
  split; [exact Hmap|]. split; [|split; [|split; [|split]]].
  - intros id. rewrite !elem_of_dom, Hmap.
    destruct (bool_decide (id ∈ ids)); [|done].
    destruct (Services st !! id); simpl; [eauto | by intros [? [=]]].
  - intros c. by apply healthcheckServices_registerer_iff.
  - apply healthcheckServices_nextRef.
  - apply healthcheckServices_grows.
  - intros id s Hin Hs.
    rewrite Hmap, (bool_decide_eq_true_2 _ Hin), Hs. simpl. split.
    + intros [Hrem | Hconn]; [|by apply healthRecord_success].
      unfold healthRecord. by rewrite Hrem.
    + intros Hrem Hconn Hrange.
      rewrite healthRecord_failure by (unfold errorThreshold; auto with zarith).
      unfold errorThreshold.
      destruct (TotalErrors s <? 9) eqn:Hlt.
      * apply Z.ltb_lt in Hlt.
        destruct (TotalErrors s + 1 <? 10) eqn:Hlt'; [|apply Z.ltb_ge in Hlt'; lia].
        eexists. split; [reflexivity|]. by repeat split.
      * apply Z.ltb_ge in Hlt.
        destruct (TotalErrors s + 1 <? 10) eqn:Hlt'; [apply Z.ltb_lt in Hlt'; lia|].
        reflexivity.
Qed.

Lemma health_check_by_record_witness :
  exists s',
    Services (healthcheckServices (hostS1 false) idsS1 stateS1) !! "postgres:5432"
      = Some s' /\
    TotalErrors s' = 1.
Proof.
  destruct (health_check_by_record (hostS1 false) idsS1 stateS1 idsS1_NoDup)
    as (_ & _ & _ & _ & _ & Hrec).
  assert (Hin : "postgres:5432" ∈ idsS1) by by_evaluation.
  assert (Hs : Services stateS1 !! "postgres:5432" = Some serviceS1)
    by (vm_compute; reflexivity).
  destruct (Hrec "postgres:5432" serviceS1 Hin Hs) as [_ Hfail].
  destruct (Hfail eq_refl eq_refl) as (s' & Hs' & Herr & _);
    [simpl; lia|].
  exists s'. split; [exact Hs' | exact Herr].
Defined.

(** ** The configuration: what [Validate] accepts and what it sets *)

Section Startup.

Context {Filters : Type} (filterNew : Filters)
  (filterSetDefault : Filters -> Filters)
  (filterCompile : Filters -> option Filters)
  (yamlUnmarshal : string -> pgscv.Config Filters -> result (pgscv.Config Filters)).

Abbreviation Validate' :=
  (pgscv.Validate Filters filterNew filterSetDefault filterCompile).
Abbreviation main' :=
  (pgscv.main Filters filterNew filterSetDefault filterCompile).

Lemma validateServices_ok h (settings : list ConnSetting) :
  (pgscv.validateServices h settings = Ok tt <->
   Forall (fun s => ServiceType s <> "" /\
                    is_Some (ParseConfig h (Conninfo s))) settings) /\
  pgscv.validateServices h settings <> Panic.
Proof.
  induction settings as [|s settings [IH1 IH2]]; simpl.
  - split; [|discriminate]. split; [intros _; apply Forall_nil_2 | done].
  - case_bool_decide as Ht.
    + split; [|discriminate]. split; [discriminate|].
      intros [[Hne _] _]%Forall_cons. contradiction.
    + destruct (ParseConfig h (Conninfo s)) as [hp|] eqn:Hp.
      * split; [|exact IH2]. rewrite IH1, Forall_cons. split.
        -- intros Hall. split; [split; [exact Ht | by eexists] | exact Hall].
        -- by intros [_ Hall].
      * split; [|discriminate]. split; [discriminate|].
        intros [[_ [x Hx]] _]%Forall_cons. rewrite Hp in Hx. discriminate.
Qed.

(** X21. [Validate] returns no error exactly when the API key is there if a
    push URL is, every configured service names its type and has a
    connection string that parses, and the filters compile; it never
    panics.  Whatever it returns, it has set the send interval to 60
    seconds, also over a value of the user, and has left alone the push URL,
    the API key, the services and the switches. *)
Theorem validate_accepts_iff (h : Host) (c : pgscv.Config Filters) :
  (snd (Validate' h c) = Ok tt <->
   (pgscv.SendMetricsURL _ c = "" \/ pgscv.APIKey _ c <> "") /\
   Forall (fun s => ServiceType s <> "" /\
                    is_Some (ParseConfig h (Conninfo s)))
     (default [] (pgscv.ServicesConnSettings _ c)) /\
   is_Some (filterCompile
              (filterSetDefault (default filterNew (pgscv.ConfigFilters _ c))))) /\
  snd (Validate' h c) <> Panic /\
  pgscv.SendMetricsInterval _ (fst (Validate' h c)) = 60 /\
  pgscv.SendMetricsURL _ (fst (Validate' h c)) = pgscv.SendMetricsURL _ c /\
  pgscv.APIKey _ (fst (Validate' h c)) = pgscv.APIKey _ c /\
  pgscv.ServicesConnSettings _ (fst (Validate' h c))
    = pgscv.ServicesConnSettings _ c /\
  pgscv.NoTrackMode _ (fst (Validate' h c)) = pgscv.NoTrackMode _ c /\
  pgscv.AutoUpdate _ (fst (Validate' h c)) = pgscv.AutoUpdate _ c /\
  pgscv.DisableCollectors _ (fst (Validate' h c))
    = pgscv.DisableCollectors _ c.
Proof.
  assert (Hres :
    snd (Validate' h c) =
      if negb (bool_decide (pgscv.SendMetricsURL _ c = ""))
         && bool_decide (pgscv.APIKey _ c = "")
      then Err ErrAPIKey
      else match pgscv.validateServices h
                   (default [] (pgscv.ServicesConnSettings _ c)) with
           | Ok _ =>
               match filterCompile
                       (filterSetDefault
                          (default filterNew (pgscv.ConfigFilters _ c))) with
               | Some _ => Ok tt
               | None => Err ErrFilter
               end
           | Err e => Err e
           | Panic => Panic
           end).
  { unfold pgscv.Validate. destruct (negb _ && _); [reflexivity|].
    destruct (pgscv.validateServices h _) as [[]|e|]; try reflexivity.
    by destruct (filterCompile _). }
  assert (Hfields : forall (P : pgscv.Config Filters -> Prop),
            (forall c', 
               pgscv.SendMetricsInterval _ c' = 60 ->
               pgscv.SendMetricsURL _ c' = pgscv.SendMetricsURL _ c ->
               pgscv.APIKey _ c' = pgscv.APIKey _ c ->
               pgscv.ServicesConnSettings _ c' = pgscv.ServicesConnSettings _ c ->
               pgscv.NoTrackMode _ c' = pgscv.NoTrackMode _ c ->
               pgscv.AutoUpdate _ c' = pgscv.AutoUpdate _ c ->
               pgscv.DisableCollectors _ c' = pgscv.DisableCollectors _ c ->
               P c') ->
            P (fst (Validate' h c))).
  { intros P HP. unfold pgscv.Validate.
    destruct (negb _ && _); [by apply HP|].
    destruct (pgscv.validateServices h _) as [[]|e|]; try by apply HP.
    destruct (filterCompile _); by apply HP. }
  destruct (validateServices_ok h (default [] (pgscv.ServicesConnSettings _ c)))
    as [Hok Hnp].
  split; [|split; [|by apply Hfields]].
  - rewrite Hres.
    assert (Hkeyed :
      negb (bool_decide (pgscv.SendMetricsURL _ c = ""))
      && bool_decide (pgscv.APIKey _ c = "") = false <->
      pgscv.SendMetricsURL _ c = "" \/ pgscv.APIKey _ c <> "").
    { case_bool_decide as Hurl; case_bool_decide as Hkey; simpl;
        (split; [intros Hb | intros Hc]); try done; tauto. }
    destruct (negb _ && _).
    { split; [discriminate|]. intros [Hk _]. by apply Hkeyed in Hk. }
    destruct (pgscv.validateServices h _) as [[]|e|] eqn:Hv.
    + destruct (filterCompile _) as [f|] eqn:Hf.
      * split; [intros _|reflexivity].
        split; [by apply Hkeyed|]. split; [by apply Hok | by eexists].
      * split; [discriminate|]. intros (_ & _ & [x Hx]). discriminate.
    + split; [discriminate|].
      intros (_ & Hall & _). apply Hok in Hall. discriminate.
    + contradiction.
  - rewrite Hres. destruct (negb _ && _); [discriminate|].
    destruct (pgscv.validateServices h _) as [[]|e|]; try done.
    by destruct (filterCompile _).
Qed.

(** X22. A configuration that [Validate] accepts leaves it with a listen
    address (the one given, or 127.0.0.1:9890 for none), with the defaults
    map holding every entry the user gave unchanged and the four names of
    user and database for engine and pooler, and with the compiled
    filters. *)
Theorem validate_sets_defaults (h : Host) (c : pgscv.Config Filters) :
  snd (Validate' h c) = Ok tt ->
  pgscv.ListenAddress _ (fst (Validate' h c))
    = (if bool_decide (pgscv.ListenAddress _ c = "")
       then "127.0.0.1:9890" else pgscv.ListenAddress _ c) /\
  pgscv.ListenAddress _ (fst (Validate' h c)) <> "" /\
  (exists d,
     pgscv.Defaults _ (fst (Validate' h c)) = Some d /\
     (forall k v, default ∅ (pgscv.Defaults _ c) !! k = Some v ->
                  d !! k = Some v) /\
     d !! "postgres_username"
       = Some (defaultOr (default ∅ (pgscv.Defaults _ c))
                 "postgres_username" "pgscv") /\
     d !! "postgres_dbname"
       = Some (defaultOr (default ∅ (pgscv.Defaults _ c))
                 "postgres_dbname" "postgres") /\
     d !! "pgbouncer_username"
       = Some (defaultOr (default ∅ (pgscv.Defaults _ c))
                 "pgbouncer_username" "pgscv") /\
     d !! "pgbouncer_dbname"
       = Some (defaultOr (default ∅ (pgscv.Defaults _ c))
                 "pgbouncer_dbname" "pgbouncer") /\
     (forall k, k <> "postgres_username" -> k <> "postgres_dbname" ->
                k <> "pgbouncer_username" -> k <> "pgbouncer_dbname" ->
                d !! k = default ∅ (pgscv.Defaults _ c) !! k)) /\
  (exists f,
     pgscv.ConfigFilters _ (fst (Validate' h c)) = Some f /\
     filterCompile
       (filterSetDefault (default filterNew (pgscv.ConfigFilters _ c)))
     = Some f).
Proof.
  assert (Hset : forall key value (m : gmap string string) k,
            pgscv.setDefault key value m !! k =
              if bool_decide (k = key)
              then Some (defaultOr m key value) else m !! k).
  { intros key value m k. unfold pgscv.setDefault, defaultOr.
    case_bool_decide as Hk.
    - subst k. destruct (m !! key) eqn:Hm; [exact Hm | apply lookup_insert_eq].
    - destruct (m !! key); [reflexivity|]. by rewrite lookup_insert_ne. }
  assert (Hor : forall key value key' value' (m : gmap string string),
            key <> key' ->
            defaultOr (pgscv.setDefault key' value' m) key value
            = defaultOr m key value).
  { intros key value key' value' m Hne. unfold defaultOr at 1.
    rewrite Hset, bool_decide_eq_false_2 by exact Hne. reflexivity. }
  assert (Hkeep : forall key value (m : gmap string string) k v,
            m !! k = Some v -> pgscv.setDefault key value m !! k = Some v).
  { intros key value m k v Hk. rewrite Hset. case_bool_decide as Hkey; [|exact Hk].
    subst k. unfold defaultOr. by rewrite Hk. }
  unfold pgscv.Validate.
  destruct (negb _ && _); simpl; [discriminate|].
  destruct (pgscv.validateServices h _) as [[]|e|]; simpl; [|discriminate..].
  destruct (filterCompile _) as [f|] eqn:Hf; simpl; [|discriminate].
  intros _. unfold pgscv.defaultListenAddress.
  split; [reflexivity|]. split; [by case_bool_decide|]. split; [|eauto].
  eexists. split; [reflexivity|].
  unfold defaultPgbouncerDbname, defaultPgbouncerUsername,
    defaultPostgresDbname, defaultPostgresUsername.
  split; [|split; [|split; [|split; [|split]]]].
  - intros k v Hk. by do 4 apply Hkeep.
  - rewrite !Hset. simpl. by rewrite ?Hor.
  - rewrite !Hset. simpl. by rewrite ?Hor.
  - rewrite !Hset. simpl. by rewrite ?Hor.
  - rewrite !Hset. simpl. by rewrite ?Hor.
  - intros k H1 H2 H3 H4. rewrite !Hset.
    by rewrite !bool_decide_eq_false_2.
Qed.

Lemma NewConfig_cases h configFilePath :
  NewConfig Filters yamlUnmarshal h configFilePath =
    if bool_decide (configFilePath = "") then Ok (emptyConfig Filters)
    else match ReadFile h configFilePath with
         | None => Err (ErrReadFile configFilePath)
         | Some content => yamlUnmarshal content (emptyConfig Filters)
         end.
Proof. reflexivity. Qed.


End Startup.

Lemma validate_sets_defaults_witness :
  pgscv.ListenAddress _
    (fst (pgscv.Validate unit tt (fun f => f) Some (hostS1 true) configPull))
  = "127.0.0.1:9890".
Proof.
  apply (validate_sets_defaults tt (fun f => f) Some (hostS1 true) configPull).
  reflexivity.
Defined.


(** ** The CPU collector *)

Section CPUProperties.

Context {F : Type} (F0 : F) (Flt Fge : F -> F -> bool) (Fadd : F -> F -> F).

Abbreviation updateOne' := (updateOne F F0 Flt Fge).
Abbreviation updateCache' := (updateCache F F0 Flt Fge).
Abbreviation updateCPUStats' := (updateCPUStats F F0 Flt Fge Fadd).
Abbreviation updateStat' := (updateStat F F0 Flt Fge Fadd).
Abbreviation startCache' := (startCache F F0).

(** The loop over the indices is the new stats and the cache taken side by
    side, when the cache is long enough; [pre] is the part of the cache the
    loop is done with. *)
Lemma updateCache_zip newStats : forall (pre cache : list (CPUStat F)),
  (List.length newStats <= List.length cache)%nat ->
  updateCache' (List.length pre) newStats (pre ++ cache)
  = Ok (pre ++ zip_with updateOne' newStats cache
        ++ drop (List.length newStats) cache).
Proof.
  induction newStats as [|n newStats IH]; intros pre cache Hlen; simpl.
  - by rewrite drop_0.
  - destruct cache as [|c cache]; simpl in Hlen; [lia|].
    rewrite list_lookup_middle by reflexivity.
    rewrite insert_app_r_alt, Nat.sub_diag by lia. simpl.
    replace (S (List.length pre)) with (List.length (pre ++ [updateOne' n c]))
      by (rewrite length_app; simpl; lia).
    rewrite (cons_middle _ pre cache).
    rewrite app_assoc, IH by lia.
    by rewrite <- app_assoc.
Qed.

Lemma startCache_length newStats c :
  List.length (startCache' newStats c) = List.length newStats.
Proof.
  unfold startCache. case_bool_decide; [assumption | apply length_replicate].
Qed.

Lemma updateCPUStats_ok newStats c :
  updateCPUStats' newStats c
  = Ok {| cpuStats := zip_with updateOne' newStats (startCache' newStats c);
          cpuStatsSum :=
            foldl (addCPUStat F Fadd) (zeroCPUStat F F0) newStats |}.
Proof.
  unfold updateCPUStats. fold (startCache' newStats c).
  pose proof (updateCache_zip newStats [] (startCache' newStats c)) as Hz.
  simpl in Hz. rewrite Hz by (rewrite startCache_length; lia).
  simpl. rewrite drop_ge by (rewrite startCache_length; lia).
  by rewrite app_nil_r.
Qed.

(** X24. [updateCPUStats] never indexes outside the cache, however many
    CPUs the new reading has: the cache is made anew when the number of CPUs
    changed, and after the call it has one entry for each CPU of the
    reading, entry by entry [updateOne] of the new and the cached stats, with
    the idle counter of the reading. *)
Theorem cpu_cache_follows_reading (newStats : list (CPUStat F))
    (c : cpuCollector F) :
  exists c',
    updateCPUStats' newStats c = Ok c' /\
    cpuStats F c' = zip_with updateOne' newStats (startCache' newStats c) /\
    List.length (cpuStats F c') = List.length newStats /\
    (forall i n, newStats !! i = Some n ->
       exists s, cpuStats F c' !! i = Some s /\ Idle F s = Idle F n) /\
    (List.length (cpuStats F c) <> List.length newStats ->
     cpuStats F c' = map (fun n => updateOne' n (zeroCPUStat F F0)) newStats).
Proof.
  rewrite updateCPUStats_ok. eexists. split; [reflexivity|]. simpl.
  split; [reflexivity|]. split; [|split].
  - rewrite length_zip_with, startCache_length. lia.
  - intros i n Hn.
    destruct (lookup_lt_is_Some_2 (startCache' newStats c) i) as [s0 Hs0];
      [rewrite startCache_length; by apply lookup_lt_Some in Hn|].
    exists (updateOne' n s0). split; [|reflexivity].
    rewrite lookup_zip_with, Hn. simpl. by rewrite Hs0.
  - intros Hne. unfold startCache. rewrite bool_decide_eq_false_2 by exact Hne.
    clear Hne. induction newStats as [|n newStats IH]; [reflexivity|].
    simpl. by rewrite IH.
Qed.


End CPUProperties.
